(** * myopl: lexer, parser and tree-walking evaluator of [basic.py]

    A shallow embedding of the pipeline of [basic.py]
    (text -> Lexer -> tokens -> Parser -> AST -> Interpreter -> Value | Error)
    and the properties of the specification that were checked against it.

    Conventions of the embedding.
    - A host (Python) [int] is a [Z]; a host [float] is an IEEE 754 binary64
      number, represented by the Standard Library's [spec_float] at precision
      53 and maximal exponent 1024.
    - A host exception that the program does not catch ends the computation:
      it is the outcome [Raise] of the [host] type.
    - Recursion of the program (recursive descent, tree walking, loops) is
      bounded by a fuel; running out of it is the outcome [OutOfFuel].
    - The mutable objects that the program shares are allocated in a store:
      the element sequence of a [List] value, and every [SymbolTable].  The
      wrappers of values (position and context stamps) are copied by value. *)

From Stdlib Require Import ZArith String Ascii List Bool Lia.
From Stdlib Require Import Floats.SpecFloat.
From stdpp Require Import gmap strings list pretty.

Set Warnings "-register-all".

Import ListNotations.
Local Open Scope string_scope.
Local Open Scope Z_scope.

(** ** Host outcomes *)

(** The host exceptions that the program can let escape. *)
Inductive exn : Type :=
  | AttributeError
  | TypeError
  | UnboundLocalError
  | OverflowError
  | ValueError
  | ZeroDivisionError
  | IndexError
  | KeyError
  | EOFError
  | OSError
  | Exception (message : string).

(** Outcome of running a piece of the program on the host. [HostLib f] says
    that the result is decided by the host's mathematics library function [f]
    on an argument for which the embedding does not fix its value. *)
Inductive host (A : Type) : Type :=
  | Ret (a : A)
  | Raise (e : exn)
  | OutOfFuel
  | HostLib (f : string).

Arguments Ret {A} a.
Arguments Raise {A} e.
Arguments OutOfFuel {A}.
Arguments HostLib {A} f.

Definition host_bind {A B} (m : host A) (k : A -> host B) : host B :=
  match m with
  | Ret a => k a
  | Raise e => Raise e
  | OutOfFuel => OutOfFuel
  | HostLib f => HostLib f
  end.

Notation "'let*' x ':=' m 'in' k" := (host_bind m (fun x => k))
  (at level 10, x pattern, m at level 100, k at level 200).

(** ** Host numbers *)

Definition prec : Z := 53.
Definition emax : Z := 1024.

Inductive pynum : Type :=
  | PInt (z : Z)
  | PFloat (f : spec_float).

Definition float_is_zero (f : spec_float) : bool :=
  match f with S754_zero _ => true | _ => false end.

Definition float_isinf (f : spec_float) : bool :=
  match f with S754_infinity _ => true | _ => false end.

(** [float(n)] for an [int]: round to nearest even; the host raises
    [OverflowError] when the result is not finite. *)
Definition float_of_int (z : Z) : host spec_float :=
  let f := binary_normalize prec emax z 0 false in
  if float_isinf f then Raise OverflowError else Ret f.

(** The exact value of a finite float as a fraction [num / den], [den > 0]. *)
Definition float_frac (f : spec_float) : option (Z * Z) :=
  match f with
  | S754_zero _ => Some (0, 1)
  | S754_finite s m e =>
      let n := if s then Z.neg m else Z.pos m in
      Some (if 0 <=? e then (n * 2 ^ e, 1) else (n, 2 ^ (- e)))
  | _ => None
  end.

(** Comparison of an [int] with a [float], exact as on the host. [None] when
    the float is a NaN. *)
Definition compare_int_float (z : Z) (f : spec_float) : option comparison :=
  match f with
  | S754_nan => None
  | S754_infinity s => Some (if s then Gt else Lt)
  | _ => match float_frac f with
         | Some (n, d) => Some (Z.compare (z * d) n)
         | None => None
         end
  end.

Definition num_compare (a b : pynum) : option comparison :=
  match a, b with
  | PInt x, PInt y => Some (Z.compare x y)
  | PFloat x, PFloat y => SFcompare x y
  | PInt x, PFloat y => compare_int_float x y
  | PFloat x, PInt y => option_map CompOpp (compare_int_float y x)
  end.

Definition num_eq (a b : pynum) : bool :=
  match num_compare a b with Some Eq => true | _ => false end.
Definition num_ne (a b : pynum) : bool := negb (num_eq a b).
Definition num_lt (a b : pynum) : bool :=
  match num_compare a b with Some Lt => true | _ => false end.
Definition num_gt (a b : pynum) : bool :=
  match num_compare a b with Some Gt => true | _ => false end.
Definition num_le (a b : pynum) : bool :=
  match num_compare a b with Some Lt | Some Eq => true | _ => false end.
Definition num_ge (a b : pynum) : bool :=
  match num_compare a b with Some Gt | Some Eq => true | _ => false end.

(** Truth value of a host number: [x != 0]. *)
Definition num_truthy (a : pynum) : bool := num_ne a (PInt 0).

Definition num_of_bool (b : bool) : pynum := PInt (if b then 1 else 0).

Definition to_float (a : pynum) : host spec_float :=
  match a with
  | PInt z => float_of_int z
  | PFloat f => Ret f
  end.

Definition float_binop (op : spec_float -> spec_float -> spec_float)
    (a b : pynum) : host pynum :=
  let* x := to_float a in
  let* y := to_float b in
  Ret (PFloat (op x y)).

Definition num_add (a b : pynum) : host pynum :=
  match a, b with
  | PInt x, PInt y => Ret (PInt (x + y))
  | _, _ => float_binop (SFadd prec emax) a b
  end.

Definition num_sub (a b : pynum) : host pynum :=
  match a, b with
  | PInt x, PInt y => Ret (PInt (x - y))
  | _, _ => float_binop (SFsub prec emax) a b
  end.

Definition num_mul (a b : pynum) : host pynum :=
  match a, b with
  | PInt x, PInt y => Ret (PInt (x * y))
  | _, _ => float_binop (SFmul prec emax) a b
  end.

(** The correctly rounded quotient of two integers, [y <> 0]. *)
Definition int_truediv (x y : Z) : spec_float :=
  match x, y with
  | Z0, _ => S754_zero (y <? 0)
  | _, Z0 => S754_nan
  | Zpos p, Zpos q => SFdiv prec emax (S754_finite false p 0) (S754_finite false q 0)
  | Zpos p, Zneg q => SFdiv prec emax (S754_finite false p 0) (S754_finite true q 0)
  | Zneg p, Zpos q => SFdiv prec emax (S754_finite true p 0) (S754_finite false q 0)
  | Zneg p, Zneg q => SFdiv prec emax (S754_finite true p 0) (S754_finite true q 0)
  end.

(** [a / b]; the callers test [b == 0] first. *)
Definition num_truediv (a b : pynum) : host pynum :=
  if num_eq b (PInt 0) then Raise ZeroDivisionError else
  match a, b with
  | PInt x, PInt y =>
      let q := int_truediv x y in
      if float_isinf q then Raise OverflowError else Ret (PFloat q)
  | _, _ => float_binop (SFdiv prec emax) a b
  end.

(** [a % b]: exact on integers (the sign follows the divisor, as [Z.modulo]);
    on floats it is the host library's [fmod]. *)
Definition num_mod (a b : pynum) : host pynum :=
  if num_eq b (PInt 0) then Raise ZeroDivisionError else
  match a, b with
  | PInt x, PInt y => Ret (PInt (x mod y))
  | _, _ => HostLib "fmod"
  end.

(** [a ** b]: exact on integers with a non-negative exponent; every other
    case goes through the host library's [pow]. *)
Definition num_pow (a b : pynum) : host pynum :=
  match a, b with
  | PInt x, PInt y =>
      if 0 <=? y then Ret (PInt (x ^ y))
      else if x =? 0 then Raise ZeroDivisionError
      else HostLib "pow"
  | _, _ => HostLib "pow"
  end.

(** [int(x)] for a host number: truncation towards zero. *)
Definition num_int (a : pynum) : host Z :=
  match a with
  | PInt z => Ret z
  | PFloat f =>
      match f with
      | S754_nan => Raise ValueError
      | S754_infinity _ => Raise OverflowError
      | _ => match float_frac f with
             | Some (n, d) => Ret (Z.quot n d)
             | None => Raise ValueError
             end
      end
  end.

(** [x and y], [x or y] on host numbers. *)
Definition num_and (a b : pynum) : pynum := if num_truthy a then b else a.
Definition num_or (a b : pynum) : pynum := if num_truthy a then a else b.

(** ** Positions *)

Record Position : Type := mkPosition {
  theindex : Z;
  linenum : Z;
  column : Z;
  filename : string;
  filetext : string
}.

Definition newline_char : ascii := "010"%char.
Definition tab_char : ascii := "009"%char.
Definition quote_char : ascii := "034"%char.
Definition backslash_char : ascii := "092"%char.

Definition opt_ascii_eqb (a : option ascii) (c : ascii) : bool :=
  match a with Some x => Ascii.eqb x c | None => false end.

(** [Position.advance]: one character further; a newline starts a line. *)
Definition Position_advance (p : Position) (current_char : option ascii) : Position :=
  let p1 := mkPosition (theindex p + 1) (linenum p) (column p + 1)
              (filename p) (filetext p) in
  if opt_ascii_eqb current_char newline_char
  then mkPosition (theindex p1) (linenum p1 + 1) 0 (filename p1) (filetext p1)
  else p1.

Definition Position_copy (p : Position) : Position :=
  mkPosition (theindex p) (linenum p) (column p) (filename p) (filetext p).

(** ** Contexts and errors *)

(** A [SymbolTable] or the element sequence of a [List] is named by its
    location in the store. *)
Definition loc : Type := nat.

(** [Context]: a call frame. Its [symbol_table] attribute is assigned once,
    right after the frame is built. *)
Inductive Context : Type :=
  mkContext (display_name : string) (parent : option Context)
            (parent_entry_pos : option Position) (symbol_table : loc).

Definition display_name (c : Context) : string :=
  let 'mkContext n _ _ _ := c in n.
Definition parent (c : Context) : option Context :=
  let 'mkContext _ p _ _ := c in p.
Definition parent_entry_pos (c : Context) : option Position :=
  let 'mkContext _ _ e _ := c in e.
Definition symbol_table (c : Context) : loc :=
  let 'mkContext _ _ _ t := c in t.

Record Error : Type := mkError {
  error_pos_start : option Position;
  error_pos_end : option Position;
  error_name : string;
  details : string;
  error_context : option Context
}.

Definition IllegalCharError (ps pe : Position) (d : string) : Error :=
  mkError (Some ps) (Some pe) "Illegal Character" d None.
Definition ExpectedCharError (ps pe : Position) (d : string) : Error :=
  mkError (Some ps) (Some pe) "Expected Character" d None.
Definition InvalidSyntaxError (ps pe : Position) (d : string) : Error :=
  mkError (Some ps) (Some pe) "Invalid Syntax" d None.
Definition RTError (ps pe : option Position) (d : string)
    (ctx : option Context) : Error :=
  mkError ps pe "Runtime Error" d ctx.

(** ** Constants *)

(** Modelled from the spec: the constants module [c] (character classes and
    the table [ERRORS] of message texts) is not among the sources.  The
    character classes follow the lexer's description (digits; letters; at
    most one [.] and an exponent marker [e] or [E] in a number; two
    hexadecimal digits after [\x]).  A message of [ERRORS] is represented by
    its key. *)
Definition DIGITS : string := "0123456789".
Definition LETTERS : string :=
  "abcdefghijklmnopqrstuvwxyzABCDEFGHIJKLMNOPQRSTUVWXYZ".
Definition LETTERS_DIGITS : string := LETTERS ++ DIGITS.
Definition NUMBER_CHARS : string := DIGITS ++ ".eE".
Definition HEX_CHARS : string := "0123456789abcdefABCDEF".
Definition ESCAPE_CHARACTERS : list (ascii * ascii) :=
  [("n"%char, newline_char); ("t"%char, tab_char)].
Definition ERRORS (key : string) : string := key.

Fixpoint char_in (c : ascii) (s : string) : bool :=
  match s with
  | EmptyString => false
  | String x r => Ascii.eqb c x || char_in c r
  end.

Definition opt_char_in (a : option ascii) (s : string) : bool :=
  match a with Some c => char_in c s | None => false end.

(** ** Tokens *)

Inductive TokenType : Type :=
  | TOKEN_TYPE_INT | TOKEN_TYPE_FLOAT | TOKEN_TYPE_STRING
  | TOKEN_TYPE_IDENTIFIER | TOKEN_TYPE_KEYWORD
  | TOKEN_TYPE_PLUS | TOKEN_TYPE_MINUS | TOKEN_TYPE_MULTIPLY
  | TOKEN_TYPE_DIVIDE | TOKEN_TYPE_MODULUS | TOKEN_TYPE_POWER
  | TOKEN_TYPE_ASSIGN | TOKEN_TYPE_LPAREN | TOKEN_TYPE_RPAREN
  | TOKEN_TYPE_LSQUARE | TOKEN_TYPE_RSQUARE
  | TOKEN_TYPE_EQUAL_TO | TOKEN_TYPE_NOT_EQUAL_TO
  | TOKEN_TYPE_LESS_THAN | TOKEN_TYPE_GREATER_THAN
  | TOKEN_TYPE_LESS_THAN_EQUAL_TO | TOKEN_TYPE_GREATER_THAN_EQUAL_TO
  | TOKEN_TYPE_COMMA | TOKEN_TYPE_ARROW | TOKEN_TYPE_NEWLINE | TOKEN_TYPE_EOF.

Definition TokenType_eqb (a b : TokenType) : bool :=
  match a, b with
  | TOKEN_TYPE_INT, TOKEN_TYPE_INT | TOKEN_TYPE_FLOAT, TOKEN_TYPE_FLOAT
  | TOKEN_TYPE_STRING, TOKEN_TYPE_STRING
  | TOKEN_TYPE_IDENTIFIER, TOKEN_TYPE_IDENTIFIER
  | TOKEN_TYPE_KEYWORD, TOKEN_TYPE_KEYWORD
  | TOKEN_TYPE_PLUS, TOKEN_TYPE_PLUS | TOKEN_TYPE_MINUS, TOKEN_TYPE_MINUS
  | TOKEN_TYPE_MULTIPLY, TOKEN_TYPE_MULTIPLY
  | TOKEN_TYPE_DIVIDE, TOKEN_TYPE_DIVIDE
  | TOKEN_TYPE_MODULUS, TOKEN_TYPE_MODULUS
  | TOKEN_TYPE_POWER, TOKEN_TYPE_POWER | TOKEN_TYPE_ASSIGN, TOKEN_TYPE_ASSIGN
  | TOKEN_TYPE_LPAREN, TOKEN_TYPE_LPAREN | TOKEN_TYPE_RPAREN, TOKEN_TYPE_RPAREN
  | TOKEN_TYPE_LSQUARE, TOKEN_TYPE_LSQUARE
  | TOKEN_TYPE_RSQUARE, TOKEN_TYPE_RSQUARE
  | TOKEN_TYPE_EQUAL_TO, TOKEN_TYPE_EQUAL_TO
  | TOKEN_TYPE_NOT_EQUAL_TO, TOKEN_TYPE_NOT_EQUAL_TO
  | TOKEN_TYPE_LESS_THAN, TOKEN_TYPE_LESS_THAN
  | TOKEN_TYPE_GREATER_THAN, TOKEN_TYPE_GREATER_THAN
  | TOKEN_TYPE_LESS_THAN_EQUAL_TO, TOKEN_TYPE_LESS_THAN_EQUAL_TO
  | TOKEN_TYPE_GREATER_THAN_EQUAL_TO, TOKEN_TYPE_GREATER_THAN_EQUAL_TO
  | TOKEN_TYPE_COMMA, TOKEN_TYPE_COMMA | TOKEN_TYPE_ARROW, TOKEN_TYPE_ARROW
  | TOKEN_TYPE_NEWLINE, TOKEN_TYPE_NEWLINE | TOKEN_TYPE_EOF, TOKEN_TYPE_EOF => true
  | _, _ => false
  end.

Definition COMPARISONS_TOKEN : list TokenType :=
  [TOKEN_TYPE_EQUAL_TO; TOKEN_TYPE_NOT_EQUAL_TO; TOKEN_TYPE_LESS_THAN;
   TOKEN_TYPE_GREATER_THAN; TOKEN_TYPE_LESS_THAN_EQUAL_TO;
   TOKEN_TYPE_GREATER_THAN_EQUAL_TO].

Definition KEYWORDS : list string :=
  ["VAR"; "AND"; "OR"; "NOT"; "IF"; "ELIF"; "ELSE"; "FOR"; "TO"; "STEP";
   "WHILE"; "FUN"; "THEN"; "END"; "RETURN"; "CONTINUE"; "BREAK"; "IMPORT"].

(** The literal value carried by a token: nothing, a number or a text. *)
Inductive TokenValue : Type :=
  | NoValue
  | NumValue (n : pynum)
  | StrValue (s : string).

Record Token : Type := mkToken {
  type : TokenType;
  value : TokenValue;
  pos_start : Position;
  pos_end : Position
}.

(** [Token.__init__]: the end defaults to one character after the start. *)
Definition Token_new (token_type : TokenType) (v : TokenValue)
    (ps : Position) (pe : option Position) : Token :=
  mkToken token_type v (Position_copy ps)
    (match pe with
     | Some e => Position_copy e
     | None => Position_advance (Position_copy ps) None
     end).

Definition TokenValue_is (v : TokenValue) (s : string) : bool :=
  match v with StrValue x => String.eqb x s | _ => false end.

Definition matches (t : Token) (token_type : TokenType) (v : string) : bool :=
  TokenType_eqb (type t) token_type && TokenValue_is (value t) v.

Definition str_in (s : string) (l : list string) : bool :=
  existsb (String.eqb s) l.

(** [l.append(x)] on a host list. *)
Definition append {A} (l : list A) (x : A) : list A := app l (cons x nil).

(** ** Lexer *)

Record Lexer : Type := mkLexer {
  lexer_filename : string;
  text : string;
  pos : Position;
  current_char : option ascii
}.

Definition Lexer_advance (l : Lexer) : Lexer :=
  let p := Position_advance (pos l) (current_char l) in
  mkLexer (lexer_filename l) (text l) p
    (if theindex p <? Z.of_nat (String.length (text l))
     then String.get (Z.to_nat (theindex p)) (text l)
     else None).

Definition Lexer_new (fname txt : string) : Lexer :=
  Lexer_advance (mkLexer fname txt (mkPosition (-1) 0 (-1) fname txt) None).

Definition str_of_char (c : ascii) : string := String c EmptyString.

(** *** Conversion of numeric literals *)

Definition digit_value (c : ascii) : Z := Z.of_nat (nat_of_ascii c) - 48.

(** The digits of [s] read as one integer, and how many of them follow the
    dot: [("12.50")] is [(1250, 2)]. *)
Fixpoint decimal_parts (s : string) (m : Z) (seen_dot : bool) (k : Z) : Z * Z :=
  match s with
  | EmptyString => (m, k)
  | String c r =>
      if Ascii.eqb c "."%char then decimal_parts r m true k
      else decimal_parts r (10 * m + digit_value c) seen_dot
             (if seen_dot then k + 1 else k)
  end.

(** The float nearest to [m * 10 ^ e10], [0 <= m] (the host's [float] of a
    decimal text is correctly rounded). *)
Definition float_of_decimal (m e10 : Z) : spec_float :=
  match m with
  | Zpos p =>
      if 0 <=? e10 then binary_normalize prec emax (m * 10 ^ e10) 0 false
      else SFdiv prec emax (S754_finite false p 0)
             (S754_finite false (Z.to_pos (10 ^ (- e10))) 0)
  | _ => S754_zero false
  end.

(** [int(num_str)] on a text of digits. The host interpreter that runs this
    program (its [typing.Self] import needs CPython 3.11) refuses a text of
    more than 4300 digits with [ValueError]. *)
Definition int_max_str_digits : nat := 4300%nat.

Definition py_int (num_str : string) : host Z :=
  if (int_max_str_digits <? String.length num_str)%nat then Raise ValueError
  else Ret (fst (decimal_parts num_str 0 false 0)).

(** [float(num_str)] on a text of digits with one dot. *)
Definition py_float (num_str : string) : host spec_float :=
  let '(m, k) := decimal_parts num_str 0 false 0 in
  Ret (float_of_decimal m (- k)).

(** [float(num_str + "e" + sign + exponent)]; malformed without exponent
    digits. *)
Definition py_float_exp (num_str sign_str exponent_str : string) : host spec_float :=
  match exponent_str with
  | EmptyString => Raise ValueError
  | _ =>
      let '(m, k) := decimal_parts num_str 0 false 0 in
      let e := fst (decimal_parts exponent_str 0 false 0) in
      let e := if String.eqb sign_str "-" then - e else e in
      Ret (float_of_decimal m (e - k))
  end.

(** *** The host's [math.log10] against an integer bound

    [math.log10] belongs to the host's mathematics library.  Its result is
    fixed here only through the comparisons the lexer makes, and only away
    from the bound: for [x >= 10^k * (1 + 2^-40)] the library's result is
    above [k], for [x <= 10^k * (1 - 2^-40)] it is below; in between the
    outcome is [HostLib "log10"]. *)
Definition pow10_frac (k : Z) : Z * Z :=
  if 0 <=? k then (10 ^ k, 1) else (1, 10 ^ (- k)).

Inductive band : Type := Above | Below | Near.

Definition log10_band (f : spec_float) (k : Z) : host band :=
  match f with
  | S754_nan => Ret Near
  | S754_infinity false => Ret Above
  | S754_finite false _ _ =>
      match float_frac f with
      | Some (n, d) =>
          let '(tn, td) := pow10_frac k in
          if tn * (2 ^ 40 + 1) * d <=? n * td * 2 ^ 40 then Ret Above
          else if n * td * 2 ^ 40 <=? tn * (2 ^ 40 - 1) * d then Ret Below
          else Ret Near
      | None => Ret Near
      end
  | _ => Raise ValueError
  end.

(** [math.log10(x) >= k] *)
Definition log10_ge (f : spec_float) (k : Z) : host bool :=
  let* b := log10_band f k in
  match b with
  | Above => Ret true
  | Below => Ret false
  | Near => match f with S754_nan => Ret false | _ => HostLib "log10" end
  end.

(** [math.log10(x) <= k] *)
Definition log10_le (f : spec_float) (k : Z) : host bool :=
  let* b := log10_band f k in
  match b with
  | Above => Ret false
  | Below => Ret true
  | Near => match f with S754_nan => Ret false | _ => HostLib "log10" end
  end.

(** [math.isinf(x)]: an [int] is converted to a float first. *)
Definition math_isinf (n : pynum) : host bool :=
  let* f := to_float n in Ret (float_isinf f).

(** [math.log10(x) >= k] for a host number. *)
Definition math_log10_ge (n : pynum) (k : Z) : host bool :=
  let* f := to_float n in log10_ge f k.

(** A [try] block with the two handlers of the number makers:
    [except (OverflowError, MemoryError)] and [except ValueError]. *)
Definition try_number {A} (body : host A) (on_overflow on_value : A) : host A :=
  match body with
  | Raise OverflowError => Ret on_overflow
  | Raise ValueError => Ret on_value
  | other => other
  end.

(** *** Token makers *)

Fixpoint exponent_digits (fuel : nat) (l : Lexer) (exponent_str : string)
    : host (string * Lexer) :=
  match fuel with
  | O => OutOfFuel
  | S fuel' =>
      match current_char l with
      | Some c =>
          if char_in c DIGITS
          then exponent_digits fuel' (Lexer_advance l)
                 (exponent_str ++ str_of_char c)
          else Ret (exponent_str, l)
      | None => Ret (exponent_str, l)
      end
  end.

Definition make_exponent_number (fuel : nat) (l : Lexer) (num_str : string)
    (ps : Position) : host ((Token + Error) * Lexer) :=
  let '(sign_str, l) :=
    match current_char l with
    | Some c =>
        if Ascii.eqb c "+" || Ascii.eqb c "-"
        then (str_of_char c, Lexer_advance l)
        else ("", l)
    | None => ("", l)
    end in
  let* (exponent_str, l) := exponent_digits fuel l "" in
  let* r :=
    try_number
      (let* thenumber := py_float_exp num_str sign_str exponent_str in
       if float_is_zero thenumber
       then (* [thelog10] was never bound *) Raise UnboundLocalError
       else if float_isinf thenumber then Raise OverflowError
       else
         let* big := log10_ge thenumber 308 in
         if big then Raise OverflowError
         else
           let* small := log10_le thenumber (-308) in
           if small
           then Ret (inr (InvalidSyntaxError ps (pos l)
                            (ERRORS "exponent_underflow")))
           else Ret (inl (Token_new TOKEN_TYPE_FLOAT
                            (NumValue (PFloat thenumber)) ps (Some (pos l)))))
      (inr (InvalidSyntaxError ps (pos l) (ERRORS "exponent_overflow")))
      (inr (InvalidSyntaxError ps (pos l) (ERRORS "exponent_error"))) in
  Ret (r, l).

(** The test [(math.isinf(x) or math.log10(x)) >= 308] of [make_number]:
    the comparison applies to the value of the whole [or], which is the
    boolean [True] (the integer 1) when [x] is infinite. *)
Definition isinf_or_log10_ge_308 (thenumber : pynum) : host bool :=
  let* inf := math_isinf thenumber in
  if inf then Ret (num_ge (num_of_bool true) (PInt 308))
  else math_log10_ge thenumber 308.

Definition number_checked (thenumber : pynum) (dot_count : Z)
    (ps pe : Position) : host (Token + Error) :=
  let* too_big :=
    if num_ne thenumber (PInt 0) then isinf_or_log10_ge_308 thenumber
    else Ret false in
  if too_big then Raise OverflowError
  else if dot_count =? 0
  then Ret (inl (Token_new TOKEN_TYPE_INT (NumValue thenumber) ps (Some pe)))
  else Ret (inl (Token_new TOKEN_TYPE_FLOAT (NumValue thenumber) ps (Some pe))).

Definition number_convert (num_str : string) (dot_count : Z)
    (ps pe : Position) : host (Token + Error) :=
  try_number
    (let* thenumber :=
       if dot_count =? 0
       then (let* z := py_int num_str in Ret (PInt z))
       else (let* f := py_float num_str in Ret (PFloat f)) in
     number_checked thenumber dot_count ps pe)
    (inr (InvalidSyntaxError ps pe (ERRORS "number_overflow")))
    (inr (InvalidSyntaxError ps pe (ERRORS "number_conversion_error"))).

(** The conversion at the end of the scan of [make_number]. *)
Definition number_finish (l : Lexer) (num_str : string) (dot_count : Z)
    (ps : Position) : host ((Token + Error) * Lexer) :=
  let* r := number_convert num_str dot_count ps (pos l) in
  Ret (r, l).

Fixpoint make_number_loop (fuel : nat) (l : Lexer) (num_str : string)
    (dot_count : Z) (ps : Position) : host ((Token + Error) * Lexer) :=
  match fuel with
  | O => OutOfFuel
  | S fuel' =>
      match current_char l with
      | Some c =>
          if char_in c NUMBER_CHARS then
            if Ascii.eqb c "." then
              if dot_count =? 1 then number_finish l num_str dot_count ps
              else make_number_loop fuel' (Lexer_advance l)
                     (num_str ++ str_of_char c) (dot_count + 1) ps
            else if Ascii.eqb c "e" || Ascii.eqb c "E" then
              make_exponent_number fuel' (Lexer_advance l) num_str ps
            else make_number_loop fuel' (Lexer_advance l)
                   (num_str ++ str_of_char c) dot_count ps
          else number_finish l num_str dot_count ps
      | None => number_finish l num_str dot_count ps
      end
  end.

Definition make_number (fuel : nat) (l : Lexer) : host ((Token + Error) * Lexer) :=
  make_number_loop fuel l "" 0 (Position_copy (pos l)).

Definition hex_value (c : ascii) : Z :=
  let n := Z.of_nat (nat_of_ascii c) in
  if char_in c DIGITS then n - 48
  else if char_in c "abcdef" then n - 87
  else n - 55.

Definition check_the_char (l : Lexer) (ps : Position) : (ascii + Error) * Lexer :=
  match current_char l with
  | None =>
      (inr (InvalidSyntaxError ps (pos l) (ERRORS "unterminated_string")), l)
  | Some c =>
      if negb (char_in c HEX_CHARS) then
        let l := Lexer_advance l in
        (inr (InvalidSyntaxError ps (pos l) (ERRORS "illegal_hex_char")), l)
      else (inl c, l)
  end.

Definition handle_hex_value (l : Lexer) (ps : Position) : (ascii + Error) * Lexer :=
  match check_the_char l ps with
  | (inr e, l) => (inr e, l)
  | (inl char1, l) =>
      let l := Lexer_advance l in
      match check_the_char l ps with
      | (inr e, l) => (inr e, l)
      | (inl char2, l) =>
          let l := Lexer_advance l in
          (inl (ascii_of_nat (Z.to_nat (hex_value char1 * 16 + hex_value char2))), l)
      end
  end.

Fixpoint escape_lookup (c : ascii) (table : list (ascii * ascii)) : ascii :=
  match table with
  | [] => c
  | (k, v) :: rest => if Ascii.eqb c k then v else escape_lookup c rest
  end.

Fixpoint make_string_loop (fuel : nat) (l : Lexer) (str : string)
    (escape_character_flag : bool) (ps : Position)
    : host ((Token + Error) * Lexer) :=
  match fuel with
  | O => OutOfFuel
  | S fuel' =>
      match current_char l with
      | None =>
          Ret (inr (InvalidSyntaxError ps (pos l) (ERRORS "unterminated_string")), l)
      | Some c =>
          if Ascii.eqb c quote_char && negb escape_character_flag then
            let l := Lexer_advance l in
            Ret (inl (Token_new TOKEN_TYPE_STRING (StrValue str) ps (Some (pos l))), l)
          else if escape_character_flag && Ascii.eqb c "x" then
            match handle_hex_value (Lexer_advance l) ps with
            | (inr e, l) => Ret (inr e, l)
            | (inl r, l) => make_string_loop fuel' l (str ++ str_of_char r) false ps
            end
          else if escape_character_flag then
            make_string_loop fuel' (Lexer_advance l)
              (str ++ str_of_char (escape_lookup c ESCAPE_CHARACTERS)) false ps
          else if Ascii.eqb c backslash_char then
            make_string_loop fuel' (Lexer_advance l) str true ps
          else
            make_string_loop fuel' (Lexer_advance l) (str ++ str_of_char c) false ps
      end
  end.

Definition make_string (fuel : nat) (l : Lexer) : host ((Token + Error) * Lexer) :=
  make_string_loop fuel (Lexer_advance l) "" false (Position_copy (pos l)).

Fixpoint make_identifier_loop (fuel : nat) (l : Lexer) (id_str : string)
    : host (string * Lexer) :=
  match fuel with
  | O => OutOfFuel
  | S fuel' =>
      match current_char l with
      | Some c =>
          if char_in c (LETTERS_DIGITS ++ "_")
          then make_identifier_loop fuel' (Lexer_advance l) (id_str ++ str_of_char c)
          else Ret (id_str, l)
      | None => Ret (id_str, l)
      end
  end.

Definition make_identifier (fuel : nat) (l : Lexer) : host (Token * Lexer) :=
  let ps := Position_copy (pos l) in
  let* (id_str, l) := make_identifier_loop fuel l "" in
  let tok_type :=
    if str_in id_str KEYWORDS then TOKEN_TYPE_KEYWORD else TOKEN_TYPE_IDENTIFIER in
  Ret (Token_new tok_type (StrValue id_str) ps (Some (pos l)), l).

(** The makers of the one- or two-character operators [- ->], [= ==],
    [< <=], [> >=] share one shape. *)
Definition make_two_char (l : Lexer) (second : ascii)
    (one two : TokenType) : Token * Lexer :=
  let ps := Position_copy (pos l) in
  let l := Lexer_advance l in
  if opt_ascii_eqb (current_char l) second then
    let l := Lexer_advance l in
    (Token_new two NoValue ps (Some (pos l)), l)
  else (Token_new one NoValue ps (Some (pos l)), l).

Definition make_minus_or_arrow (l : Lexer) : Token * Lexer :=
  make_two_char l ">" TOKEN_TYPE_MINUS TOKEN_TYPE_ARROW.
Definition make_equals (l : Lexer) : Token * Lexer :=
  make_two_char l "=" TOKEN_TYPE_ASSIGN TOKEN_TYPE_EQUAL_TO.
Definition make_less_than (l : Lexer) : Token * Lexer :=
  make_two_char l "=" TOKEN_TYPE_LESS_THAN TOKEN_TYPE_LESS_THAN_EQUAL_TO.
Definition make_greater_than (l : Lexer) : Token * Lexer :=
  make_two_char l "=" TOKEN_TYPE_GREATER_THAN TOKEN_TYPE_GREATER_THAN_EQUAL_TO.

Definition make_not_equals (l : Lexer) : (Token + Error) * Lexer :=
  let ps := Position_copy (pos l) in
  let l := Lexer_advance l in
  if opt_ascii_eqb (current_char l) "=" then
    let l := Lexer_advance l in
    (inl (Token_new TOKEN_TYPE_NOT_EQUAL_TO NoValue ps (Some (pos l))), l)
  else
    let l := Lexer_advance l in
    (inr (ExpectedCharError ps (pos l) "'=' (after '!')"), l).

Fixpoint skip_comment_loop (fuel : nat) (l : Lexer) (multi_line_comment : bool)
    : host (option Error * Lexer) :=
  match fuel with
  | O => OutOfFuel
  | S fuel' =>
      if opt_ascii_eqb (current_char l) "*" && multi_line_comment then
        let l := Lexer_advance l in
        if negb (opt_ascii_eqb (current_char l) "#")
        then skip_comment_loop fuel' l multi_line_comment
        else Ret (None, Lexer_advance l)
      else if negb multi_line_comment
              && (opt_ascii_eqb (current_char l) newline_char
                  || match current_char l with None => true | _ => false end)
      then Ret (None, Lexer_advance l)
      else
        match current_char l with
        | None =>
            let ps := Position_copy (pos l) in
            let ps := if linenum ps =? 0 then ps
                      else mkPosition (theindex ps) (linenum ps - 1) (column ps)
                             (filename ps) (filetext ps) in
            Ret (Some (InvalidSyntaxError ps (pos l)
                         (ERRORS "unterminated_ML_comment")), l)
        | Some _ => skip_comment_loop fuel' (Lexer_advance l) multi_line_comment
        end
  end.

Definition skip_comment (fuel : nat) (l : Lexer) : host (option Error * Lexer) :=
  let l := Lexer_advance l in
  skip_comment_loop fuel l (opt_ascii_eqb (current_char l) "*").

Definition single (ty : TokenType) (l : Lexer) (tokens : list Token)
    : list Token * Lexer :=
  (append tokens (Token_new ty NoValue (pos l) None), Lexer_advance l).

(** [Lexer.make_tokens]: the token list, or the first lexical error. *)
Fixpoint make_tokens_loop (fuel : nat) (l : Lexer) (tokens : list Token)
    : host (list Token * option Error) :=
  match fuel with
  | O => OutOfFuel
  | S fuel' =>
      let continue '(tokens, l) := make_tokens_loop fuel' l tokens in
      let token_or_error (r : host ((Token + Error) * Lexer)) :=
        let* (r, l) := r in
        match r with
        | inr error => Ret ([], Some error)
        | inl result => make_tokens_loop fuel' l (append tokens result)
        end in
      match current_char l with
      | None => Ret (append tokens (Token_new TOKEN_TYPE_EOF NoValue (pos l) None), None)
      | Some c =>
          if char_in c (" " ++ str_of_char tab_char) then
            make_tokens_loop fuel' (Lexer_advance l) tokens
          else if Ascii.eqb c "#" then
            let* (error, l) := skip_comment fuel' l in
            match error with
            | Some e => Ret ([], Some e)
            | None => make_tokens_loop fuel' l tokens
            end
          else if char_in c (";" ++ str_of_char newline_char) then
            continue (single TOKEN_TYPE_NEWLINE l tokens)
          else if char_in c DIGITS then token_or_error (make_number fuel' l)
          else if char_in c LETTERS then
            let* (t, l) := make_identifier fuel' l in
            make_tokens_loop fuel' l (append tokens t)
          else if Ascii.eqb c quote_char then token_or_error (make_string fuel' l)
          else if Ascii.eqb c "+" then continue (single TOKEN_TYPE_PLUS l tokens)
          else if Ascii.eqb c "-" then
            let '(t, l) := make_minus_or_arrow l in continue (append tokens t, l)
          else if Ascii.eqb c "*" then continue (single TOKEN_TYPE_MULTIPLY l tokens)
          else if Ascii.eqb c "/" then continue (single TOKEN_TYPE_DIVIDE l tokens)
          else if Ascii.eqb c "%" then continue (single TOKEN_TYPE_MODULUS l tokens)
          else if Ascii.eqb c "^" then continue (single TOKEN_TYPE_POWER l tokens)
          else if Ascii.eqb c "(" then continue (single TOKEN_TYPE_LPAREN l tokens)
          else if Ascii.eqb c ")" then continue (single TOKEN_TYPE_RPAREN l tokens)
          else if Ascii.eqb c "[" then continue (single TOKEN_TYPE_LSQUARE l tokens)
          else if Ascii.eqb c "]" then continue (single TOKEN_TYPE_RSQUARE l tokens)
          else if Ascii.eqb c "!" then token_or_error (Ret (make_not_equals l))
          else if Ascii.eqb c "=" then
            let '(t, l) := make_equals l in continue (append tokens t, l)
          else if Ascii.eqb c "<" then
            let '(t, l) := make_less_than l in continue (append tokens t, l)
          else if Ascii.eqb c ">" then
            let '(t, l) := make_greater_than l in continue (append tokens t, l)
          else if Ascii.eqb c "," then continue (single TOKEN_TYPE_COMMA l tokens)
          else
            let ps := Position_copy (pos l) in
            let l := Lexer_advance l in
            Ret ([], Some (IllegalCharError ps (pos l)
                             ("'" ++ str_of_char c ++ "'")))
      end
  end.

(** Every turn of a lexer loop consumes a character or ends the loop, so
    the length of the text bounds them all. *)
Definition lexer_fuel (l : Lexer) : nat := (String.length (text l) + 2)%nat.

Definition make_tokens (l : Lexer) : host (list Token * option Error) :=
  make_tokens_loop (lexer_fuel l) l [].

(** ** Nodes

    Every node stores the span that its constructor computes from its
    children ([pos_start], [pos_end]); the functions [new_...] are the
    constructors of the classes. *)

Inductive Node : Type :=
  | NumberNode (token : Token) (ps pe : Position)
  | StringNode (token : Token) (ps pe : Position)
  | ListNode (element_nodes : list Node) (ps pe : Position)
  | VarAccessNode (var_name_token : Token) (ps pe : Position)
  | VarAssignNode (var_name_token : Token) (value_node : Node) (ps pe : Position)
  | BinOpNode (left_node : Node) (operator_token : Token) (right_node : Node)
              (ps pe : Position)
  | UnaryOpNode (operator_token : Token) (node : Node) (ps pe : Position)
  | IfNode (cases : list (Node * Node * bool)) (else_case : option (Node * bool))
           (ps pe : Position)
  | ForNode (var_name_token : Token) (start_value_node end_value_node : Node)
            (step_value_node : option Node) (body_node : Node)
            (should_return_none : bool) (ps pe : Position)
  | WhileNode (condition_node body_node : Node) (should_return_none : bool)
              (ps pe : Position)
  | FuncDefNode (var_name_token : option Token) (arg_name_tokens : list Token)
                (body_node : Node) (should_auto_return : bool) (ps pe : Position)
  | CallNode (node_to_call : Node) (arg_nodes : list Node) (ps pe : Position)
  | ReturnNode (node_to_return : option Node) (ps pe : Position)
  | ContinueNode (ps pe : Position)
  | BreakNode (ps pe : Position)
  | ImportNode (string_node : Node) (ps pe : Position).

Definition node_pos_start (n : Node) : Position :=
  match n with
  | NumberNode _ ps _ | StringNode _ ps _ | ListNode _ ps _
  | VarAccessNode _ ps _ | VarAssignNode _ _ ps _ | BinOpNode _ _ _ ps _
  | UnaryOpNode _ _ ps _ | IfNode _ _ ps _ | ForNode _ _ _ _ _ _ ps _
  | WhileNode _ _ _ ps _ | FuncDefNode _ _ _ _ ps _ | CallNode _ _ ps _
  | ReturnNode _ ps _ | ContinueNode ps _ | BreakNode ps _
  | ImportNode _ ps _ => ps
  end.

Definition node_pos_end (n : Node) : Position :=
  match n with
  | NumberNode _ _ pe | StringNode _ _ pe | ListNode _ _ pe
  | VarAccessNode _ _ pe | VarAssignNode _ _ _ pe | BinOpNode _ _ _ _ pe
  | UnaryOpNode _ _ _ pe | IfNode _ _ _ pe | ForNode _ _ _ _ _ _ _ pe
  | WhileNode _ _ _ _ pe | FuncDefNode _ _ _ _ _ pe | CallNode _ _ _ pe
  | ReturnNode _ _ pe | ContinueNode _ pe | BreakNode _ pe
  | ImportNode _ _ pe => pe
  end.

Definition new_NumberNode (token : Token) : Node :=
  NumberNode token (pos_start token) (pos_end token).
Definition new_StringNode (token : Token) : Node :=
  StringNode token (pos_start token) (pos_end token).
Definition new_VarAccessNode (t : Token) : Node :=
  VarAccessNode t (pos_start t) (pos_end t).
Definition new_VarAssignNode (t : Token) (value_node : Node) : Node :=
  VarAssignNode t value_node (pos_start t) (node_pos_end value_node).
Definition new_BinOpNode (l : Node) (op : Token) (r : Node) : Node :=
  BinOpNode l op r (node_pos_start l) (node_pos_end r).
Definition new_UnaryOpNode (op : Token) (n : Node) : Node :=
  UnaryOpNode op n (pos_start op) (node_pos_end n).

(** [IfNode.__init__] reads [cases[0]] and, without an else branch, the last
    case: on an empty list of cases the host raises [IndexError]. *)
Definition new_IfNode (cases : list (Node * Node * bool))
    (else_case : option (Node * bool)) : host Node :=
  match cases with
  | [] => Raise IndexError
  | (c0, _, _) :: _ =>
      let pe := match else_case with
                | Some (e, _) => node_pos_end e
                | None => match List.last cases (c0, c0, false) with
                          | (c, _, _) => node_pos_end c
                          end
                end in
      Ret (IfNode cases else_case (node_pos_start c0) pe)
  end.

Definition new_ForNode (t : Token) (start_value end_value : Node)
    (step_value : option Node) (body : Node) (should_return_none : bool) : Node :=
  ForNode t start_value end_value step_value body should_return_none
    (pos_start t) (node_pos_end body).
Definition new_WhileNode (condition body : Node) (should_return_none : bool) : Node :=
  WhileNode condition body should_return_none
    (node_pos_start condition) (node_pos_end body).
Definition new_FuncDefNode (var_name_token : option Token)
    (arg_name_tokens : list Token) (body : Node) (should_auto_return : bool) : Node :=
  FuncDefNode var_name_token arg_name_tokens body should_auto_return
    (match var_name_token, arg_name_tokens with
     | Some t, _ => pos_start t
     | None, a :: _ => pos_start a
     | None, [] => node_pos_start body
     end)
    (node_pos_end body).
Definition new_CallNode (node_to_call : Node) (arg_nodes : list Node) : Node :=
  CallNode node_to_call arg_nodes (node_pos_start node_to_call)
    (match arg_nodes with
     | [] => node_pos_end node_to_call
     | a :: _ => node_pos_end (List.last arg_nodes a)
     end).

(** ** ParseResult *)

(** What the [node] attribute of a [ParseResult] holds: nothing, a node, the
    pair (cases, else-case) of [if_expr_cases], or the pair (body, flag) of
    an else branch. *)
Inductive Payload : Type :=
  | PNone
  | PNode (n : Node)
  | PCases (cases : list (Node * Node * bool)) (else_case : option (Node * bool))
  | PElseCase (else_case : Node * bool).

Record ParseResult : Type := mkParseResult {
  pr_error : option Error;
  pr_node : Payload;
  last_registered_advance_count : Z;
  advance_count : Z;
  to_reverse_count : Z
}.

Definition ParseResult_new : ParseResult := mkParseResult None PNone 0 0 0.

Definition ParseResult_register_advancement (r : ParseResult) : ParseResult :=
  mkParseResult (pr_error r) (pr_node r) 1 (advance_count r + 1)
    (to_reverse_count r).

Definition ParseResult_register (r res : ParseResult) : ParseResult * Payload :=
  (mkParseResult
     (match pr_error res with Some e => Some e | None => pr_error r end)
     (pr_node r) (advance_count res) (advance_count r + advance_count res)
     (to_reverse_count r),
   pr_node res).

Definition ParseResult_try_register (r res : ParseResult) : ParseResult * Payload :=
  match pr_error res with
  | Some _ =>
      (mkParseResult (pr_error r) (pr_node r) (last_registered_advance_count r)
         (advance_count r) (advance_count res),
       PNone)
  | None => ParseResult_register r res
  end.

Definition ParseResult_success (r : ParseResult) (n : Payload) : ParseResult :=
  mkParseResult (pr_error r) n (last_registered_advance_count r)
    (advance_count r) (to_reverse_count r).

Definition ParseResult_failure (r : ParseResult) (e : Error) : ParseResult :=
  match pr_error r with
  | Some _ =>
      if last_registered_advance_count r =? 0
      then mkParseResult (Some e) (pr_node r) (last_registered_advance_count r)
             (advance_count r) (to_reverse_count r)
      else r
  | None =>
      mkParseResult (Some e) (pr_node r) (last_registered_advance_count r)
        (advance_count r) (to_reverse_count r)
  end.

Definition has_error (r : ParseResult) : bool :=
  match pr_error r with Some _ => true | None => false end.

(** A payload used where the program needs a node; on anything else the
    first attribute access raises [AttributeError]. *)
Definition as_node (x : Payload) : host Node :=
  match x with PNode n => Ret n | _ => Raise AttributeError end.

(** ** Parser *)

Record Parser : Type := mkParser {
  tokens : list Token;
  token_index : Z;
  current_token : Token
}.

Definition Parser_update_current_tok (tokens : list Token) (token_index : Z)
    (current : Token) : Token :=
  if (0 <=? token_index) && (token_index <? Z.of_nat (length tokens))
  then nth (Z.to_nat token_index) tokens current
  else current.

Definition Parser_advance (p : Parser) : Parser :=
  let i := token_index p + 1 in
  mkParser (tokens p) i (Parser_update_current_tok (tokens p) i (current_token p)).

Definition Parser_reverse (p : Parser) (amount : Z) : Parser :=
  let i := token_index p - amount in
  mkParser (tokens p) i (Parser_update_current_tok (tokens p) i (current_token p)).

(** [Parser(tokens)]: the lexer never hands over an empty list (its output
    ends with the EOF token); on one, no current token is ever set. *)
Definition Parser_new (tokens : list Token) : option Parser :=
  match tokens with
  | [] => None
  | t :: _ => Some (mkParser tokens 0 t)
  end.

Definition current_type (p : Parser) : TokenType := type (current_token p).
Definition current_is (p : Parser) (ty : TokenType) : bool :=
  TokenType_eqb (current_type p) ty.
Definition current_matches (p : Parser) (ty : TokenType) (v : string) : bool :=
  matches (current_token p) ty v.

(** [result.register_advancement(); self.advance()] *)
Definition step (r : ParseResult) (p : Parser) : ParseResult * Parser :=
  (ParseResult_register_advancement r, Parser_advance p).

(** [InvalidSyntaxError] spanning the current token. *)
Definition error_here (p : Parser) (d : string) : Error :=
  InvalidSyntaxError (pos_start (current_token p)) (pos_end (current_token p)) d.

(** [result.failure(InvalidSyntaxError(current token, ERRORS[key]))] *)
Definition fail_here (r : ParseResult) (p : Parser) (key : string) : ParseResult :=
  ParseResult_failure r (error_here p (ERRORS key)).

Definition parse_method : Type :=
  bool -> bool -> Parser -> host (ParseResult * Parser).

(** The methods through which the descent recurses, as [self] offers them
    to a method body, and the number of turns left to a loop. *)
Record ParserSelf : Type := mkParserSelf {
  budget : nat;
  self_statements : parse_method;
  self_statement : parse_method;
  self_expr : parse_method;
  self_comp_expr : parse_method;
  self_factor : parse_method;
  self_if_expr_cases : string -> parse_method
}.

(** Operators accepted by [bin_op]: a token type, or a (type, value) pair. *)
Inductive OpSpec : Type :=
  | OpType (ty : TokenType)
  | OpPair (ty : TokenType) (v : string).

Definition token_in_ops (t : Token) (ops : list OpSpec) : bool :=
  existsb (fun o => match o with
                    | OpType ty => TokenType_eqb (type t) ty
                    | OpPair ty v => matches t ty v
                    end) ops.

Fixpoint bin_op_loop (fuel : nat) (in_a_function in_a_loop : bool)
    (ops : list OpSpec) (func_b : parse_method)
    (result : ParseResult) (left_ : Node) (p : Parser)
    : host (ParseResult * Parser) :=
  match fuel with
  | O => OutOfFuel
  | S fuel' =>
      if token_in_ops (current_token p) ops then
        let operator_token := current_token p in
        let '(result, p) := step result p in
        let* (res, p) := func_b in_a_function in_a_loop p in
        let '(result, right_) := ParseResult_register result res in
        if has_error result then Ret (result, p)
        else
          let* right_ := as_node right_ in
          bin_op_loop fuel' in_a_function in_a_loop ops func_b result
            (new_BinOpNode left_ operator_token right_) p
      else Ret (ParseResult_success result (PNode left_), p)
  end.

Definition bin_op (fuel : nat) (in_a_function in_a_loop : bool)
    (func_a : parse_method) (ops : list OpSpec) (func_b : option parse_method)
    (p : Parser) : host (ParseResult * Parser) :=
  let func_b := match func_b with Some f => f | None => func_a end in
  let result := ParseResult_new in
  let* (res, p) := func_a in_a_function in_a_loop p in
  let '(result, left_) := ParseResult_register result res in
  if has_error result then Ret (result, p)
  else
    let* left_ := as_node left_ in
    bin_op_loop fuel in_a_function in_a_loop ops func_b result left_ p.

(** Payloads where the program unpacks a pair or stores an optional node. *)
Definition as_cases (x : Payload)
    : host (list (Node * Node * bool) * option (Node * bool)) :=
  match x with PCases cs e => Ret (cs, e) | _ => Raise TypeError end.

Definition as_else_case (x : Payload) : host (option (Node * bool)) :=
  match x with
  | PNone => Ret None
  | PElseCase e => Ret (Some e)
  | _ => Raise TypeError
  end.

Definition as_opt_node (x : Payload) : host (option Node) :=
  match x with
  | PNone => Ret None
  | PNode n => Ret (Some n)
  | _ => Raise AttributeError
  end.

Definition else_payload (e : option (Node * bool)) : Payload :=
  match e with Some x => PElseCase x | None => PNone end.

(** Truth value of a payload ([None] is false; a node or a pair is true). *)
Definition payload_truthy (x : Payload) : bool :=
  match x with PNone => false | _ => true end.

(** [while self.current_token.type == TOKEN_TYPE_NEWLINE: ...]: the number
    of separators passed. *)
Fixpoint skip_newlines (fuel : nat) (result : ParseResult) (p : Parser)
    (newline_count : Z) : host (Z * ParseResult * Parser) :=
  match fuel with
  | O => OutOfFuel
  | S fuel' =>
      if current_is p TOKEN_TYPE_NEWLINE then
        let '(result, p) := step result p in
        skip_newlines fuel' result p (newline_count + 1)
      else Ret (newline_count, result, p)
  end.

(** The tail of an argument or element list: [, expr]* *)
Fixpoint comma_exprs (fuel : nat) (self : ParserSelf)
    (in_a_function in_a_loop : bool) (result : ParseResult)
    (nodes : list Node) (p : Parser)
    : host (ParseResult * list Node * Parser) :=
  match fuel with
  | O => OutOfFuel
  | S fuel' =>
      if current_is p TOKEN_TYPE_COMMA then
        let '(result, p) := step result p in
        let* (res, p) := self_expr self in_a_function in_a_loop p in
        let '(result, x) := ParseResult_register result res in
        if has_error result then Ret (result, nodes, p)
        else
          let* n := as_node x in
          comma_exprs fuel' self in_a_function in_a_loop result (append nodes n) p
      else Ret (result, nodes, p)
  end.

Definition list_expr (self : ParserSelf) : parse_method :=
  fun in_a_function in_a_loop p =>
  let result := ParseResult_new in
  let ps := Position_copy (pos_start (current_token p)) in
  if negb (current_is p TOKEN_TYPE_LSQUARE)
  then Ret (fail_here result p "lbracket_expected", p)
  else
    let '(result, p) := step result p in
    if current_is p TOKEN_TYPE_RSQUARE then
      let '(result, p) := step result p in
      Ret (ParseResult_success result
             (PNode (ListNode [] ps (Position_copy (pos_end (current_token p))))), p)
    else
      let* (res, p) := self_expr self in_a_function in_a_loop p in
      let '(result, expression) := ParseResult_register result res in
      if has_error result
      then Ret (fail_here result p "list_element_expected", p)
      else
        let* n := as_node expression in
        let* (result, element_nodes, p) :=
          comma_exprs (budget self) self in_a_function in_a_loop result [n] p in
        if has_error result then Ret (result, p)
        else if negb (current_is p TOKEN_TYPE_RSQUARE)
        then Ret (fail_here result p "comma_rbracket_expected", p)
        else
          let '(result, p) := step result p in
          Ret (ParseResult_success result
                 (PNode (ListNode element_nodes ps
                           (Position_copy (pos_end (current_token p))))), p).

(** [parse_multiline_else] returns either the bare result (when the
    statements fail) or a pair (else-case, error). *)
Inductive MultilineElse : Type :=
  | ElseBare (result : ParseResult)
  | ElsePair (else_case : option (Node * bool)) (error : option ParseResult).

Definition parse_multiline_else (self : ParserSelf)
    (in_a_function in_a_loop : bool) (result : ParseResult) (p : Parser)
    : host (MultilineElse * ParseResult * Parser) :=
  let '(result, p) := step result p in
  let* (res, p) := self_statements self in_a_function in_a_loop p in
  let '(result, statements) := ParseResult_register result res in
  if has_error result then Ret (ElseBare result, result, p)
  else
    let* body := as_node statements in
    if current_matches p TOKEN_TYPE_KEYWORD "END" then
      let '(result, p) := step result p in
      Ret (ElsePair (Some (body, true)) None, result, p)
    else
      let result := fail_here result p "end_expected" in
      Ret (ElsePair None (Some result), result, p).

Definition if_expr_c (self : ParserSelf) : parse_method :=
  fun in_a_function in_a_loop p =>
  let result := ParseResult_new in
  if current_matches p TOKEN_TYPE_KEYWORD "ELSE" then
    let '(result, p) := step result p in
    if current_is p TOKEN_TYPE_NEWLINE then
      let* (r, result, p) :=
        parse_multiline_else self in_a_function in_a_loop result p in
      match r with
      | ElseBare _ => (* a result object cannot be unpacked *) Raise TypeError
      | ElsePair _ (Some error) => Ret (error, p)
      | ElsePair else_case None =>
          Ret (ParseResult_success result (else_payload else_case), p)
      end
    else
      let* (res, p) := self_statement self in_a_function in_a_loop p in
      let '(result, expr) := ParseResult_register result res in
      if has_error result then Ret (result, p)
      else
        let* n := as_node expr in
        Ret (ParseResult_success result (PElseCase (n, false)), p)
  else Ret (ParseResult_success result PNone, p).

Definition if_expr_b (self : ParserSelf) : parse_method :=
  self_if_expr_cases self "ELIF".

Definition if_expr_b_or_c (self : ParserSelf) : parse_method :=
  fun in_a_function in_a_loop p =>
  let result := ParseResult_new in
  if current_matches p TOKEN_TYPE_KEYWORD "ELIF" then
    let* (res, p) := if_expr_b self in_a_function in_a_loop p in
    let '(result, all_cases) := ParseResult_register result res in
    if has_error result then Ret (result, p)
    else
      let* (cases, else_case) := as_cases all_cases in
      Ret (ParseResult_success result (PCases cases else_case), p)
  else
    let* (res, p) := if_expr_c self in_a_function in_a_loop p in
    let '(result, x) := ParseResult_register result res in
    if has_error result then Ret (result, p)
    else
      let* else_case := as_else_case x in
      Ret (ParseResult_success result (PCases [] else_case), p).

(** [parse_multiline_then] returns (cases, else-case, error). *)
Definition parse_multiline_then (self : ParserSelf)
    (in_a_function in_a_loop : bool) (condition : Node)
    (result : ParseResult) (p : Parser)
    : host (list (Node * Node * bool) * option (Node * bool)
            * option ParseResult * ParseResult * Parser) :=
  let '(result, p) := step result p in
  let* (res, p) := self_statements self in_a_function in_a_loop p in
  let '(result, statements) := ParseResult_register result res in
  if has_error result then Ret ([], None, Some result, result, p)
  else
    let* body := as_node statements in
    let cases := [(condition, body, true)] in
    if current_matches p TOKEN_TYPE_KEYWORD "END" then
      let '(result, p) := step result p in
      Ret (cases, None, None, result, p)
    else
      let* (res, p) := if_expr_b_or_c self in_a_function in_a_loop p in
      let '(result, all_cases) := ParseResult_register result res in
      if has_error result then Ret ([], None, Some result, result, p)
      else
        let* (new_cases, else_case) := as_cases all_cases in
        Ret (app cases new_cases, else_case, None, result, p).

Definition if_expr_cases_body (self : ParserSelf) (case_keyword : string)
    : parse_method :=
  fun in_a_function in_a_loop p =>
  let result := ParseResult_new in
  if negb (current_matches p TOKEN_TYPE_KEYWORD case_keyword)
  then Ret (ParseResult_failure result
              (error_here p ("Expected '" ++ case_keyword ++ "'")), p)
  else
    let '(result, p) := step result p in
    let* (res, p) := self_expr self in_a_function in_a_loop p in
    let '(result, condition) := ParseResult_register result res in
    if has_error result then Ret (result, p)
    else if negb (current_matches p TOKEN_TYPE_KEYWORD "THEN")
    then Ret (fail_here result p "then_expected", p)
    else
      let* condition := as_node condition in
      let '(result, p) := step result p in
      if current_is p TOKEN_TYPE_NEWLINE then
        let* (cases, else_case, error, result, p) :=
          parse_multiline_then self in_a_function in_a_loop condition result p in
        match error with
        | Some e => Ret (e, p)
        | None => Ret (ParseResult_success result (PCases cases else_case), p)
        end
      else
        let* (res, p) := self_statement self in_a_function in_a_loop p in
        let '(result, expr) := ParseResult_register result res in
        if has_error result then Ret (result, p)
        else
          let* expr := as_node expr in
          let cases := [(condition, expr, false)] in
          let* (res, p) := if_expr_b_or_c self in_a_function in_a_loop p in
          let '(result, all_cases) := ParseResult_register result res in
          if has_error result then Ret (result, p)
          else
            let* (new_cases, else_case) := as_cases all_cases in
            Ret (ParseResult_success result
                   (PCases (app cases new_cases) else_case), p).

Definition if_expr (self : ParserSelf) : parse_method :=
  fun in_a_function in_a_loop p =>
  let result := ParseResult_new in
  let* (res, p) := self_if_expr_cases self "IF" in_a_function in_a_loop p in
  let '(result, all_cases) := ParseResult_register result res in
  if has_error result then Ret (result, p)
  else
    let* (cases, else_case) := as_cases all_cases in
    let* n := new_IfNode cases else_case in
    Ret (ParseResult_success result (PNode n), p).

(** The body of a loop or of a branch after [THEN]: one statement on the
    same line, or a NEWLINE, statements and [END]. The flag tells whether the
    multi-line form was taken. *)
Definition loop_body (self : ParserSelf) (in_a_function in_a_loop : bool)
    (result : ParseResult) (p : Parser)
    : host (ParseResult * option (Node * bool) * Parser) :=
  if negb (current_is p TOKEN_TYPE_NEWLINE) then
    let* (res, p) := self_statement self in_a_function in_a_loop p in
    let '(result, body) := ParseResult_register result res in
    if has_error result then Ret (result, None, p)
    else
      let* body := as_node body in
      Ret (result, Some (body, false), p)
  else
    let '(result, p) := step result p in
    let* (res, p) := self_statements self in_a_function in_a_loop p in
    let '(result, body) := ParseResult_register result res in
    if has_error result then Ret (result, None, p)
    else if negb (current_matches p TOKEN_TYPE_KEYWORD "END")
    then Ret (fail_here result p "end_expected", None, p)
    else
      let* body := as_node body in
      let '(result, p) := step result p in
      Ret (result, Some (body, true), p).

Definition for_expr (self : ParserSelf) : parse_method :=
  fun in_a_function in_a_loop p =>
  let result := ParseResult_new in
  if negb (current_matches p TOKEN_TYPE_KEYWORD "FOR")
  then Ret (fail_here result p "for_expected", p)
  else
    let '(result, p) := step result p in
    if negb (current_is p TOKEN_TYPE_IDENTIFIER)
    then Ret (fail_here result p "identifier_expected", p)
    else
      let var_name := current_token p in
      let '(result, p) := step result p in
      if negb (current_is p TOKEN_TYPE_ASSIGN)
      then Ret (fail_here result p "equal_expected", p)
      else
        let '(result, p) := step result p in
        let* (res, p) := self_expr self in_a_function in_a_loop p in
        let '(result, start_value) := ParseResult_register result res in
        if has_error result then Ret (result, p)
        else if negb (current_matches p TOKEN_TYPE_KEYWORD "TO")
        then Ret (fail_here result p "to_expected", p)
        else
          let* start_value := as_node start_value in
          let '(result, p) := step result p in
          let* (res, p) := self_expr self in_a_function in_a_loop p in
          let '(result, end_value) := ParseResult_register result res in
          if has_error result then Ret (result, p)
          else
            let* end_value := as_node end_value in
            let* (result, step_value, p) :=
              if current_matches p TOKEN_TYPE_KEYWORD "STEP" then
                let '(result, p) := step result p in
                let* (res, p) := self_expr self in_a_function in_a_loop p in
                let '(result, step_value) := ParseResult_register result res in
                if has_error result then Ret (result, None, p)
                else
                  let* n := as_node step_value in
                  Ret (result, Some n, p)
              else Ret (result, None, p) in
            if has_error result then Ret (result, p)
            else if negb (current_matches p TOKEN_TYPE_KEYWORD "THEN")
            then Ret (fail_here result p "then_expected", p)
            else
              let '(result, p) := step result p in
              let* (result, body, p) :=
                loop_body self in_a_function in_a_loop result p in
              match body with
              | None => Ret (result, p)
              | Some (body, should_return_none) =>
                  Ret (ParseResult_success result
                         (PNode (new_ForNode var_name start_value end_value
                                   step_value body should_return_none)), p)
              end.

Definition while_expr (self : ParserSelf) : parse_method :=
  fun in_a_function in_a_loop p =>
  let result := ParseResult_new in
  if negb (current_matches p TOKEN_TYPE_KEYWORD "WHILE")
  then Ret (fail_here result p "while_expected", p)
  else
    let '(result, p) := step result p in
    let* (res, p) := self_expr self in_a_function in_a_loop p in
    let '(result, condition) := ParseResult_register result res in
    if has_error result then Ret (result, p)
    else if negb (current_matches p TOKEN_TYPE_KEYWORD "THEN")
    then Ret (fail_here result p "then_expected", p)
    else
      let* condition := as_node condition in
      let '(result, p) := step result p in
      let* (result, body, p) :=
        loop_body self in_a_function in_a_loop result p in
      match body with
      | None => Ret (result, p)
      | Some (body, should_return_none) =>
          Ret (ParseResult_success result
                 (PNode (new_WhileNode condition body should_return_none)), p)
      end.

(** *** Function definitions *)

Definition TokenValue_eqb (a b : TokenValue) : bool :=
  match a, b with
  | NoValue, NoValue => true
  | StrValue x, StrValue y => String.eqb x y
  | NumValue x, NumValue y => num_eq x y
  | _, _ => false
  end.

(** The text of a token value inside a message. Only names (texts) reach
    the messages of the parser; an integer is written in decimal. *)
Definition TokenValue_str (v : TokenValue) : string :=
  match v with
  | StrValue s => s
  | NoValue => "None"
  | NumValue (PInt z) => pretty z
  | NumValue (PFloat _) => "<float>"
  end.

(** The four-tuple (parsed_arrow, result, param_name_tokens, error) that the
    parameter parsers return. *)
Definition ArrowTuple : Type :=
  (option ParseResult * option ParseResult * list Token * option ParseResult)%type.

Definition duplicate_function_name (function_name : TokenValue)
    (names_list : list TokenValue) (result : ParseResult) (p : Parser)
    : option ArrowTuple :=
  if existsb (TokenValue_eqb function_name) names_list then
    let error :=
      ParseResult_failure result
        (error_here p
           ("Duplicate parameter '" ++ TokenValue_str function_name ++ "'. "
            ++ "A parameter cannot share the same name as the function name")) in
    Some (None, None, [], Some error)
  else None.

Definition checkfor_parse_arrow (self : ParserSelf) (result : ParseResult)
    (var_name_token : option Token) (param_name_tokens : list Token)
    (p : Parser) : host (ArrowTuple * Parser) :=
  let '(result, p) := step result p in
  if negb (current_is p TOKEN_TYPE_ARROW)
  then Ret ((None, Some result, param_name_tokens, None), p)
  else
    let '(result, p) := step result p in
    let* (res, p) := self_expr self true false p in
    let '(result, body) := ParseResult_register result res in
    if has_error result then Ret ((None, None, [], Some result), p)
    else
      let* body := as_node body in
      let parsed_arrow :=
        ParseResult_success result
          (PNode (new_FuncDefNode var_name_token param_name_tokens body true)) in
      Ret ((Some parsed_arrow, Some parsed_arrow, param_name_tokens, None), p).

Fixpoint more_params (fuel : nat) (function_name : TokenValue)
    (result : ParseResult) (param_name_tokens : list Token)
    (names_list : list TokenValue) (p : Parser)
    : host ((ArrowTuple + (ParseResult * list Token)) * Parser) :=
  match fuel with
  | O => OutOfFuel
  | S fuel' =>
      if current_is p TOKEN_TYPE_COMMA then
        let '(result, p) := step result p in
        if negb (current_is p TOKEN_TYPE_IDENTIFIER) then
          let error := fail_here result p "identifier_expected" in
          Ret (inl (None, None, [], Some error), p)
        else if existsb (TokenValue_eqb (value (current_token p))) names_list then
          let error :=
            ParseResult_failure result
              (error_here p
                 ("Duplicate parameter '"
                  ++ TokenValue_str (value (current_token p))
                  ++ "' in function definition")) in
          Ret (inl (None, None, [], Some error), p)
        else
          let param_name_tokens := append param_name_tokens (current_token p) in
          let names_list := append names_list (value (current_token p)) in
          match duplicate_function_name function_name names_list result p with
          | Some error => Ret (inl error, p)
          | None =>
              let '(result, p) := step result p in
              more_params fuel' function_name result param_name_tokens names_list p
          end
      else Ret (inr (result, param_name_tokens), p)
  end.

Definition parse_params_and_arrow (self : ParserSelf) (result : ParseResult)
    (var_name_token : option Token) (param_name_tokens : list Token)
    (p : Parser) : host (ArrowTuple * Parser) :=
  if current_is p TOKEN_TYPE_RPAREN
  then checkfor_parse_arrow self result var_name_token param_name_tokens p
  else
    match var_name_token with
    | None => (* [var_name_token.value] on [None] *) Raise AttributeError
    | Some name_token =>
        let function_name := value name_token in
        let param_name_tokens := append param_name_tokens (current_token p) in
        let names_list := [value (current_token p)] in
        match duplicate_function_name function_name names_list result p with
        | Some error => Ret (error, p)
        | None =>
            let '(result, p) := step result p in
            let* (r, p) := more_params (budget self) function_name result
                             param_name_tokens names_list p in
            match r with
            | inl error => Ret (error, p)
            | inr (result, param_name_tokens) =>
                if negb (current_is p TOKEN_TYPE_RPAREN) then
                  let error := fail_here result p "comma_rparen_expected" in
                  Ret ((None, None, [], Some error), p)
                else checkfor_parse_arrow self result var_name_token
                       param_name_tokens p
            end
        end
    end.

Definition func_def (self : ParserSelf) : parse_method :=
  fun in_a_function in_a_loop p =>
  let result := ParseResult_new in
  if negb (current_matches p TOKEN_TYPE_KEYWORD "FUN")
  then Ret (fail_here result p "fun_expected", p)
  else
    let '(result, p) := step result p in
    let named := current_is p TOKEN_TYPE_IDENTIFIER in
    let var_name_token := if named then Some (current_token p) else None in
    let '(result, p) := if named then step result p else (result, p) in
    if negb (current_is p TOKEN_TYPE_LPAREN)
    then Ret (fail_here result p
                (if named then "lparen_expected" else "identifier_lparen_expected"), p)
    else
      let '(result, p) := step result p in
      if negb (current_is p TOKEN_TYPE_IDENTIFIER)
         && negb (current_is p TOKEN_TYPE_RPAREN)
      then Ret (fail_here result p "identifier_rparen_expected", p)
      else
        let* (tuple, p) := parse_params_and_arrow self result var_name_token [] p in
        match tuple with
        | (_, _, _, Some error) => Ret (error, p)
        | (Some parsed_arrow, _, _, None) => Ret (parsed_arrow, p)
        | (None, None, _, None) => (* no such tuple is built *) Raise AttributeError
        | (None, Some result, param_name_tokens, None) =>
            if negb (current_is p TOKEN_TYPE_NEWLINE)
            then Ret (fail_here result p "arrow_NL_expected", p)
            else
              let '(result, p) := step result p in
              let* (res, p) := self_statements self true false p in
              let '(result, body) := ParseResult_register result res in
              if has_error result then Ret (result, p)
              else if negb (current_matches p TOKEN_TYPE_KEYWORD "END")
              then Ret (fail_here result p "end_expected", p)
              else
                let* body := as_node body in
                let '(result, p) := step result p in
                Ret (ParseResult_success result
                       (PNode (new_FuncDefNode var_name_token param_name_tokens
                                 body false)), p)
        end.

(** *** Expressions *)

(** [result.register(sub); if result.error: return result;
     return result.success(node)] *)
Definition delegate (sub : parse_method) : parse_method :=
  fun in_a_function in_a_loop p =>
  let result := ParseResult_new in
  let* (res, p) := sub in_a_function in_a_loop p in
  let '(result, x) := ParseResult_register result res in
  if has_error result then Ret (result, p)
  else Ret (ParseResult_success result x, p).

Definition atom (self : ParserSelf) : parse_method :=
  fun in_a_function in_a_loop p =>
  let result := ParseResult_new in
  let token := current_token p in
  if TokenType_eqb (type token) TOKEN_TYPE_INT
     || TokenType_eqb (type token) TOKEN_TYPE_FLOAT then
    let '(result, p) := step result p in
    Ret (ParseResult_success result (PNode (new_NumberNode token)), p)
  else if TokenType_eqb (type token) TOKEN_TYPE_STRING then
    let '(result, p) := step result p in
    Ret (ParseResult_success result (PNode (new_StringNode token)), p)
  else if TokenType_eqb (type token) TOKEN_TYPE_IDENTIFIER then
    let '(result, p) := step result p in
    Ret (ParseResult_success result (PNode (new_VarAccessNode token)), p)
  else if TokenType_eqb (type token) TOKEN_TYPE_LPAREN then
    let '(result, p) := step result p in
    let* (res, p) := self_expr self in_a_function in_a_loop p in
    let '(result, expr) := ParseResult_register result res in
    if has_error result then Ret (result, p)
    else if current_is p TOKEN_TYPE_RPAREN then
      let '(result, p) := step result p in
      Ret (ParseResult_success result expr, p)
    else Ret (fail_here result p "rparen_expected", p)
  else if TokenType_eqb (type token) TOKEN_TYPE_LSQUARE then
    delegate (list_expr self) in_a_function in_a_loop p
  else if matches token TOKEN_TYPE_KEYWORD "IF" then
    delegate (if_expr self) in_a_function in_a_loop p
  else if matches token TOKEN_TYPE_KEYWORD "FOR" then
    delegate (for_expr self) in_a_function true p
  else if matches token TOKEN_TYPE_KEYWORD "WHILE" then
    delegate (while_expr self) in_a_function true p
  else if matches token TOKEN_TYPE_KEYWORD "FUN" then
    delegate (func_def self) true in_a_loop p
  else
    Ret (ParseResult_failure result
           (InvalidSyntaxError (pos_start token) (pos_end token)
              (ERRORS "atom_syntax_error")), p).

Definition call (self : ParserSelf) : parse_method :=
  fun in_a_function in_a_loop p =>
  let result := ParseResult_new in
  let* (res, p) := atom self in_a_function in_a_loop p in
  let '(result, x) := ParseResult_register result res in
  if has_error result then Ret (result, p)
  else if negb (current_is p TOKEN_TYPE_LPAREN)
  then Ret (ParseResult_success result x, p)
  else
    let* callee := as_node x in
    let '(result, p) := step result p in
    if current_is p TOKEN_TYPE_RPAREN then
      let '(result, p) := step result p in
      Ret (ParseResult_success result (PNode (new_CallNode callee [])), p)
    else
      let* (res, p) := self_expr self in_a_function in_a_loop p in
      let '(result, the_arg) := ParseResult_register result res in
      if has_error result then Ret (fail_here result p "arg1_syntax_error", p)
      else
        let* n := as_node the_arg in
        let* (result, arg_nodes, p) :=
          comma_exprs (budget self) self in_a_function in_a_loop result [n] p in
        if has_error result then Ret (result, p)
        else if negb (current_is p TOKEN_TYPE_RPAREN)
        then Ret (fail_here result p "comma_rparen_expected", p)
        else
          let '(result, p) := step result p in
          Ret (ParseResult_success result (PNode (new_CallNode callee arg_nodes)), p).

Definition power (self : ParserSelf) : parse_method :=
  fun in_a_function in_a_loop =>
  bin_op (budget self) in_a_function in_a_loop (call self)
    [OpType TOKEN_TYPE_POWER] (Some (self_factor self)).

Definition factor_body (self : ParserSelf) : parse_method :=
  fun in_a_function in_a_loop p =>
  let result := ParseResult_new in
  let token := current_token p in
  if TokenType_eqb (type token) TOKEN_TYPE_PLUS
     || TokenType_eqb (type token) TOKEN_TYPE_MINUS then
    let '(result, p) := step result p in
    let* (res, p) := self_factor self in_a_function in_a_loop p in
    let '(result, factor) := ParseResult_register result res in
    if has_error result then Ret (result, p)
    else
      let* n := as_node factor in
      Ret (ParseResult_success result (PNode (new_UnaryOpNode token n)), p)
  else power self in_a_function in_a_loop p.

Definition term (self : ParserSelf) : parse_method :=
  fun in_a_function in_a_loop =>
  bin_op (budget self) in_a_function in_a_loop (self_factor self)
    [OpType TOKEN_TYPE_MULTIPLY; OpType TOKEN_TYPE_DIVIDE; OpType TOKEN_TYPE_MODULUS]
    None.

Definition arith_expr (self : ParserSelf) : parse_method :=
  fun in_a_function in_a_loop =>
  bin_op (budget self) in_a_function in_a_loop (term self)
    [OpType TOKEN_TYPE_PLUS; OpType TOKEN_TYPE_MINUS] None.

Definition comp_expr_body (self : ParserSelf) : parse_method :=
  fun in_a_function in_a_loop p =>
  let result := ParseResult_new in
  if current_matches p TOKEN_TYPE_KEYWORD "NOT" then
    let operator_token := current_token p in
    let '(result, p) := step result p in
    let* (res, p) := self_comp_expr self in_a_function in_a_loop p in
    let '(result, x) := ParseResult_register result res in
    if has_error result then Ret (result, p)
    else
      let* n := as_node x in
      Ret (ParseResult_success result (PNode (new_UnaryOpNode operator_token n)), p)
  else
    let* (res, p) :=
      bin_op (budget self) in_a_function in_a_loop (arith_expr self)
        (map OpType COMPARISONS_TOKEN) None p in
    let '(result, x) := ParseResult_register result res in
    if has_error result then Ret (fail_here result p "comp_syntax_error", p)
    else Ret (ParseResult_success result x, p).

Definition parse_variable_assignment (self : ParserSelf)
    (in_a_function in_a_loop : bool) (result : ParseResult) (p : Parser)
    : host (ParseResult * Parser) :=
  let '(result, p) := step result p in
  if negb (current_is p TOKEN_TYPE_IDENTIFIER)
  then Ret (fail_here result p "identifier_expected", p)
  else
    let var_name := current_token p in
    let '(result, p) := step result p in
    if negb (current_is p TOKEN_TYPE_ASSIGN)
    then Ret (fail_here result p "equal_expected", p)
    else
      let '(result, p) := step result p in
      let* (res, p) := self_expr self in_a_function in_a_loop p in
      let '(result, x) := ParseResult_register result res in
      if has_error result then Ret (result, p)
      else
        let* n := as_node x in
        Ret (ParseResult_success result (PNode (new_VarAssignNode var_name n)), p).

Definition expr_body (self : ParserSelf) : parse_method :=
  fun in_a_function in_a_loop p =>
  let result := ParseResult_new in
  if current_matches p TOKEN_TYPE_KEYWORD "VAR"
  then parse_variable_assignment self in_a_function in_a_loop result p
  else
    let* (res, p) :=
      bin_op (budget self) in_a_function in_a_loop (self_comp_expr self)
        [OpPair TOKEN_TYPE_KEYWORD "AND"; OpPair TOKEN_TYPE_KEYWORD "OR"] None p in
    let '(result, x) := ParseResult_register result res in
    if has_error result then Ret (fail_here result p "expr_syntax_error", p)
    else Ret (ParseResult_success result x, p).

(** *** Statements *)

Definition parse_return (self : ParserSelf) (in_a_function in_a_loop : bool)
    (result : ParseResult) (ps : Position) (p : Parser)
    : host (ParseResult * Parser) :=
  let '(result, p) := step result p in
  if negb in_a_function then Ret (fail_here result p "bad_return", p)
  else
    let* (res, p) := self_expr self in_a_function in_a_loop p in
    let '(result, expression) := ParseResult_try_register result res in
    let p := if payload_truthy expression then p
             else Parser_reverse p (to_reverse_count result) in
    let* expression := as_opt_node expression in
    Ret (ParseResult_success result
           (PNode (ReturnNode expression ps
                     (Position_copy (pos_start (current_token p))))), p).

Definition parse_continue (in_a_loop : bool) (result : ParseResult)
    (ps : Position) (p : Parser) : host (ParseResult * Parser) :=
  let '(result, p) := step result p in
  if negb in_a_loop then Ret (fail_here result p "bad_continue", p)
  else Ret (ParseResult_success result
              (PNode (ContinueNode ps (Position_copy (pos_start (current_token p))))), p).

Definition parse_break (in_a_loop : bool) (result : ParseResult)
    (ps : Position) (p : Parser) : host (ParseResult * Parser) :=
  let '(result, p) := step result p in
  if negb in_a_loop then Ret (fail_here result p "bad_break", p)
  else Ret (ParseResult_success result
              (PNode (BreakNode ps (Position_copy (pos_start (current_token p))))), p).

Definition parse_import (self : ParserSelf) (in_a_function in_a_loop : bool)
    (result : ParseResult) (ps : Position) (p : Parser)
    : host (ParseResult * Parser) :=
  let '(result, p) := step result p in
  if negb (current_is p TOKEN_TYPE_STRING)
  then Ret (fail_here result p "string_expected", p)
  else
    let* (res, p) := atom self in_a_function in_a_loop p in
    let '(result, x) := ParseResult_register result res in
    let* n := as_node x in
    Ret (ParseResult_success result
           (PNode (ImportNode n ps (Position_copy (pos_start (current_token p))))), p).

Definition statement_body (self : ParserSelf) : parse_method :=
  fun in_a_function in_a_loop p =>
  let result := ParseResult_new in
  let ps := Position_copy (pos_start (current_token p)) in
  if current_matches p TOKEN_TYPE_KEYWORD "RETURN"
  then parse_return self in_a_function in_a_loop result ps p
  else if current_matches p TOKEN_TYPE_KEYWORD "CONTINUE"
  then parse_continue in_a_loop result ps p
  else if current_matches p TOKEN_TYPE_KEYWORD "BREAK"
  then parse_break in_a_loop result ps p
  else if current_matches p TOKEN_TYPE_KEYWORD "IMPORT"
  then parse_import self in_a_function in_a_loop result ps p
  else
    let* (res, p) := self_expr self in_a_function in_a_loop p in
    let '(result, expression) := ParseResult_register result res in
    if has_error result then Ret (fail_here result p "statement_syntax_error", p)
    else Ret (ParseResult_success result expression, p).

(** [parse_any_additional_statements]: after each run of separators one
    more statement is tried through [try_register]; when the attempt yields
    no statement the cursor goes back by [to_reverse_count] and the loop is
    left at its next turn. The statement parser is the argument [stmt]. *)
Fixpoint parse_any_additional_statements (fuel : nat) (stmt : parse_method)
    (in_a_function in_a_loop : bool) (more_statements : bool)
    (statements : list Node) (result : ParseResult) (p : Parser)
    : host (list Node * ParseResult * Parser) :=
  match fuel with
  | O => OutOfFuel
  | S fuel' =>
      let* (newline_count, result, p) := skip_newlines fuel' result p 0 in
      let more_statements :=
        if newline_count =? 0 then false else more_statements in
      if negb more_statements then Ret (statements, result, p)
      else
        let* (res, p) := stmt in_a_function in_a_loop p in
        let '(result, statement) := ParseResult_try_register result res in
        if negb (payload_truthy statement) then
          let p := Parser_reverse p (to_reverse_count result) in
          parse_any_additional_statements fuel' stmt in_a_function in_a_loop
            false statements result p
        else
          let* n := as_node statement in
          parse_any_additional_statements fuel' stmt in_a_function in_a_loop
            more_statements (append statements n) result p
  end.

Definition statements_body (self : ParserSelf) : parse_method :=
  fun in_a_function in_a_loop p =>
  let result := ParseResult_new in
  let ps := Position_copy (pos_start (current_token p)) in
  let* (_, result, p) := skip_newlines (budget self) result p 0 in
  let* (res, p) := self_statement self in_a_function in_a_loop p in
  let '(result, statement) := ParseResult_register result res in
  if has_error result then Ret (result, p)
  else
    let* n := as_node statement in
    let* (statements, result, p) :=
      parse_any_additional_statements (budget self) (self_statement self)
        in_a_function in_a_loop true [n] result p in
    Ret (ParseResult_success result
           (PNode (ListNode statements ps
                     (Position_copy (pos_end (current_token p))))), p).

(** *** The recursive descent, by fuel *)

Definition no_fuel : parse_method := fun _ _ _ => OutOfFuel.

Fixpoint parser_self (fuel : nat) : ParserSelf :=
  match fuel with
  | O => mkParserSelf O no_fuel no_fuel no_fuel no_fuel no_fuel (fun _ => no_fuel)
  | S fuel' =>
      let self := parser_self fuel' in
      mkParserSelf fuel'
        (statements_body self) (statement_body self) (expr_body self)
        (comp_expr_body self) (factor_body self) (if_expr_cases_body self)
  end.

Definition statements (fuel : nat) : parse_method := self_statements (parser_self fuel).
Definition statement (fuel : nat) : parse_method := self_statement (parser_self fuel).
Definition expr (fuel : nat) : parse_method := self_expr (parser_self fuel).

(** [Parser.parse] *)
Definition parse (fuel : nat) (p : Parser) : host (ParseResult * Parser) :=
  let* (result, p) := statements fuel false false p in
  if negb (has_error result) && negb (current_is p TOKEN_TYPE_EOF)
  then Ret (fail_here result p "tokens_out_of_place", p)
  else Ret (result, p).

(** ** Values *)

(** The attributes every value carries: its span and its owning context. *)
Record Stamp : Type := mkStamp {
  st_pos_start : option Position;
  st_pos_end : option Position;
  st_context : option Context
}.

Definition no_stamp : Stamp := mkStamp None None None.

(** The classes [Number], [String], [List], [Function], [BuiltInFunction].
    A [List] holds the location of its element sequence in the store. *)
Inductive Value : Type :=
  | VNumber (n : pynum) (st : Stamp)
  | VString (s : string) (st : Stamp)
  | VList (elements : loc) (st : Stamp)
  | VFunction (name : string) (body_node : Node) (arg_names : list string)
              (should_auto_return : bool) (st : Stamp)
  | VBuiltInFunction (name : string) (st : Stamp).

Definition stamp (v : Value) : Stamp :=
  match v with
  | VNumber _ st | VString _ st | VList _ st | VFunction _ _ _ _ st
  | VBuiltInFunction _ st => st
  end.

Definition with_stamp (v : Value) (st : Stamp) : Value :=
  match v with
  | VNumber n _ => VNumber n st
  | VString s _ => VString s st
  | VList l _ => VList l st
  | VFunction n b a r _ => VFunction n b a r st
  | VBuiltInFunction n _ => VBuiltInFunction n st
  end.

Definition value_pos_start (v : Value) : option Position := st_pos_start (stamp v).
Definition value_pos_end (v : Value) : option Position := st_pos_end (stamp v).
Definition value_context (v : Value) : option Context := st_context (stamp v).

Definition is_function (v : Value) : bool :=
  match v with VFunction _ _ _ _ _ | VBuiltInFunction _ _ => true | _ => false end.

(** [Value.set_pos] *)
Definition set_pos (v : Value) (ps pe : option Position) : Value :=
  with_stamp v (mkStamp ps pe (value_context v)).

(** [Value.set_context] *)
Definition Value_set_context (v : Value) (context : option Context) : Value :=
  with_stamp v (mkStamp (value_pos_start v) (value_pos_end v) context).

(** [BaseFunction.set_context]: a context that is set stays. *)
Definition BaseFunction_set_context (v : Value) (context : option Context) : Value :=
  match value_context v with
  | Some _ => v
  | None => Value_set_context v context
  end.

(** [v.set_context(context)], by the class of [v]. *)
Definition set_context (v : Value) (context : option Context) : Value :=
  if is_function v then BaseFunction_set_context v context
  else Value_set_context v context.

(** [v.copy()]: a new wrapper with the same attributes; the copy of a [List]
    holds the same element sequence. *)
Definition copy (v : Value) : Value :=
  let fresh := with_stamp v no_stamp in
  set_pos (set_context fresh (value_context v)) (value_pos_start v) (value_pos_end v).

(** A value without its context. *)
Definition forget_context (v : Value) : Value := Value_set_context v None.

(** [Number.none], [Number.false], [Number.true] *)
Definition Number_none : Value := VNumber (PInt 0) no_stamp.
Definition Number_false : Value := VNumber (PInt 0) no_stamp.
Definition Number_true : Value := VNumber (PInt 1) no_stamp.
(** [Number.math_PI]: the float nearest to pi. *)
Definition Number_math_PI : Value :=
  VNumber (PFloat (S754_finite false 7074237752028440 (-51))) no_stamp.

(** [Value.illegal_operation] *)
Definition illegal_operation (self : Value) (other : option Value) : Error :=
  let other := match other with Some o => o | None => self end in
  RTError (value_pos_start self) (value_pos_end other) "Illegal operation"
    (value_context self).

(** ** Runtime result *)

Record RTResult : Type := mkRTResult {
  rt_value : option Value;
  rt_error : option Error;
  func_return_value : option Value;
  loop_should_continue : bool;
  loop_should_break : bool
}.

Definition RTResult_new : RTResult := mkRTResult None None None false false.

Definition RTResult_register (r res : RTResult) : RTResult * option Value :=
  (mkRTResult (rt_value r) (rt_error res) (func_return_value res)
     (loop_should_continue res) (loop_should_break res),
   rt_value res).

Definition RTResult_success (v : option Value) : RTResult :=
  mkRTResult v None None false false.
Definition RTResult_success_return (v : option Value) : RTResult :=
  mkRTResult None None v false false.
Definition RTResult_success_continue : RTResult :=
  mkRTResult None None None true false.
Definition RTResult_success_break : RTResult :=
  mkRTResult None None None false true.
Definition RTResult_failure (e : Error) : RTResult :=
  mkRTResult None (Some e) None false false.

Definition should_return (r : RTResult) : bool :=
  match rt_error r, func_return_value r with
  | Some _, _ | _, Some _ => true
  | None, None => loop_should_continue r || loop_should_break r
  end.

(** ** The store *)

Record SymbolTable : Type := mkSymbolTable {
  symbols : gmap string Value;
  table_parent : option loc
}.

(** The shared mutable objects (element sequences and symbol tables, by
    location) and the console and files the built-ins reach.

    A sequence and a table hold values, each with the stamp it had when it
    was stored.  In the code they hold the objects, and [set_pos] and
    [set_context] act on the object they are called on: the span of an
    element fetched with [/] is set by [visit_BinOpNode], the context of an
    argument by [populate_params].  What the store says of a stored value is
    therefore exact for the value itself (number, text, sequence, function)
    and, for its stamp, up to such later re-stampings. *)
Record World : Type := mkWorld {
  lists : gmap loc (list Value);
  tables : gmap loc SymbolTable;
  next_loc : loc;
  stdout : list string;
  stdin : list string;
  files : gmap string string
}.

Definition alloc_list (w : World) (l : list Value) : loc * World :=
  (next_loc w,
   mkWorld (<[next_loc w := l]> (lists w)) (tables w) (S (next_loc w))
     (stdout w) (stdin w) (files w)).

Definition alloc_table (w : World) (t : SymbolTable) : loc * World :=
  (next_loc w,
   mkWorld (lists w) (<[next_loc w := t]> (tables w)) (S (next_loc w))
     (stdout w) (stdin w) (files w)).

Definition set_list (w : World) (l : loc) (xs : list Value) : World :=
  mkWorld (<[l := xs]> (lists w)) (tables w) (next_loc w)
    (stdout w) (stdin w) (files w).

Definition get_list (w : World) (l : loc) : list Value :=
  default [] (lists w !! l).

(** What a sequence and a table of the store hold, whatever contexts their
    values have been given. *)
Definition held_in_list (w : World) (l : loc) : list Value :=
  map forget_context (get_list w l).

Definition held_in_table (w : World) (t : loc) : option SymbolTable :=
  (fun tbl => mkSymbolTable (forget_context <$> symbols tbl) (table_parent tbl))
    <$> tables w !! t.

Definition write_stdout (w : World) (line : string) : World :=
  mkWorld (lists w) (tables w) (next_loc w) (append (stdout w) line)
    (stdin w) (files w).

(** [SymbolTable.get]: the local entry, else the parent's. The chain of
    parents is followed for at most [fuel] tables. *)
Fixpoint SymbolTable_get (fuel : nat) (w : World) (t : loc) (name : string)
    : host (option Value) :=
  match fuel with
  | O => OutOfFuel
  | S fuel' =>
      match tables w !! t with
      | None => Raise AttributeError
      | Some tbl =>
          match symbols tbl !! name, table_parent tbl with
          | None, Some up => SymbolTable_get fuel' w up name
          | found, _ => Ret found
          end
      end
  end.

(** [SymbolTable.set] *)
Definition SymbolTable_set (w : World) (t : loc) (name : string) (v : Value)
    : host World :=
  match tables w !! t with
  | None => Raise AttributeError
  | Some tbl =>
      Ret (mkWorld (lists w)
             (<[t := mkSymbolTable (<[name := v]> (symbols tbl)) (table_parent tbl)]>
                (tables w))
             (next_loc w) (stdout w) (stdin w) (files w))
  end.

(** ** Operations of the values *)

(** The outcome of an operator method: the pair (value, error) of which one
    is [None]. *)
Definition OpResult : Type := (Value + Error)%type.

(** A new [Number] that inherits the context of [self]. *)
Definition number_result (self : Value) (n : pynum) : Value :=
  VNumber n (mkStamp None None (value_context self)).

Definition illegal (self other : Value) : OpResult :=
  inr (illegal_operation self (Some other)).

Definition Number_arith (op : pynum -> pynum -> host pynum)
    (a : pynum) (self other : Value) : host OpResult :=
  match other with
  | VNumber b _ => let* r := op a b in Ret (inl (number_result self r))
  | _ => Ret (illegal self other)
  end.

Definition Number_added_to := Number_arith num_add.
Definition Number_subtracted_by := Number_arith num_sub.
Definition Number_multiplied_by := Number_arith num_mul.
Definition Number_powered_by := Number_arith num_pow.

Definition Number_divided_by (a : pynum) (self other : Value) : host OpResult :=
  match other with
  | VNumber b _ =>
      if num_eq b (PInt 0)
      then Ret (inr (RTError (value_pos_start other) (value_pos_end other)
                       (ERRORS "division_by_zero") (value_context self)))
      else let* r := num_truediv a b in Ret (inl (number_result self r))
  | _ => Ret (illegal self other)
  end.

Definition Number_modulused_by (a : pynum) (self other : Value) : host OpResult :=
  match other with
  | VNumber b _ =>
      if num_eq b (PInt 0)
      then Ret (inr (RTError (value_pos_start other) (value_pos_end other)
                       (ERRORS "modulus_by_zero") (value_context self)))
      else let* r := num_mod a b in Ret (inl (number_result self r))
  | _ => Ret (illegal self other)
  end.

Definition Number_comparison (cmp : pynum -> pynum -> bool) :=
  Number_arith (fun a b => Ret (num_of_bool (cmp a b))).

Definition Number_get_comparison_eq := Number_comparison num_eq.
Definition Number_get_comparison_ne := Number_comparison num_ne.
Definition Number_get_comparison_lt := Number_comparison num_lt.
Definition Number_get_comparison_gt := Number_comparison num_gt.
Definition Number_get_comparison_lte := Number_comparison num_le.
Definition Number_get_comparison_gte := Number_comparison num_ge.

Definition Number_anded_by :=
  Number_arith (fun a b => let* z := num_int (num_and a b) in Ret (PInt z)).
Definition Number_ored_by :=
  Number_arith (fun a b => let* z := num_int (num_or a b) in Ret (PInt z)).

Definition Number_notted (a : pynum) (self : Value) : OpResult :=
  inl (number_result self (PInt (if num_eq a (PInt 0) then 1 else 0))).

Definition String_added_to (a : string) (self other : Value) : OpResult :=
  match other with
  | VString b _ => inl (VString (a ++ b) (mkStamp None None (value_context self)))
  | _ => illegal self other
  end.

Fixpoint repeat_string (a : string) (n : nat) : string :=
  match n with O => "" | S k => a ++ repeat_string a k end.

(** [String.multplied_by] (the name the class gives it): the text repeated. *)
Definition String_multplied_by (a : string) (self other : Value) : host OpResult :=
  match other with
  | VNumber (PInt n) _ =>
      Ret (inl (VString (repeat_string a (Z.to_nat n))
                  (mkStamp None None (value_context self))))
  | VNumber (PFloat _) _ => Raise TypeError
  | _ => Ret (illegal self other)
  end.

(** Index into a host list of length [len]: negative indices count from the
    end. *)
Definition py_index (len i : Z) : option nat :=
  if (0 <=? i) && (i <? len) then Some (Z.to_nat i)
  else if (- len <=? i) && (i <? 0) then Some (Z.to_nat (i + len))
  else None.

Definition int_index (n : pynum) : host Z :=
  match n with PInt z => Ret z | PFloat _ => Raise TypeError end.

(** The host's [sys.maxsize]: the largest C [ssize_t], on a 64-bit host. *)
Definition PY_SSIZE_T_MAX : Z := 2 ^ 63 - 1.

Definition fits_ssize_t (i : Z) : bool :=
  (- PY_SSIZE_T_MAX - 1 <=? i) && (i <=? PY_SSIZE_T_MAX).

(** The index that the host's [list.pop] takes: the method converts its
    argument to a C [ssize_t] before it looks at the list, and an integer
    that does not fit raises [OverflowError], which [except IndexError] does
    not catch.  (Subscription, [xs[i]], turns the same overflow into an
    [IndexError].) *)
Definition pop_index (n : pynum) : host Z :=
  let* i := int_index n in
  if fits_ssize_t i then Ret i else Raise OverflowError.

(** [List.added_to]: the element is appended to the sequence of the copy,
    which is the sequence of [self]. *)
Definition List_added_to (l : loc) (self other : Value) (w : World)
    : OpResult * World :=
  let new_list := copy self in
  (inl new_list, set_list w l (append (get_list w l) other)).

(** [List.subtracted_by]: the element is popped from the sequence of the
    copy, which is the sequence of [self]. *)
Definition List_subtracted_by (l : loc) (self other : Value) (w : World)
    : host (OpResult * World) :=
  match other with
  | VNumber n _ =>
      let new_list := copy self in
      let* i := pop_index n in
      let xs := get_list w l in
      match py_index (Z.of_nat (length xs)) i with
      | Some k => Ret (inl new_list, set_list w l (take k xs ++ drop (S k) xs)%list)
      | None =>
          Ret (inr (RTError (value_pos_start other) (value_pos_end other)
                      (ERRORS "list_index_error") (value_context self)), w)
      end
  | _ => Ret (illegal self other, w)
  end.

Definition List_multiplied_by (l : loc) (self other : Value) (w : World)
    : OpResult * World :=
  match other with
  | VList l2 _ =>
      let new_list := copy self in
      (inl new_list, set_list w l (get_list w l ++ get_list w l2)%list)
  | _ => (illegal self other, w)
  end.

Definition List_divided_by (l : loc) (self other : Value) (w : World)
    : host OpResult :=
  match other with
  | VNumber n _ =>
      let* i := int_index n in
      let xs := get_list w l in
      match py_index (Z.of_nat (length xs)) i with
      | Some k =>
          match xs !! k with
          | Some x => Ret (inl x)
          | None => Raise IndexError
          end
      | None =>
          Ret (inr (RTError (value_pos_start other) (value_pos_end other)
                      (ERRORS "fetch_index_error") (value_context self)))
      end
  | _ => Ret (illegal self other)
  end.

(** The operator methods, by the class of [self]; a class that does not
    define a method inherits [Value]'s, which reports an illegal operation. *)
Definition added_to (self other : Value) (w : World) : host (OpResult * World) :=
  match self with
  | VNumber a _ => let* r := Number_added_to a self other in Ret (r, w)
  | VString a _ => Ret (String_added_to a self other, w)
  | VList l _ => Ret (List_added_to l self other w)
  | _ => Ret (illegal self other, w)
  end.

Definition subtracted_by (self other : Value) (w : World) : host (OpResult * World) :=
  match self with
  | VNumber a _ => let* r := Number_subtracted_by a self other in Ret (r, w)
  | VList l _ => List_subtracted_by l self other w
  | _ => Ret (illegal self other, w)
  end.

Definition multiplied_by (self other : Value) (w : World) : host (OpResult * World) :=
  match self with
  | VNumber a _ => let* r := Number_multiplied_by a self other in Ret (r, w)
  | VList l _ => Ret (List_multiplied_by l self other w)
  | _ => Ret (illegal self other, w)
  end.

Definition divided_by (self other : Value) (w : World) : host (OpResult * World) :=
  match self with
  | VNumber a _ => let* r := Number_divided_by a self other in Ret (r, w)
  | VList l _ => let* r := List_divided_by l self other w in Ret (r, w)
  | _ => Ret (illegal self other, w)
  end.

(** The methods only [Number] defines. *)
Definition number_only (m : pynum -> Value -> Value -> host OpResult)
    (self other : Value) (w : World) : host (OpResult * World) :=
  match self with
  | VNumber a _ => let* r := m a self other in Ret (r, w)
  | _ => Ret (illegal self other, w)
  end.

Definition modulused_by := number_only Number_modulused_by.
Definition powered_by := number_only Number_powered_by.
Definition get_comparison_eq := number_only Number_get_comparison_eq.
Definition get_comparison_ne := number_only Number_get_comparison_ne.
Definition get_comparison_lt := number_only Number_get_comparison_lt.
Definition get_comparison_gt := number_only Number_get_comparison_gt.
Definition get_comparison_lte := number_only Number_get_comparison_lte.
Definition get_comparison_gte := number_only Number_get_comparison_gte.
Definition anded_by := number_only Number_anded_by.
Definition ored_by := number_only Number_ored_by.

Definition notted (self : Value) : OpResult :=
  match self with
  | VNumber a _ => Number_notted a self
  | _ => inr (illegal_operation self None)
  end.

Definition is_true (v : Value) : bool :=
  match v with
  | VNumber a _ => num_ne a (PInt 0)
  | VString s _ => (0 <? String.length s)%nat
  | _ => false
  end.

(** *** Texts of values and errors *)

Fixpoint join (sep : string) (l : list string) : string :=
  match l with
  | [] => ""
  | [x] => x
  | x :: r => x ++ sep ++ join sep r
  end.

Fixpoint host_map {A B} (f : A -> host B) (l : list A) : host (list B) :=
  match l with
  | [] => Ret []
  | x :: r => let* y := f x in let* ys := host_map f r in Ret (y :: ys)
  end.

Definition repr_function (v : Value) : string :=
  match v with
  | VFunction name _ _ _ _ => "<function " ++ name ++ ">"
  | VBuiltInFunction name _ => "<built-in function " ++ name ++ ">"
  | _ => ""
  end.

(** [str(v)]. The decimal text of a float is left to the host. *)
Fixpoint value_str (fuel : nat) (w : World) (v : Value) : host string :=
  match fuel with
  | O => OutOfFuel
  | S fuel' =>
      match v with
      | VNumber (PInt z) _ => Ret (pretty z)
      | VNumber (PFloat _) _ => HostLib "float_repr"
      | VString s _ => Ret s
      | VList l _ =>
          let* xs := host_map (value_str fuel' w) (get_list w l) in
          Ret (join ", " xs)
      | _ => Ret (repr_function v)
      end
  end.

(** Modelled from the spec: the renderer [string_with_arrows] of the module
    [misc] (a source excerpt with a caret under the span) is not among the
    sources; the excerpt is represented by an empty text. *)
Definition string_with_arrows (text : string) (ps pe : option Position) : string := "".

Definition nl : string := str_of_char newline_char.

Definition need {A} (x : option A) : host A :=
  match x with Some a => Ret a | None => Raise AttributeError end.

Fixpoint generate_traceback (fuel : nat) (pos : option Position)
    (context : option Context) (result : string) : host string :=
  match fuel with
  | O => OutOfFuel
  | S fuel' =>
      match context with
      | None => Ret ("Traceback (most recent call last):" ++ nl ++ result)
      | Some c =>
          let* p := need pos in
          generate_traceback fuel' (parent_entry_pos c) (parent c)
            ("  File " ++ filename p ++ ", line " ++ pretty (linenum p + 1)
             ++ ", in " ++ display_name c ++ nl ++ result)
      end
  end.

Fixpoint context_depth (c : Context) : nat :=
  match c with
  | mkContext _ (Some up) _ _ => S (context_depth up)
  | mkContext _ None _ _ => 1%nat
  end.

(** [Error.as_string] and its override [RTError.as_string]. *)
Definition as_string (e : Error) : host string :=
  let* ps := need (error_pos_start e) in
  let excerpt := string_with_arrows (filetext ps) (error_pos_start e) (error_pos_end e) in
  if String.eqb (error_name e) "Runtime Error" then
    let depth := match error_context e with
                 | Some c => S (context_depth c) | None => 1%nat end in
    let* tb := generate_traceback depth (error_pos_start e) (error_context e) "" in
    Ret (tb ++ error_name e ++ ": " ++ details e ++ nl ++ nl ++ excerpt)
  else
    Ret (error_name e ++ ": " ++ details e ++ nl ++ nl
         ++ "File " ++ filename ps ++ ", line " ++ pretty (linenum ps + 1)
         ++ nl ++ nl ++ excerpt).

(** ** Functions and built-ins *)

(** What [self] offers to the evaluator's methods: the dispatching [visit]
    and the number of turns left to a loop. *)
Record InterpreterSelf : Type := mkInterpreterSelf {
  fuel_left : nat;
  self_visit : Node -> Context -> World -> host (RTResult * World)
}.

(** [BaseFunction.generate_new_context]: a frame whose symbol table is a new
    child of the table of the function's own context. *)
Definition generate_new_context (f : Value) (name : string) (w : World)
    : host (Context * World) :=
  let* defining := need (value_context f) in
  let '(t, w) := alloc_table w (mkSymbolTable ∅ (Some (symbol_table defining))) in
  Ret (mkContext name (Some defining) (value_pos_start f) t, w).

Definition count_text (n : nat) : string := pretty (Z.of_nat n).

(** [BaseFunction.check_params] *)
Definition check_params (f : Value) (param_names : list string)
    (args : list Value) : RTResult :=
  if (length param_names <? length args)%nat then
    RTResult_failure
      (RTError (value_pos_start f) (value_pos_end f)
         (count_text (length args - length param_names)
          ++ " too many args passed into " ++ repr_function f)
         (value_context f))
  else if (length args <? length param_names)%nat then
    RTResult_failure
      (RTError (value_pos_start f) (value_pos_end f)
         (count_text (length param_names - length args)
          ++ " too few args passed into " ++ repr_function f)
         (value_context f))
  else RTResult_success None.

(** [BaseFunction.populate_params]: each argument gets the execution frame
    as its context and is bound to its parameter in the table of the frame.

    In the code [set_context] acts on the argument object itself.  An
    argument that is also held elsewhere (an element fetched from a list with
    [/], the value that a [VAR] has just stored, the unit value) therefore
    carries the new context there too.  The store holds values, not
    objects, so that a value it already held keeps the context it was stored
    with: after a call, what the store held before is exact up to the
    contexts of its values ([forget_context]). *)
Fixpoint populate_params (param_names : list string) (args : list Value)
    (execution_context : Context) (w : World) : host World :=
  match args, param_names with
  | [], _ => Ret w
  | _ :: _, [] => Raise IndexError
  | param_value :: args, param_name :: param_names =>
      let param_value := set_context param_value (Some execution_context) in
      let* w := SymbolTable_set w (symbol_table execution_context)
                  param_name param_value in
      populate_params param_names args execution_context w
  end.

(** [BaseFunction.check_and_populate_params] *)
Definition check_and_populate_params (f : Value) (param_names : list string)
    (args : list Value) (execution_context : Context) (w : World)
    : host (RTResult * World) :=
  let '(result, _) := RTResult_register RTResult_new (check_params f param_names args) in
  if should_return result then Ret (result, w)
  else
    let* w := populate_params param_names args execution_context w in
    Ret (RTResult_success None, w).

(** The host's truth value of an optional value: only [None] is false. *)
Definition or_else (a b : option Value) : option Value :=
  match a with Some _ => a | None => b end.

(** The end of [Function.execute], once the body has been evaluated to the
    carrier [r]: a signal other than a return is handed on; otherwise the
    call succeeds with the value of the body (arrow form), else the returned
    value, else the unit value. *)
Definition Function_finish (should_auto_return : bool) (result r : RTResult)
    : RTResult :=
  let '(result, thevalue) := RTResult_register result r in
  if should_return result
     && match func_return_value result with None => true | Some _ => false end
  then result
  else
    RTResult_success
      (or_else (or_else (if should_auto_return then thevalue else None)
                        (func_return_value result))
               (Some Number_none)).

(** [Function.execute] *)
Definition Function_execute (self : InterpreterSelf) (f : Value)
    (args : list Value) (w : World) : host (RTResult * World) :=
  match f with
  | VFunction name body_node arg_names should_auto_return _ =>
      let result := RTResult_new in
      let* (execution_context, w) := generate_new_context f name w in
      let* (r, w) := check_and_populate_params f arg_names args execution_context w in
      let '(result, _) := RTResult_register result r in
      if should_return result then Ret (result, w)
      else
        let* (r, w) := self_visit self body_node execution_context w in
        Ret (Function_finish should_auto_return result r, w)
  | _ => Raise AttributeError
  end.

(** The global symbol table is the first object of the store. *)
Definition global_symbol_table : loc := 0%nat.

(** The pair that [run] returns: the full result carrier or the plain
    value, and the error. *)
Inductive RunValue : Type :=
  | FullResult (r : RTResult)
  | PlainValue (v : option Value).

(** The frame that [run] builds for a program: with no parent its symbol
    table is the global one, otherwise it is the parent's own table. *)
Definition program_context (context : option Context)
    (entry_pos : option Position) : Context :=
  mkContext "<program>" context entry_pos
    (match context with
     | None => global_symbol_table
     | Some up => symbol_table up
     end).

(** [run] *)
Definition run_body (self : InterpreterSelf) (fname txt : string)
    (context : option Context) (entry_pos : option Position)
    (return_result : bool) (w : World)
    : host (option RunValue * option Error * World) :=
  let* (tokens, error) := make_tokens (Lexer_new fname txt) in
  match error with
  | Some e => Ret (None, Some e, w)
  | None =>
      let* parser := need (Parser_new tokens) in
      let* (ast, _) := parse (fuel_left self) parser in
      match pr_error ast with
      | Some e => Ret (None, Some e, w)
      | None =>
          let context := program_context context entry_pos in
          let* root := as_node (pr_node ast) in
          let* (result, w) := self_visit self root context w in
          if return_result then Ret (Some (FullResult result), None, w)
          else Ret (Some (PlainValue (rt_value result)), rt_error result, w)
      end
  end.

Definition lookup (w : World) (c : Context) (name : string) : host (option Value) :=
  SymbolTable_get (S (next_loc w)) w (symbol_table c) name.

Definition builtin_arg_names (name : string) : host (list string) :=
  if str_in name ["print"; "print_ret"; "is_number"; "is_string"; "is_list";
                  "is_function"]
  then Ret ["value"]
  else if str_in name ["input"; "input_int"; "clear"] then Ret []
  else if String.eqb name "append" then Ret ["list"; "value"]
  else if String.eqb name "pop" then Ret ["list"; "index"]
  else if String.eqb name "extend" then Ret ["listA"; "listB"]
  else if String.eqb name "len" then Ret ["list"]
  else if String.eqb name "run" then Ret ["filename"]
  else (* [no_visit_method] has no [arg_names] *) Raise AttributeError.

Definition builtin_error (f : Value) (key : string) (execution_context : Context)
    : RTResult :=
  RTResult_failure
    (RTError (value_pos_start f) (value_pos_end f) key (Some execution_context)).

Definition truth (b : bool) : RTResult :=
  RTResult_success (Some (if b then Number_true else Number_false)).

(** [int(text)] on a console line. A sign and ASCII digits are read here; a
    line with no digit at all is refused; other spellings the host accepts
    (blanks, underscores, other scripts) are left to it. *)
Definition all_digits (s : string) : bool :=
  forallb (fun c => char_in c DIGITS) (list_ascii_of_string s).

Definition has_digit_or_high (s : string) : bool :=
  existsb (fun c => char_in c DIGITS || (127 <? nat_of_ascii c)%nat)
    (list_ascii_of_string s).

Definition py_int_text (s : string) : host (option Z) :=
  let digits_of d := fst (decimal_parts d 0 false 0) in
  match s with
  | String c r =>
      if (Ascii.eqb c "-" || Ascii.eqb c "+") && all_digits r
         && negb (String.eqb r "") && (String.length r <=? int_max_str_digits)%nat
      then Ret (Some (if Ascii.eqb c "-" then - digits_of r else digits_of r))
      else if all_digits s && (String.length s <=? int_max_str_digits)%nat
      then Ret (Some (digits_of s))
      else if has_digit_or_high s then HostLib "int" else Ret None
  | EmptyString => Ret None
  end.

Fixpoint execute_input_int (fuel : nat) (w : World) : host (RTResult * World) :=
  match fuel with
  | O => OutOfFuel
  | S fuel' =>
      match stdin w with
      | [] => Raise EOFError
      | line :: rest =>
          let w := mkWorld (lists w) (tables w) (next_loc w) (stdout w) rest (files w) in
          let* n := py_int_text line in
          match n with
          | Some z => Ret (RTResult_success (Some (VNumber (PInt z) no_stamp)), w)
          | None =>
              execute_input_int fuel'
                (write_stdout w ("'" ++ line ++ "' must be an integer. Try again!"))
          end
      end
  end.

Definition quoted (s : string) : string :=
  str_of_char quote_char ++ s ++ str_of_char quote_char.

(** The bodies [execute_<name>] of the built-ins. *)
Definition builtin_body (self : InterpreterSelf) (f : Value) (name : string)
    (execution_context : Context) (w : World) : host (RTResult * World) :=
  let arg n := lookup w execution_context n in
  if String.eqb name "print" then
    let* v := arg "value" in
    let* t := match v with Some v => value_str (S (next_loc w)) w v
                         | None => Ret "None" end in
    Ret (RTResult_success (Some Number_none), write_stdout w t)
  else if String.eqb name "print_ret" then
    let* v := arg "value" in
    let* t := match v with Some v => value_str (S (next_loc w)) w v
                         | None => Ret "None" end in
    Ret (RTResult_success (Some (VString t no_stamp)), w)
  else if String.eqb name "input" then
    match stdin w with
    | [] => Raise EOFError
    | line :: rest =>
        Ret (RTResult_success (Some (VString line no_stamp)),
             mkWorld (lists w) (tables w) (next_loc w) (stdout w) rest (files w))
    end
  else if String.eqb name "input_int" then execute_input_int (S (length (stdin w))) w
  else if String.eqb name "clear" then Ret (RTResult_success (Some Number_none), w)
  else if String.eqb name "is_number" then
    let* v := arg "value" in
    Ret (truth match v with Some (VNumber _ _) => true | _ => false end, w)
  else if String.eqb name "is_string" then
    let* v := arg "value" in
    Ret (truth match v with Some (VString _ _) => true | _ => false end, w)
  else if String.eqb name "is_list" then
    let* v := arg "value" in
    Ret (truth match v with Some (VList _ _) => true | _ => false end, w)
  else if String.eqb name "is_function" then
    let* v := arg "value" in
    Ret (truth match v with Some v => is_function v | None => false end, w)
  else if String.eqb name "append" then
    let* list_ := arg "list" in
    let* v := arg "value" in
    match list_, v with
    | Some (VList l _), Some v =>
        Ret (RTResult_success (Some Number_none), set_list w l (append (get_list w l) v))
    | Some (VList l _), None => Raise AttributeError
    | _, _ => Ret (builtin_error f (ERRORS "arg1_list_expected") execution_context, w)
    end
  else if String.eqb name "pop" then
    let* list_ := arg "list" in
    let* index := arg "index" in
    match list_, index with
    | Some (VList l _), Some (VNumber n _) =>
        let* i := pop_index n in
        let xs := get_list w l in
        match py_index (Z.of_nat (length xs)) i with
        | Some k =>
            Ret (RTResult_success (xs !! k),
                 set_list w l (take k xs ++ drop (S k) xs)%list)
        | None =>
            Ret (builtin_error f (ERRORS "list_index_error") execution_context, w)
        end
    | Some (VList _ _), _ =>
        Ret (builtin_error f (ERRORS "arg2_number_expected") execution_context, w)
    | _, _ => Ret (builtin_error f (ERRORS "arg1_list_expected") execution_context, w)
    end
  else if String.eqb name "extend" then
    let* listA := arg "listA" in
    let* listB := arg "listB" in
    match listA, listB with
    | Some (VList a _), Some (VList b _) =>
        Ret (RTResult_success (Some Number_none),
             set_list w a (get_list w a ++ get_list w b)%list)
    | Some (VList _ _), _ =>
        Ret (builtin_error f (ERRORS "arg2_list_expected") execution_context, w)
    | _, _ => Ret (builtin_error f (ERRORS "arg1_list_expected") execution_context, w)
    end
  else if String.eqb name "len" then
    let* list_ := arg "list" in
    match list_ with
    | Some (VList l _) =>
        Ret (RTResult_success
               (Some (VNumber (PInt (Z.of_nat (length (get_list w l)))) no_stamp)), w)
    | _ => Ret (builtin_error f (ERRORS "arg_list_expected") execution_context, w)
    end
  else if String.eqb name "run" then
    let* fn := arg "filename" in
    match fn with
    | Some (VString fname _) =>
        let w := write_stdout w "WARNING: run() is deprecated. Use 'IMPORT' instead" in
        match files w !! fname with
        | None =>
            Ret (builtin_error f
                   ("Failed to load script " ++ quoted fname ++ nl
                    ++ "[Errno 2] No such file or directory: '" ++ fname ++ "'")
                   execution_context, w)
        | Some script =>
            let* (_, error, w) := run_body self fname script None None false w in
            match error with
            | Some e =>
                let* t := as_string e in
                Ret (builtin_error f
                       ("Failed to finish executing script " ++ quoted fname
                        ++ nl ++ t) execution_context, w)
            | None => Ret (RTResult_success (Some Number_none), w)
            end
        end
    | _ => Ret (builtin_error f (ERRORS "arg2_string_expected") execution_context, w)
    end
  else Raise AttributeError.

(** [BuiltInFunction.execute] *)
Definition BuiltInFunction_execute (self : InterpreterSelf) (f : Value)
    (args : list Value) (w : World) : host (RTResult * World) :=
  match f with
  | VBuiltInFunction name _ =>
      let result := RTResult_new in
      let* (execution_context, w) := generate_new_context f name w in
      let* arg_names := builtin_arg_names name in
      let* (r, w) := check_and_populate_params f arg_names args execution_context w in
      let '(result, _) := RTResult_register result r in
      if should_return result then Ret (result, w)
      else
        let* (r, w) := builtin_body self f name execution_context w in
        let '(result, return_value) := RTResult_register result r in
        if should_return result then Ret (result, w)
        else Ret (RTResult_success return_value, w)
  | _ => Raise AttributeError
  end.

(** [v.execute(args)], by the class of [v]. *)
Definition execute (self : InterpreterSelf) (v : Value) (args : list Value)
    (w : World) : host (RTResult * World) :=
  match v with
  | VFunction _ _ _ _ _ => Function_execute self v args w
  | VBuiltInFunction _ _ => BuiltInFunction_execute self v args w
  | _ => Ret (RTResult_failure (illegal_operation v None), w)
  end.

(** ** Interpreter *)

Definition node_stamp (v : Value) (node : Node) : Value :=
  set_pos v (Some (node_pos_start node)) (Some (node_pos_end node)).

(** The name a token gives to a variable, a parameter or a function: the
    text of an IDENTIFIER token. *)
Definition token_name (t : Token) : string := TokenValue_str (value t).

Definition visit_NumberNode (node : Node) (token : Token) (context : Context)
    (w : World) : host (RTResult * World) :=
  match value token with
  | NumValue n =>
      Ret (RTResult_success
             (Some (node_stamp (set_context (VNumber n no_stamp) (Some context)) node)), w)
  | _ => (* the parser builds this node from INT and FLOAT tokens only *)
      Raise TypeError
  end.

Definition visit_StringNode (node : Node) (token : Token) (context : Context)
    (w : World) : host (RTResult * World) :=
  match value token with
  | StrValue s =>
      Ret (RTResult_success
             (Some (node_stamp (set_context (VString s no_stamp) (Some context)) node)), w)
  | _ => (* the parser builds this node from STRING tokens only *)
      Raise TypeError
  end.

(** The values of a sequence of nodes, left to right, up to the first
    signal. *)
Fixpoint visit_each (self : InterpreterSelf) (nodes : list Node)
    (context : Context) (result : RTResult) (values : list Value) (w : World)
    : host (RTResult * list Value * World) :=
  match nodes with
  | [] => Ret (result, values, w)
  | n :: rest =>
      let* (r, w) := self_visit self n context w in
      let '(result, v) := RTResult_register result r in
      if should_return result then Ret (result, values, w)
      else
        let* v := need v in
        visit_each self rest context result (append values v) w
  end.

Definition visit_ListNode (self : InterpreterSelf) (node : Node)
    (element_nodes : list Node) (context : Context) (w : World)
    : host (RTResult * World) :=
  let* (result, elements, w) :=
    visit_each self element_nodes context RTResult_new [] w in
  if should_return result then Ret (result, w)
  else
    let '(l, w) := alloc_list w elements in
    Ret (RTResult_success
           (Some (node_stamp (set_context (VList l no_stamp) (Some context)) node)), w).

Definition visit_VarAccessNode (node : Node) (var_name_token : Token)
    (context : Context) (w : World) : host (RTResult * World) :=
  let var_name := token_name var_name_token in
  let* v := lookup w context var_name in
  match v with
  | None =>
      Ret (RTResult_failure
             (RTError (Some (node_pos_start node)) (Some (node_pos_end node))
                ("'" ++ var_name ++ "' is not defined") (Some context)), w)
  | Some v =>
      Ret (RTResult_success
             (Some (set_context (node_stamp (copy v) node) (Some context))), w)
  end.

Definition visit_VarAssignNode (self : InterpreterSelf) (var_name_token : Token)
    (value_node : Node) (context : Context) (w : World)
    : host (RTResult * World) :=
  let var_name := token_name var_name_token in
  let* (r, w) := self_visit self value_node context w in
  let '(result, v) := RTResult_register RTResult_new r in
  if should_return result then Ret (result, w)
  else
    let* v := need v in
    let* w := SymbolTable_set w (symbol_table context) var_name v in
    Ret (RTResult_success (Some v), w).

(** The method that [visit_BinOpNode] calls for an operator token. *)
Definition binary_method (op : Token)
    : option (Value -> Value -> World -> host (OpResult * World)) :=
  match type op with
  | TOKEN_TYPE_PLUS => Some added_to
  | TOKEN_TYPE_MINUS => Some subtracted_by
  | TOKEN_TYPE_MULTIPLY => Some multiplied_by
  | TOKEN_TYPE_DIVIDE => Some divided_by
  | TOKEN_TYPE_MODULUS => Some modulused_by
  | TOKEN_TYPE_POWER => Some powered_by
  | TOKEN_TYPE_EQUAL_TO => Some get_comparison_eq
  | TOKEN_TYPE_NOT_EQUAL_TO => Some get_comparison_ne
  | TOKEN_TYPE_LESS_THAN => Some get_comparison_lt
  | TOKEN_TYPE_GREATER_THAN => Some get_comparison_gt
  | TOKEN_TYPE_LESS_THAN_EQUAL_TO => Some get_comparison_lte
  | TOKEN_TYPE_GREATER_THAN_EQUAL_TO => Some get_comparison_gte
  | _ =>
      if matches op TOKEN_TYPE_KEYWORD "AND" then Some anded_by
      else if matches op TOKEN_TYPE_KEYWORD "OR" then Some ored_by
      else None
  end.

Definition visit_BinOpNode (self : InterpreterSelf) (node : Node)
    (left_node : Node) (operator_token : Token) (right_node : Node)
    (context : Context) (w : World) : host (RTResult * World) :=
  let* (r, w) := self_visit self left_node context w in
  let '(result, left_) := RTResult_register RTResult_new r in
  if should_return result then Ret (result, w)
  else
    let* (r, w) := self_visit self right_node context w in
    let '(result, right_) := RTResult_register result r in
    if should_return result then Ret (result, w)
    else
      let* left_ := need left_ in
      let* right_ := need right_ in
      match binary_method operator_token with
      | None => (* [error] was never bound *) Raise UnboundLocalError
      | Some method =>
          let* (calc, w) := method left_ right_ w in
          match calc with
          | inr error => Ret (RTResult_failure error, w)
          | inl calc_result =>
              Ret (RTResult_success (Some (node_stamp calc_result node)), w)
          end
      end.

Definition visit_UnaryOpNode (self : InterpreterSelf) (node : Node)
    (operator_token : Token) (operand : Node) (context : Context) (w : World)
    : host (RTResult * World) :=
  let* (r, w) := self_visit self operand context w in
  let '(result, number) := RTResult_register RTResult_new r in
  if should_return result then Ret (result, w)
  else
    let* number := need number in
    let* (calc, w) :=
      if TokenType_eqb (type operator_token) TOKEN_TYPE_MINUS
      then multiplied_by number (VNumber (PInt (-1)) no_stamp) w
      else if matches operator_token TOKEN_TYPE_KEYWORD "NOT"
      then Ret (notted number, w)
      else Ret (inl number, w) in
    match calc with
    | inr error => Ret (RTResult_failure error, w)
    | inl number => Ret (RTResult_success (Some (node_stamp number node)), w)
    end.

(** A branch of an [IfNode]: its value, or the unit value for the
    multi-line form. *)
Definition visit_branch (self : InterpreterSelf) (result : RTResult)
    (expr : Node) (should_return_none : bool) (context : Context) (w : World)
    : host (RTResult * World) :=
  let* (r, w) := self_visit self expr context w in
  let '(result, expr_value) := RTResult_register result r in
  if should_return result then Ret (result, w)
  else Ret (RTResult_success
              (if should_return_none then Some Number_none else expr_value), w).

Fixpoint visit_cases (self : InterpreterSelf) (result : RTResult)
    (cases : list (Node * Node * bool)) (else_case : option (Node * bool))
    (context : Context) (w : World) : host (RTResult * World) :=
  match cases with
  | (condition, expr, should_return_none) :: rest =>
      let* (r, w) := self_visit self condition context w in
      let '(result, condition_value) := RTResult_register result r in
      if should_return result then Ret (result, w)
      else
        let* condition_value := need condition_value in
        if is_true condition_value
        then visit_branch self result expr should_return_none context w
        else visit_cases self result rest else_case context w
  | [] =>
      match else_case with
      | Some (expr, should_return_none) =>
          visit_branch self result expr should_return_none context w
      | None => Ret (RTResult_success (Some Number_none), w)
      end
  end.

Definition visit_IfNode (self : InterpreterSelf)
    (cases : list (Node * Node * bool)) (else_case : option (Node * bool))
    (context : Context) (w : World) : host (RTResult * World) :=
  visit_cases self RTResult_new cases else_case context w.

(** The attribute [value] of a [Number] or a [String]; the other classes
    have none. *)
Inductive hostval : Type :=
  | HNum (n : pynum)
  | HStr (s : string).

Definition value_attr (v : Value) : host hostval :=
  match v with
  | VNumber n _ => Ret (HNum n)
  | VString s _ => Ret (HStr s)
  | _ => Raise AttributeError
  end.

Definition host_lt (a b : hostval) : host bool :=
  match a, b with
  | HNum x, HNum y => Ret (num_lt x y)
  | HStr x, HStr y => Ret (String.ltb x y)
  | _, _ => Raise TypeError
  end.

Definition host_gt (a b : hostval) : host bool :=
  match a, b with
  | HNum x, HNum y => Ret (num_gt x y)
  | HStr x, HStr y => Ret (String.ltb y x)
  | _, _ => Raise TypeError
  end.

(** [i < end if step >= 0 else i > end] *)
Definition for_condition (i : hostval) (end_value step_value : Value) : host bool :=
  let* s := value_attr step_value in
  match s with
  | HStr _ => Raise TypeError
  | HNum s =>
      let* e := value_attr end_value in
      if num_ge s (PInt 0) then host_lt i e else host_gt i e
  end.

(** The loop of [visit_ForNode], from the counter [i]. *)
Fixpoint for_loop (fuel : nat) (self : InterpreterSelf) (name : string)
    (body_node : Node) (context : Context) (end_value step_value : Value)
    (i : hostval) (result : RTResult) (elements : list Value) (w : World)
    : host (RTResult * option (list Value) * World) :=
  match fuel with
  | O => OutOfFuel
  | S fuel' =>
      let* condition := for_condition i end_value step_value in
      if negb condition then Ret (result, Some elements, w)
      else
        match i, step_value with
        | HNum n, VNumber s _ =>
            let* w := SymbolTable_set w (symbol_table context) name
                        (VNumber n no_stamp) in
            let* next := num_add n s in
            let* (r, w) := self_visit self body_node context w in
            let '(result, v) := RTResult_register result r in
            if should_return result
               && negb (loop_should_continue result)
               && negb (loop_should_break result)
            then Ret (result, None, w)
            else if loop_should_continue result then
              for_loop fuel' self name body_node context end_value step_value
                (HNum next) result elements w
            else if loop_should_break result then Ret (result, Some elements, w)
            else
              let* v := need v in
              for_loop fuel' self name body_node context end_value step_value
                (HNum next) result (append elements v) w
        | _, _ => (* a text counter cannot be stepped *) Raise TypeError
        end
  end.

(** The value of a finished loop: unit for the statement form, else the
    list of the collected values. *)
Definition loop_value (node : Node) (should_return_none : bool)
    (elements : list Value) (context : Context) (w : World)
    : RTResult * World :=
  if should_return_none then (RTResult_success (Some Number_none), w)
  else
    let '(l, w) := alloc_list w elements in
    (RTResult_success
       (Some (node_stamp (set_context (VList l no_stamp) (Some context)) node)), w).

Definition visit_ForNode (self : InterpreterSelf) (node : Node)
    (var_name_token : Token) (start_value_node end_value_node : Node)
    (step_value_node : option Node) (body_node : Node)
    (should_return_none : bool) (context : Context) (w : World)
    : host (RTResult * World) :=
  let* (r, w) := self_visit self start_value_node context w in
  let '(result, start_value) := RTResult_register RTResult_new r in
  if should_return result then Ret (result, w)
  else
    let* (r, w) := self_visit self end_value_node context w in
    let '(result, end_value) := RTResult_register result r in
    if should_return result then Ret (result, w)
    else
      let* (result, step_value, w) :=
        match step_value_node with
        | Some n =>
            let* (r, w) := self_visit self n context w in
            let '(result, v) := RTResult_register result r in
            Ret (result, v, w)
        | None => Ret (result, Some (VNumber (PInt 1) no_stamp), w)
        end in
      if should_return result then Ret (result, w)
      else
        let* start_value := need start_value in
        let* end_value := need end_value in
        let* step_value := need step_value in
        let* i := value_attr start_value in
        let* (result, elements, w) :=
          for_loop (fuel_left self) self (token_name var_name_token) body_node
            context end_value step_value i result [] w in
        match elements with
        | None => Ret (result, w)
        | Some elements =>
            Ret (loop_value node should_return_none elements context w)
        end.

Fixpoint while_loop (fuel : nat) (self : InterpreterSelf)
    (condition_node body_node : Node) (context : Context)
    (result : RTResult) (elements : list Value) (w : World)
    : host (RTResult * option (list Value) * World) :=
  match fuel with
  | O => OutOfFuel
  | S fuel' =>
      let* (r, w) := self_visit self condition_node context w in
      let '(result, condition) := RTResult_register result r in
      if should_return result then Ret (result, None, w)
      else
        let* condition := need condition in
        if negb (is_true condition) then Ret (result, Some elements, w)
        else
          let* (r, w) := self_visit self body_node context w in
          let '(result, v) := RTResult_register result r in
          if should_return result
             && negb (loop_should_continue result)
             && negb (loop_should_break result)
          then Ret (result, None, w)
          else if loop_should_continue result then
            while_loop fuel' self condition_node body_node context result elements w
          else if loop_should_break result then Ret (result, Some elements, w)
          else
            let* v := need v in
            while_loop fuel' self condition_node body_node context result
              (append elements v) w
  end.

Definition visit_WhileNode (self : InterpreterSelf) (node : Node)
    (condition_node body_node : Node) (should_return_none : bool)
    (context : Context) (w : World) : host (RTResult * World) :=
  let* (result, elements, w) :=
    while_loop (fuel_left self) self condition_node body_node context
      RTResult_new [] w in
  match elements with
  | None => Ret (result, w)
  | Some elements => Ret (loop_value node should_return_none elements context w)
  end.

Definition visit_FuncDefNode (node : Node) (var_name_token : option Token)
    (arg_name_tokens : list Token) (body_node : Node)
    (should_auto_return : bool) (context : Context) (w : World)
    : host (RTResult * World) :=
  let func_name := match var_name_token with
                   | Some t => token_name t
                   | None => ""
                   end in
  let name := if String.eqb func_name "" then "<anonymous>" else func_name in
  let arg_names := map token_name arg_name_tokens in
  let func_value :=
    node_stamp
      (set_context (VFunction name body_node arg_names should_auto_return no_stamp)
         (Some context)) node in
  let* w := match var_name_token with
            | Some _ => SymbolTable_set w (symbol_table context) func_name func_value
            | None => Ret w
            end in
  Ret (RTResult_success (Some func_value), w).

Definition visit_CallNode (self : InterpreterSelf) (node : Node)
    (node_to_call : Node) (arg_nodes : list Node) (context : Context)
    (w : World) : host (RTResult * World) :=
  let* (r, w) := self_visit self node_to_call context w in
  let '(result, value_to_call) := RTResult_register RTResult_new r in
  if should_return result then Ret (result, w)
  else
    let* value_to_call := need value_to_call in
    let value_to_call := node_stamp (copy value_to_call) node in
    let* (result, args, w) := visit_each self arg_nodes context result [] w in
    if should_return result then Ret (result, w)
    else
      let* (r, w) := execute self value_to_call args w in
      let '(result, return_value) := RTResult_register result r in
      if should_return result then Ret (result, w)
      else
        let* return_value := need return_value in
        Ret (RTResult_success
               (Some (set_context (node_stamp (copy return_value) node)
                        (Some context))), w).

Definition visit_ReturnNode (self : InterpreterSelf)
    (node_to_return : option Node) (context : Context) (w : World)
    : host (RTResult * World) :=
  match node_to_return with
  | Some n =>
      let* (r, w) := self_visit self n context w in
      let '(result, v) := RTResult_register RTResult_new r in
      if should_return result then Ret (result, w)
      else Ret (RTResult_success_return v, w)
  | None => Ret (RTResult_success_return (Some Number_none), w)
  end.

Definition visit_ContinueNode (w : World) : host (RTResult * World) :=
  Ret (RTResult_success_continue, w).

Definition visit_BreakNode (w : World) : host (RTResult * World) :=
  Ret (RTResult_success_break, w).

(** [text.split("/")[-1]] *)
Fixpoint last_component (s : string) (acc : string) : string :=
  match s with
  | EmptyString => acc
  | String c r =>
      if Ascii.eqb c "/" then last_component r ""
      else last_component r (acc ++ str_of_char c)
  end.

(** The end of [visit_ImportNode], once [run] has returned: an error of
    the lexer or the parser is wrapped, an error of the evaluation is handed
    on, and otherwise the statement has the unit value. *)
Definition import_finish (string_node : Node) (context : Context)
    (fname : string) (result : RTResult)
    (out : option RunValue * option Error * World) : host (RTResult * World) :=
  let '(run_result, error, w) := out in
  match error with
  | Some e =>
      let* t := as_string e in
      Ret (RTResult_failure
             (RTError (Some (Position_copy (node_pos_start string_node)))
                (Some (Position_copy (node_pos_end string_node)))
                ("Failed to IMPORT script " ++ quoted fname ++ nl ++ t)
                (Some context)), w)
  | None =>
      match run_result with
      | Some (FullResult run_result) =>
          let '(result, _) := RTResult_register result run_result in
          match rt_error result with
          | Some _ => Ret (result, w)
          | None => Ret (RTResult_success (Some Number_none), w)
          end
      | _ => Raise AttributeError
      end
  end.

Definition visit_ImportNode (self : InterpreterSelf) (node : Node)
    (string_node : Node) (context : Context) (w : World)
    : host (RTResult * World) :=
  let* (r, w) := self_visit self string_node context w in
  let '(result, filepath) := RTResult_register RTResult_new r in
  match filepath with
  | Some (VString path _) =>
      match files w !! path with
      | None =>
          Ret (RTResult_failure
                 (RTError (Some (Position_copy (node_pos_start string_node)))
                    (Some (Position_copy (node_pos_end string_node)))
                    ("Can't find file '" ++ path ++ "'") (Some context)), w)
      | Some code =>
          let fname := last_component path "" in
          let* out :=
            run_body self fname code (Some context)
              (Some (Position_copy (node_pos_start node))) true w in
          import_finish string_node context fname result out
      end
  | Some (VNumber (PInt _) _) => (* a file descriptor *) HostLib "open"
  | Some (VNumber (PFloat _) _) => Raise TypeError
  | _ => Raise AttributeError
  end.

(** [Interpreter.visit]: the method [visit_<class of the node>]. *)
Definition dispatch (self : InterpreterSelf) (node : Node) (context : Context)
    (w : World) : host (RTResult * World) :=
  match node with
  | NumberNode token _ _ => visit_NumberNode node token context w
  | StringNode token _ _ => visit_StringNode node token context w
  | ListNode element_nodes _ _ => visit_ListNode self node element_nodes context w
  | VarAccessNode t _ _ => visit_VarAccessNode node t context w
  | VarAssignNode t value_node _ _ => visit_VarAssignNode self t value_node context w
  | BinOpNode l op r _ _ => visit_BinOpNode self node l op r context w
  | UnaryOpNode op n _ _ => visit_UnaryOpNode self node op n context w
  | IfNode cases else_case _ _ => visit_IfNode self cases else_case context w
  | ForNode t a b s body none _ _ => visit_ForNode self node t a b s body none context w
  | WhileNode c body none _ _ => visit_WhileNode self node c body none context w
  | FuncDefNode t args body auto _ _ => visit_FuncDefNode node t args body auto context w
  | CallNode f args _ _ => visit_CallNode self node f args context w
  | ReturnNode n _ _ => visit_ReturnNode self n context w
  | ContinueNode _ _ => visit_ContinueNode w
  | BreakNode _ _ => visit_BreakNode w
  | ImportNode n _ _ => visit_ImportNode self node n context w
  end.

Fixpoint interpreter (fuel : nat) : InterpreterSelf :=
  match fuel with
  | O => mkInterpreterSelf O (fun _ _ _ => OutOfFuel)
  | S fuel' => mkInterpreterSelf fuel' (dispatch (interpreter fuel'))
  end.

Definition visit (fuel : nat) : Node -> Context -> World -> host (RTResult * World) :=
  self_visit (interpreter fuel).

(** ** The entry point *)

Definition run (fuel : nat) (fname txt : string) (context : option Context)
    (entry_pos : option Position) (return_result : bool) (w : World)
    : host (option RunValue * option Error * World) :=
  run_body (interpreter fuel) fname txt context entry_pos return_result w.

(** The store when the module is loaded: the global symbol table with the
    built-in constants and functions. *)
Definition builtin (name : string) : Value := VBuiltInFunction name no_stamp.

Definition global_symbols : gmap string Value :=
  list_to_map
    [("NONE", Number_none); ("FALSE", Number_false); ("TRUE", Number_true);
     ("MATH_PI", Number_math_PI);
     ("PRINT", builtin "print"); ("PRINT_RET", builtin "print_ret");
     ("INPUT", builtin "input"); ("INPUT_INT", builtin "input_int");
     ("CLEAR", builtin "clear"); ("CLS", builtin "clear");
     ("IS_NUM", builtin "is_number"); ("IS_STR", builtin "is_string");
     ("IS_LIST", builtin "is_list"); ("IS_FUN", builtin "is_function");
     ("APPEND", builtin "append"); ("POP", builtin "pop");
     ("EXTEND", builtin "extend"); ("LEN", builtin "len");
     ("RUN", builtin "run")].

Definition initial_world (console : list string) (fs : gmap string string) : World :=
  mkWorld ∅ {[ global_symbol_table := mkSymbolTable global_symbols None ]} 1%nat
    [] console fs.

(** ** Observations on concrete programs

    The functions below run a stage of the pipeline on a source text and
    keep what a statement needs to name: token kinds and values, the message
    and place of an error, the elements of a list value. *)

Definition source_name : string := "<stdin>".

Definition lex_summary (txt : string)
    : host (list (TokenType * TokenValue) * option string) :=
  let* (ts, e) := make_tokens (Lexer_new source_name txt) in
  Ret (map (fun t => (type t, value t)) ts, option_map details e).

(** The tokens of a text, when the lexer accepts it. *)
Definition tokens_of (txt : string) : list Token :=
  match make_tokens (Lexer_new source_name txt) with
  | Ret (ts, None) => ts
  | _ => []
  end.

(** A parser over [toks] whose cursor stands at token [k]. *)
Definition parser_at (toks : list Token) (k : nat) : option Parser :=
  match Parser_new toks with
  | Some p => Some (Nat.iter k Parser_advance p)
  | None => None
  end.

(** Message and start index of an error. *)
Definition error_summary (e : Error) : string * option Z :=
  (details e, option_map theindex (error_pos_start e)).

(** Lex and parse a text: the error of the parse (message, index) and the
    token index where the cursor stopped. *)
Definition parse_summary (fuel : nat) (txt : string)
    : host (option (string * option Z) * Z) :=
  let* p := need (Parser_new (tokens_of txt)) in
  let* (r, p) := parse fuel p in
  Ret (option_map error_summary (pr_error r), token_index p).

(** A value without its stamps: numbers, texts, and lists by their elements
    in the store. *)
Inductive Plain : Type :=
  | PlainNum (n : pynum)
  | PlainStr (s : string)
  | PlainList (xs : list Plain)
  | PlainFun (name : string).

Fixpoint plain (fuel : nat) (w : World) (v : Value) : Plain :=
  match fuel with
  | O => PlainFun "..."
  | S fuel' =>
      match v with
      | VNumber n _ => PlainNum n
      | VString s _ => PlainStr s
      | VList l _ => PlainList (map (plain fuel' w) (get_list w l))
      | VFunction name _ _ _ _ | VBuiltInFunction name _ => PlainFun name
      end
  end.

(** [run] on a text from the initial store, with files [fs]: the plain value
    and the message of the error. *)
Definition run_summary (fuel : nat) (fs : list (string * string)) (txt : string)
    : host (option Plain * option string) :=
  let* (v, e, w) :=
    run fuel source_name txt None None false (initial_world [] (list_to_map fs)) in
  Ret (match v with
       | Some (PlainValue (Some v)) => Some (plain 8 w v)
       | _ => None
       end,
       option_map details e).

(** A decimal literal with a dot whose value is 10^309. *)
Definition overflow_literal : string := "1" ++ repeat_string "0" 309 ++ ".0".

(** The ways the evaluator re-stamps a value it holds: [copy()] (variable
    access, call site, return value), [set_pos] and [set_context]. *)
Inductive Restamp : Type :=
  | DoCopy
  | DoSetPos (ps pe : option Position)
  | DoSetContext (c : option Context).

Definition restamp (v : Value) (op : Restamp) : Value :=
  match op with
  | DoCopy => copy v
  | DoSetPos ps pe => set_pos v ps pe
  | DoSetContext c => set_context v c
  end.

(** A program whose function [inner] is defined where [n] is 7 and called
    where [n] is 100. *)
Definition closure_program : string :=
  "FUN mk(n)" ++ nl ++ "FUN inner() -> n" ++ nl ++ "RETURN inner" ++ nl ++ "END"
  ++ nl ++ "VAR f = mk(7)" ++ nl ++ "FUN caller(n) -> f()" ++ nl ++ "caller(100)".

(** The parser over the tokens of a text, at its first token. *)
Definition parser_of (txt : string) : Parser :=
  match tokens_of txt with
  | t :: _ => mkParser (tokens_of txt) 0 t
  | [] => mkParser [] 0
            (Token_new TOKEN_TYPE_EOF NoValue (mkPosition 0 0 0 "" "") None)
  end.

(** The attempt to parse one statement at token [k] of a text: its error
    (message, index) and the number of tokens it reports as consumed. *)
Definition attempt_summary (fuel : nat) (txt : string) (k : nat)
    : host (option (string * option Z) * Z) :=
  let* (res, _) := statement fuel false false (Nat.iter k Parser_advance (parser_of txt)) in
  Ret (option_map error_summary (pr_error res), advance_count res).

(** Two lines, the second an addition without its right operand. *)
Definition sticky_source : string := "1" ++ nl ++ "2 +".

(** The parser of [sticky_source] at the separator, after the first
    statement, and the attempt made after the separator. *)
Definition sticky_parser : Parser := Parser_advance (parser_of sticky_source).

Definition sticky_attempt : ParseResult * Parser :=
  match statement 40 false false (Parser_advance sticky_parser) with
  | Ret x => x
  | _ => (ParseResult_new, sticky_parser)
  end.

(** The statements [nodes] are evaluated in order from the store [w], each
    to a plain value (no signal), the store of one being the start of the
    next; [values] are their values and [w'] the final store. *)
Inductive evaluated_in_order (self : InterpreterSelf) (context : Context)
    : World -> list Node -> list Value -> World -> Prop :=
  | evaluated_nil w : evaluated_in_order self context w [] [] w
  | evaluated_cons w n r v w1 nodes values w' :
      self_visit self n context w = Ret (r, w1) ->
      should_return r = false ->
      rt_value r = Some v ->
      evaluated_in_order self context w1 nodes values w' ->
      evaluated_in_order self context w (n :: nodes) (v :: values) w'.

(** What [run] returns without its store, and the same for a text run from
    the initial store. *)
Definition run_outcome (fuel : nat) (fs : list (string * string)) (txt : string)
    : host (option RunValue * option Error) :=
  let* (v, e, _) :=
    run fuel source_name txt None None false (initial_world [] (list_to_map fs)) in
  Ret (v, e).

(** The parse of a text and the root of its tree. *)
Definition parsed (fuel : nat) (txt : string) : ParseResult * Parser :=
  match parse fuel (parser_of txt) with
  | Ret x => x
  | _ => (ParseResult_new, parser_of txt)
  end.

Definition root_of (fuel : nat) (txt : string) : Node :=
  match pr_node (fst (parsed fuel txt)) with
  | PNode n => n
  | _ => BreakNode (mkPosition 0 0 0 "" "") (mkPosition 0 0 0 "" "")
  end.

(** The evaluation of the root of a text in the frame of a parentless
    program, from the initial store. *)
Definition evaluated (fuel : nat) (txt : string) : RTResult * World :=
  match dispatch (interpreter fuel) (root_of fuel txt) (program_context None None)
          (initial_world [] ∅) with
  | Ret x => x
  | _ => (RTResult_new, initial_world [] ∅)
  end.

(** The signal that a carrier holds: its error, its returned value and its
    continue and break marks. *)
Definition signal (r : RTResult) : option Error * option Value * bool * bool :=
  (rt_error r, func_return_value r, loop_should_continue r, loop_should_break r).

(** The evaluation [out] ends in the store [w] with a carrier that holds the
    signal of [r]; the same for the loop of a FOR or a WHILE, which is then
    abandoned. *)
Definition forwards (out : host (RTResult * World)) (r : RTResult) (w : World)
    : Prop :=
  exists r', out = Ret (r', w) /\ signal r' = signal r.

Definition loop_forwards (out : host (RTResult * option (list Value) * World))
    (r : RTResult) (w : World) : Prop :=
  exists r', out = Ret (r', None, w) /\ signal r' = signal r.

(** The signal on the full result that [run] returns for a text, from the
    initial store with the files [fs]: the message of its error, whether it
    holds a returned value, and its continue and break marks. *)
Definition signal_summary (r : RTResult) : option string * bool * bool * bool :=
  (option_map details (rt_error r),
   match func_return_value r with Some _ => true | None => false end,
   loop_should_continue r, loop_should_break r).

Definition full_run_signal (fuel : nat) (fs : list (string * string))
    (txt : string) : host (option (option string * bool * bool * bool)) :=
  let* (v, _, _) :=
    run fuel source_name txt None None true (initial_world [] (list_to_map fs)) in
  Ret (match v with
       | Some (FullResult r) => Some (signal_summary r)
       | _ => None
       end).

(** The node [n] evaluates from [w] to the value [v] without signal, ending
    in the store [w']. *)
Definition evaluates (self : InterpreterSelf) (context : Context) (n : Node)
    (w : World) (v : Value) (w' : World) : Prop :=
  exists r, self_visit self n context w = Ret (r, w')
            /\ should_return r = false /\ rt_value r = Some v.

(** The conditions of [cases] are evaluated in order from [w], each to a
    false value without signal; [w'] is the store after the last. *)
Inductive cases_skipped (self : InterpreterSelf) (context : Context)
    : World -> list (Node * Node * bool) -> World -> Prop :=
  | skipped_nil w : cases_skipped self context w [] w
  | skipped_cons w c e b v w1 cases w' :
      evaluates self context c w v w1 ->
      is_true v = false ->
      cases_skipped self context w1 cases w' ->
      cases_skipped self context w ((c, e, b) :: cases) w'.

(** The header of a FOR evaluates from [w], without signal, to the numbers
    [a] and [s] and the value [e]; the step is the Number 1 when the FOR has
    none. *)
Definition for_header (self : InterpreterSelf) (context : Context)
    (start_node end_node : Node) (step_node : option Node) (w : World)
    (a : pynum) (e : Value) (s : pynum) (ss : Stamp) (w' : World) : Prop :=
  exists sa w1 w2,
    evaluates self context start_node w (VNumber a sa) w1
    /\ evaluates self context end_node w1 e w2
    /\ match step_node with
       | Some n => evaluates self context n w2 (VNumber s ss) w'
       | None => VNumber s ss = VNumber (PInt 1) no_stamp /\ w' = w2
       end.

(** [k] iterations of the loop of a FOR, none of them ending it: each
    passes its condition, binds the variable, advances the counter and
    evaluates the body, which gives a value (appended) or asks to continue. *)
Inductive for_iterates (self : InterpreterSelf) (name : string) (body : Node)
    (context : Context) (e : Value) (s : pynum) (ss : Stamp)
    : nat -> pynum -> RTResult -> list Value -> World
      -> pynum -> RTResult -> list Value -> World -> Prop :=
  | for_iterates_none n result els w :
      for_iterates self name body context e s ss 0 n result els w n result els w
  | for_iterates_value k n result els w w1 next r w2 v n' result' els' w' :
      for_condition (HNum n) e (VNumber s ss) = Ret true ->
      SymbolTable_set w (symbol_table context) name (VNumber n no_stamp) = Ret w1 ->
      num_add n s = Ret next ->
      self_visit self body context w1 = Ret (r, w2) ->
      should_return r = false ->
      rt_value r = Some v ->
      for_iterates self name body context e s ss k
        next (fst (RTResult_register result r)) (els ++ [v])%list w2
        n' result' els' w' ->
      for_iterates self name body context e s ss (S k) n result els w
        n' result' els' w'
  | for_iterates_continue k n result els w w1 next r w2 n' result' els' w' :
      for_condition (HNum n) e (VNumber s ss) = Ret true ->
      SymbolTable_set w (symbol_table context) name (VNumber n no_stamp) = Ret w1 ->
      num_add n s = Ret next ->
      self_visit self body context w1 = Ret (r, w2) ->
      loop_should_continue r = true ->
      for_iterates self name body context e s ss k
        next (fst (RTResult_register result r)) els w2 n' result' els' w' ->
      for_iterates self name body context e s ss (S k) n result els w
        n' result' els' w'.

(** [k] iterations of the loop of a WHILE, none of them ending it. *)
Inductive while_iterates (self : InterpreterSelf) (condition_node body : Node)
    (context : Context)
    : nat -> RTResult -> list Value -> World
      -> RTResult -> list Value -> World -> Prop :=
  | while_iterates_none result els w :
      while_iterates self condition_node body context 0 result els w result els w
  | while_iterates_value k result els w rc c w1 r w2 v result' els' w' :
      self_visit self condition_node context w = Ret (rc, w1) ->
      should_return rc = false ->
      rt_value rc = Some c ->
      is_true c = true ->
      self_visit self body context w1 = Ret (r, w2) ->
      should_return r = false ->
      rt_value r = Some v ->
      while_iterates self condition_node body context k
        (fst (RTResult_register (fst (RTResult_register result rc)) r))
        (els ++ [v])%list w2 result' els' w' ->
      while_iterates self condition_node body context (S k) result els w
        result' els' w'
  | while_iterates_continue k result els w rc c w1 r w2 result' els' w' :
      self_visit self condition_node context w = Ret (rc, w1) ->
      should_return rc = false ->
      rt_value rc = Some c ->
      is_true c = true ->
      self_visit self body context w1 = Ret (r, w2) ->
      loop_should_continue r = true ->
      while_iterates self condition_node body context k
        (fst (RTResult_register (fst (RTResult_register result rc)) r))
        els w2 result' els' w' ->
      while_iterates self condition_node body context (S k) result els w
        result' els' w'.

(** The places where a node takes the result of a sub-evaluation: a child
    node, the body of its own loop, the function that a call executes, the
    program that an IMPORT runs. *)
Inductive Site : Type :=
  | Child
  | LoopBody
  | Callee
  | Program.

(** [observes self context node w site r w1]: in the evaluation of [node]
    from the store [w], the evaluator registers at [site] the result [r] of a
    sub-evaluation that ends in the store [w1]. *)
Inductive observes (self : InterpreterSelf) (context : Context)
    : Node -> World -> Site -> RTResult -> World -> Prop :=
  | observes_element pre n post ps pe w values w0 r w1 :
      evaluated_in_order self context w pre values w0 ->
      self_visit self n context w0 = Ret (r, w1) ->
      observes self context (ListNode (pre ++ n :: post) ps pe) w Child r w1
  | observes_assigned t n ps pe w r w1 :
      self_visit self n context w = Ret (r, w1) ->
      observes self context (VarAssignNode t n ps pe) w Child r w1
  | observes_left l op rn ps pe w r w1 :
      self_visit self l context w = Ret (r, w1) ->
      observes self context (BinOpNode l op rn ps pe) w Child r w1
  | observes_right l op rn ps pe w v w0 r w1 :
      evaluates self context l w v w0 ->
      self_visit self rn context w0 = Ret (r, w1) ->
      observes self context (BinOpNode l op rn ps pe) w Child r w1
  | observes_operand op n ps pe w r w1 :
      self_visit self n context w = Ret (r, w1) ->
      observes self context (UnaryOpNode op n ps pe) w Child r w1
  | observes_condition pre c e b post else_case ps pe w w0 r w1 :
      cases_skipped self context w pre w0 ->
      self_visit self c context w0 = Ret (r, w1) ->
      observes self context (IfNode (pre ++ (c, e, b) :: post) else_case ps pe)
        w Child r w1
  | observes_branch pre c e b post else_case ps pe w w0 v w1 r w2 :
      cases_skipped self context w pre w0 ->
      evaluates self context c w0 v w1 ->
      is_true v = true ->
      self_visit self e context w1 = Ret (r, w2) ->
      observes self context (IfNode (pre ++ (c, e, b) :: post) else_case ps pe)
        w Child r w2
  | observes_else cases e b ps pe w w0 r w1 :
      cases_skipped self context w cases w0 ->
      self_visit self e context w0 = Ret (r, w1) ->
      observes self context (IfNode cases (Some (e, b)) ps pe) w Child r w1
  | observes_start var a b s body none ps pe w r w1 :
      self_visit self a context w = Ret (r, w1) ->
      observes self context (ForNode var a b s body none ps pe) w Child r w1
  | observes_end var a b s body none ps pe w v w0 r w1 :
      evaluates self context a w v w0 ->
      self_visit self b context w0 = Ret (r, w1) ->
      observes self context (ForNode var a b s body none ps pe) w Child r w1
  | observes_step var a b s body none ps pe w v w0 v' w0' r w1 :
      evaluates self context a w v w0 ->
      evaluates self context b w0 v' w0' ->
      self_visit self s context w0' = Ret (r, w1) ->
      observes self context (ForNode var a b (Some s) body none ps pe) w Child r w1
  | observes_for_body var a b step body none ps pe w i e s ss w0
        k n result els w1 w2 next r w3 :
      for_header self context a b step w i e s ss w0 ->
      for_iterates self (token_name var) body context e s ss
        k i RTResult_new [] w0 n result els w1 ->
      (k < fuel_left self)%nat ->
      for_condition (HNum n) e (VNumber s ss) = Ret true ->
      SymbolTable_set w1 (symbol_table context) (token_name var)
        (VNumber n no_stamp) = Ret w2 ->
      num_add n s = Ret next ->
      self_visit self body context w2 = Ret (r, w3) ->
      observes self context (ForNode var a b step body none ps pe) w LoopBody r w3
  | observes_while_condition c body none ps pe w k result els w0 r w1 :
      while_iterates self c body context k RTResult_new [] w result els w0 ->
      (k < fuel_left self)%nat ->
      self_visit self c context w0 = Ret (r, w1) ->
      observes self context (WhileNode c body none ps pe) w Child r w1
  | observes_while_body c body none ps pe w k result els w0 v w1 r w2 :
      while_iterates self c body context k RTResult_new [] w result els w0 ->
      (k < fuel_left self)%nat ->
      evaluates self context c w0 v w1 ->
      is_true v = true ->
      self_visit self body context w1 = Ret (r, w2) ->
      observes self context (WhileNode c body none ps pe) w LoopBody r w2
  | observes_callee f args ps pe w r w1 :
      self_visit self f context w = Ret (r, w1) ->
      observes self context (CallNode f args ps pe) w Child r w1
  | observes_argument f pre n post ps pe w v w0 values w1 r w2 :
      evaluates self context f w v w0 ->
      evaluated_in_order self context w0 pre values w1 ->
      self_visit self n context w1 = Ret (r, w2) ->
      observes self context (CallNode f (pre ++ n :: post) ps pe) w Child r w2
  | observes_called f args ps pe w v w0 values w1 r w2 :
      evaluates self context f w v w0 ->
      evaluated_in_order self context w0 args values w1 ->
      execute self (node_stamp (copy v) (CallNode f args ps pe)) values w1
      = Ret (r, w2) ->
      observes self context (CallNode f args ps pe) w Callee r w2
  | observes_returned n ps pe w r w1 :
      self_visit self n context w = Ret (r, w1) ->
      observes self context (ReturnNode (Some n) ps pe) w Child r w1
  | observes_imported n ps pe w r0 path st w0 code r w1 :
      self_visit self n context w = Ret (r0, w0) ->
      rt_value r0 = Some (VString path st) ->
      files w0 !! path = Some code ->
      run_body self (last_component path "") code (Some context)
        (Some (Position_copy ps)) true w0
      = Ret (Some (FullResult r), None, w1) ->
      observes self context (ImportNode n ps pe) w Program r w1.
(** A carrier holds at most one signal. *)
Definition one_signal (r : RTResult) : bool :=
  match rt_error r, func_return_value r,
        loop_should_continue r, loop_should_break r with
  | _, None, false, false => true
  | None, _, false, false => true
  | None, None, _, false => true
  | None, None, false, _ => true
  | _, _, _, _ => false
  end.

(** [SymbolTable.remove]: [del self.symbols[name]]. *)
Definition SymbolTable_remove (w : World) (t : loc) (name : string) : host World :=
  match tables w !! t with
  | None => Raise AttributeError
  | Some tbl =>
      match symbols tbl !! name with
      | None => Raise KeyError
      | Some _ =>
          Ret (mkWorld (lists w)
                 (<[t := mkSymbolTable (delete name (symbols tbl)) (table_parent tbl)]>
                    (tables w))
                 (next_loc w) (stdout w) (stdin w) (files w))
      end
  end.

(** The lookup of [name] from the table [t]: the nearest binding along the
    chain of parents, or none. *)
Inductive resolves (w : World) (name : string) : loc -> option Value -> Prop :=
  | resolves_here t tbl v :
      tables w !! t = Some tbl ->
      symbols tbl !! name = Some v ->
      resolves w name t (Some v)
  | resolves_nowhere t tbl :
      tables w !! t = Some tbl ->
      symbols tbl !! name = None ->
      table_parent tbl = None ->
      resolves w name t None
  | resolves_above t tbl up r :
      tables w !! t = Some tbl ->
      symbols tbl !! name = None ->
      table_parent tbl = Some up ->
      resolves w name up r ->
      resolves w name t r.

(** The tables of a store were allocated one after the other, each under a
    parent that was there before it. *)
Definition store_ok (w : World) : Prop :=
  forall t tbl,
    tables w !! t = Some tbl ->
    (t < next_loc w)%nat
    /\ forall up, table_parent tbl = Some up -> (up < t)%nat.

(** Small nodes for examples: the literal of an integer and the token of a
    name, placed at the start of an empty text. *)
Definition origin : Position := mkPosition 0 0 0 source_name "".

Definition number_node (z : Z) : Node :=
  NumberNode (Token_new TOKEN_TYPE_INT (NumValue (PInt z)) origin (Some origin))
    origin origin.

Definition name_token (s : string) : Token :=
  Token_new TOKEN_TYPE_IDENTIFIER (StrValue s) origin (Some origin).

(** The value of [number_node z] in the frame [ctx]. *)
Definition number_value (z : Z) (ctx : Context) : Value :=
  VNumber (PInt z) (mkStamp (Some origin) (Some origin) (Some ctx)).

(** A token that is not the end-of-file token. *)
Definition not_eof (t : Token) : Prop := type t <> TOKEN_TYPE_EOF.

(** The line and the column reached after the characters of [s], from the
    line [line] and the column [col]: a newline starts a line. *)
Fixpoint line_and_column (s : string) (line col : Z) : Z * Z :=
  match s with
  | EmptyString => (line, col)
  | String c r =>
      if Ascii.eqb c newline_char then line_and_column r (line + 1) 0
      else line_and_column r line (col + 1)
  end.

(** A text without quote and without backslash. *)
Fixpoint plain_text (s : string) : bool :=
  match s with
  | EmptyString => true
  | String c r =>
      negb (Ascii.eqb c quote_char) && negb (Ascii.eqb c backslash_char)
      && plain_text r
  end.

(** The table and the frame that a call builds, in the store [w], for a
    function value [f] whose context is [defining]: a new empty table under
    the table of [defining]. *)
Definition execution_scope (defining : Context) : SymbolTable :=
  mkSymbolTable ∅ (Some (symbol_table defining)).

Definition execution_frame (f : Value) (name : string) (defining : Context)
    (w : World) : Context :=
  mkContext name (Some defining) (value_pos_start f) (next_loc w).

(** A program whose function [f] calls the built-in [LEN] by its name, on a
    Number, which [LEN] refuses. *)
Definition builtin_call_program : string := "FUN f() -> LEN(1)" ++ nl ++ "f()".

(** The frames of a context, innermost first: the name of each and the
    location of its symbol table. *)
Fixpoint frames (c : Context) : list (string * loc) :=
  match c with
  | mkContext name (Some up) _ t => (name, t) :: frames up
  | mkContext name None _ t => [(name, t)]
  end.

(** Where the error of a run from the initial store arose: its message, the
    frames of its context, and the parent of the symbol table of the
    innermost frame. *)
Definition error_scope (fuel : nat) (txt : string)
    : host (option (string * list (string * loc) * option loc)) :=
  let* (_, e, w) :=
    run fuel source_name txt None None false (initial_world [] ∅) in
  Ret (match e with
       | Some e =>
           match error_context e with
           | Some c =>
               Some (details e, frames c,
                     match tables w !! symbol_table c with
                     | Some tbl => table_parent tbl
                     | None => None
                     end)
           | None => None
           end
       | None => None
       end).

(* ================================================================== *)
(** * Properties *)

(** ** Generic facts *)

Lemma bind_Ret_inv {A B} (m : host A) (k : A -> host B) (b : B) :
  host_bind m k = Ret b -> exists a, m = Ret a /\ k a = Ret b.
Proof. destruct m; simpl; intros H; try discriminate. eauto. Qed.

Lemma bind_Ret {A B} (a : A) (k : A -> host B) : host_bind (Ret a) k = k a.
Proof. reflexivity. Qed.

(** Inversion of an equation [let* x := m in k = Ret b]. *)
Ltac inv_bind H :=
  let a := fresh "a" in
  let Hm := fresh "Hm" in
  apply bind_Ret_inv in H; destruct H as (a & Hm & H).

(** ** C2: a String times a Number *)

(** [String] names its repetition method [multplied_by]; the evaluator calls
    [multiplied_by], which [String] inherits from [Value]. *)
Lemma String_multiplied_by_dispatch s st (other : Value) (w : World) :
  multiplied_by (VString s st) other w
  = Ret (inr (illegal_operation (VString s st) (Some other)), w).
Proof. reflexivity. Qed.

(** C2 (code_bug): for every String [s] and Number [n] the operator [*]
    reports the runtime error "Illegal operation" instead of the repeated
    text: the method the evaluator dispatches to is the inherited one, for
    every pair of operands, in every evaluation of a product node whose
    operands evaluate to a String and a Number, and on the program
    ["ab" * 3]. *)
Theorem string_times_number_is_illegal :
  (forall s st n st' w,
      multiplied_by (VString s st) (VNumber n st') w
      = Ret (inr (illegal_operation (VString s st) (Some (VNumber n st'))), w))
  /\ (forall self l op r ps pe ctx w s st n st' w1 w2,
        type op = TOKEN_TYPE_MULTIPLY ->
        self_visit self l ctx w = Ret (RTResult_success (Some (VString s st)), w1) ->
        self_visit self r ctx w1 = Ret (RTResult_success (Some (VNumber n st')), w2) ->
        dispatch self (BinOpNode l op r ps pe) ctx w
        = Ret (RTResult_failure
                 (illegal_operation (VString s st) (Some (VNumber n st'))), w2))
  /\ run_summary 60 [] (quoted "ab" ++ " * 3") = Ret (None, Some "Illegal operation").
Proof.
  split; [reflexivity|]. split.
  - intros self l op r ps pe ctx w s st n st' w1 w2 Hop Hl Hr.
    simpl. unfold visit_BinOpNode. rewrite Hl. simpl. rewrite Hr. simpl.
    unfold binary_method. rewrite Hop. reflexivity.
  - vm_compute. reflexivity.
Qed.

(** ** C3: anonymous functions with parameters *)

(** C3 (code_bug): the parameter parser reads [var_name_token.value] before
    it looks at the first parameter, so for an anonymous definition (no name
    token) with a parameter the host raises [AttributeError]; only the
    parameterless form goes on to the arrow. On [FUN (a, b) -> a + b] the
    whole parse ends with that exception. *)
Theorem anonymous_function_with_parameter_raises :
  (forall self result params p,
      parse_params_and_arrow self result None params p
      = if current_is p TOKEN_TYPE_RPAREN
        then checkfor_parse_arrow self result None params p
        else Raise AttributeError)
  /\ parse_summary 60 "FUN (a, b) -> a + b" = Raise AttributeError
  /\ parse_summary 60 "FUN f(a, b) -> a + b" = Ret (None, 11)
  /\ parse_summary 60 "FUN () -> 1" = Ret (None, 5).
Proof.
  split.
  - intros. unfold parse_params_and_arrow.
    destruct (current_is p TOKEN_TYPE_RPAREN); reflexivity.
  - repeat split; vm_compute; reflexivity.
Qed.

(** ** C4: overflow and underflow of numeric literals *)

(** C4 (code_bug): [make_number] compares the value of
    [math.isinf(x) or math.log10(x)] with 308; for an infinite [x] that value
    is [True], which is below 308, so a literal with a dot that converts to
    infinity is accepted as a FLOAT token carrying infinity.  In
    [make_exponent_number] a literal that converts to zero (as [1e-400]
    does) leaves [thelog10] unbound and ends with [UnboundLocalError]
    instead of the underflow error.  The exponent form of the first value,
    and an integer of the same size, are refused as the claim says. *)
Theorem infinite_decimal_literal_is_accepted :
  (forall ps pe,
      number_checked (PFloat (S754_infinity false)) 1 ps pe
      = Ret (inl (Token_new TOKEN_TYPE_FLOAT
                    (NumValue (PFloat (S754_infinity false))) ps (Some pe))))
  /\ lex_summary overflow_literal
      = Ret ([(TOKEN_TYPE_FLOAT, NumValue (PFloat (S754_infinity false)));
              (TOKEN_TYPE_EOF, NoValue)], None)
  /\ lex_summary "1e-400" = Raise UnboundLocalError
  /\ lex_summary "1e309" = Ret ([], Some "exponent_overflow")
  /\ lex_summary ("1" ++ repeat_string "0" 309) = Ret ([], Some "number_overflow")
  /\ lex_summary "1e-309" = Ret ([], Some "exponent_underflow").
Proof.
  split; [reflexivity|]. repeat split; vm_compute; reflexivity.
Qed.

(** ** C8: the sequence shared by a list and its copies *)

Lemma get_list_set_list w l xs : get_list (set_list w l xs) l = xs.
Proof. unfold get_list, set_list. simpl. rewrite lookup_insert_eq. reflexivity. Qed.

Lemma get_list_set_list_ne w l l' xs :
  l' <> l -> get_list (set_list w l xs) l' = get_list w l'.
Proof.
  intros H. unfold get_list, set_list. simpl.
  rewrite lookup_insert_ne by congruence. reflexivity.
Qed.

Lemma copy_list l st : copy (VList l st) = VList l st.
Proof. destruct st. reflexivity. Qed.

(** C8 (confirmed): [a + x] on a List returns a wrapper over the very
    sequence of [a] (the same location of the store) and appends [x] to that
    sequence, so the element is seen through [a] and through every value
    that holds the location; no other sequence changes.  [a - i] removes the
    element at index [i] from the same shared sequence, or reports the index
    error and changes nothing; an index that does not fit the host's
    [ssize_t] ends with the host's [OverflowError] instead.  On
    [VAR a = [1, 2]; VAR b = a + 3; a] the three statements all show
    [1, 2, 3]. *)
Theorem list_plus_appends_to_the_shared_sequence :
  forall l st x w,
    let w' := set_list w l (append (get_list w l) x) in
    added_to (VList l st) x w = Ret (inl (VList l st), w')
    /\ get_list w' l = (get_list w l ++ [x])%list
    /\ (forall st', plain 2 w' (VList l st')
                    = PlainList (map (plain 1 w') (get_list w l ++ [x])%list))
    /\ (forall l', l' <> l -> get_list w' l' = get_list w l')
    /\ (forall i st',
          subtracted_by (VList l st) (VNumber (PInt i) st') w
          = if fits_ssize_t i then
              Ret (match py_index (Z.of_nat (length (get_list w l))) i with
                   | Some k =>
                       (inl (VList l st),
                        set_list w l (take k (get_list w l)
                                      ++ drop (S k) (get_list w l))%list)
                   | None =>
                       (inr (RTError (value_pos_start (VNumber (PInt i) st'))
                               (value_pos_end (VNumber (PInt i) st'))
                               (ERRORS "list_index_error")
                               (value_context (VList l st))), w)
                   end)
            else Raise OverflowError)
    /\ run_summary 80 [] "VAR a = [1, 2]; VAR b = a + 3; a"
        = Ret (Some (PlainList
                       [PlainList [PlainNum (PInt 1); PlainNum (PInt 2); PlainNum (PInt 3)];
                        PlainList [PlainNum (PInt 1); PlainNum (PInt 2); PlainNum (PInt 3)];
                        PlainList [PlainNum (PInt 1); PlainNum (PInt 2); PlainNum (PInt 3)]]),
               None)
    /\ run_summary 80 [] "VAR a = [1, 2]; VAR b = a - 0; a"
        = Ret (Some (PlainList [PlainList [PlainNum (PInt 2)];
                                PlainList [PlainNum (PInt 2)];
                                PlainList [PlainNum (PInt 2)]]), None).
Proof.
  intros l st x w w'. subst w'.
  split; [| split; [| split; [| split; [| split; [| split]]]]].
  - unfold added_to, List_added_to. rewrite copy_list. reflexivity.
  - apply get_list_set_list.
  - intros st'. simpl. rewrite get_list_set_list. reflexivity.
  - intros l' H. apply get_list_set_list_ne. exact H.
  - intros i st'. unfold subtracted_by, List_subtracted_by, pop_index.
    rewrite copy_list. cbn [int_index host_bind].
    destruct (fits_ssize_t i); [|reflexivity].
    cbn [host_bind]. destruct (py_index _ i); reflexivity.
  - vm_compute. reflexivity.
  - vm_compute. reflexivity.
Qed.

(** ** C6: the context of a function value *)

Lemma is_function_with_stamp v st : is_function (with_stamp v st) = is_function v.
Proof. destruct v; reflexivity. Qed.

Lemma stamp_with_stamp v st : stamp (with_stamp v st) = st.
Proof. destruct v; reflexivity. Qed.

Lemma set_context_fixed v c c' :
  is_function v = true -> value_context v = Some c -> set_context v c' = v.
Proof.
  intros Hf Hc. unfold set_context, BaseFunction_set_context.
  rewrite Hf, Hc. reflexivity.
Qed.

Lemma restamp_keeps_context v c op :
  is_function v = true -> value_context v = Some c ->
  is_function (restamp v op) = true /\ value_context (restamp v op) = Some c.
Proof.
  intros Hf Hc. destruct op as [|ps pe|c']; simpl.
  - unfold copy, set_pos, set_context, BaseFunction_set_context, Value_set_context,
      value_context in *.
    rewrite !is_function_with_stamp, Hf. rewrite !stamp_with_stamp. simpl.
    rewrite !is_function_with_stamp, !stamp_with_stamp. simpl. auto.
  - unfold set_pos, value_context. rewrite is_function_with_stamp, stamp_with_stamp.
    simpl. auto.
  - rewrite (set_context_fixed v c c' Hf Hc). auto.
Qed.

Lemma restamps_keep_context ops : forall v c,
  is_function v = true -> value_context v = Some c ->
  is_function (fold_left restamp ops v) = true
  /\ value_context (fold_left restamp ops v) = Some c.
Proof.
  induction ops as [|op ops IH]; intros v c Hf Hc; simpl; [auto|].
  destruct (restamp_keeps_context v c op Hf Hc) as [Hf' Hc'].
  apply IH; assumption.
Qed.

Lemma with_stamp_stamp v : with_stamp v (stamp v) = v.
Proof. destruct v; reflexivity. Qed.

Lemma with_stamp_twice v st st' : with_stamp (with_stamp v st) st' = with_stamp v st'.
Proof. destruct v; reflexivity. Qed.

(** Copies and re-stampings change the stamp of a value and nothing else. *)
Lemma restamp_is_with_stamp v op : restamp v op = with_stamp v (stamp (restamp v op)).
Proof.
  destruct op as [|ps pe|c']; cbn [restamp].
  - unfold copy, set_pos, set_context, BaseFunction_set_context, Value_set_context.
    rewrite is_function_with_stamp.
    destruct (is_function v);
      [destruct (value_context (with_stamp v no_stamp))|];
      rewrite ?with_stamp_twice, ?stamp_with_stamp; reflexivity.
  - unfold set_pos. rewrite stamp_with_stamp. reflexivity.
  - unfold set_context, BaseFunction_set_context, Value_set_context.
    destruct (is_function v); [destruct (value_context v)|];
      rewrite ?stamp_with_stamp, ?with_stamp_stamp; reflexivity.
Qed.

Lemma restamps_are_with_stamp ops : forall v,
  fold_left restamp ops v = with_stamp v (stamp (fold_left restamp ops v)).
Proof.
  induction ops as [|op ops IH]; intros v; cbn [fold_left].
  - symmetry. apply with_stamp_stamp.
  - rewrite (IH (restamp v op)) at 1. rewrite (restamp_is_with_stamp v op) at 1.
    apply with_stamp_twice.
Qed.

Lemma lookup_after_set w t name v w' c :
  symbol_table c = t ->
  SymbolTable_set w t name v = Ret w' ->
  lookup w' c name = Ret (Some v).
Proof.
  intros Hc Hset. unfold SymbolTable_set in Hset.
  destruct (tables w !! t) as [tbl|] eqn:Ht; [|discriminate].
  injection Hset as <-.
  unfold lookup. rewrite Hc. simpl.
  rewrite lookup_insert_eq. simpl. rewrite lookup_insert_eq. reflexivity.
Qed.

(** The frame of a call of a function value whose context is [c]. *)
Lemma generate_new_context_frame f name c w :
  value_context f = Some c ->
  generate_new_context f name w
  = Ret (execution_frame f name c w, snd (alloc_table w (execution_scope c))).
Proof. intros H. unfold generate_new_context. rewrite H. reflexivity. Qed.

(** C6 (corrected), counterexample: in [builtin_call_program] the built-in
    [LEN] is called by its name in the body of [f].  The error of the call
    arises in the frame of [LEN], whose parent is the frame of [f], the
    caller, and the symbol table of that frame (location 2) is a child of
    the table of the frame of [f] (location 1), not of the global table
    (location 0) that holds [LEN]. *)
Lemma builtin_scope_is_a_child_of_the_callers :
  error_scope 80 builtin_call_program
  = Ret (Some (ERRORS "arg_list_expected",
               [("len", 2%nat); ("f", 1%nat); ("<program>", global_symbol_table)],
               Some 1%nat)).
Proof. vm_compute. reflexivity. Qed.

(** C6 (corrected), as amended.

    - Once a Function or BuiltInFunction value has a context, [set_context]
      leaves the value as it is, and every sequence of copies and
      re-stampings (variable access, call site, parameter binding) keeps
      that context.
    - A Function gets its context where it is defined: the value of a FUN
      node evaluated in the frame [defining] is a Function whose context is
      [defining] (bound to its name there, when it has one), and every call
      of it, however the value was copied and re-stamped on the way, builds
      as its frame a new empty table under the table of [defining], leaves
      all other tables alone, and evaluates the body in that frame.
    - A BuiltInFunction has no context in the table that holds it: the
      access to its name in the frame [caller] gives a copy whose context is
      [caller], and a call of that copy builds its frame under the table of
      [caller] and runs the body of the built-in in that frame.
    - In [closure_program] the function [inner] reads [n] where it was
      defined (7), not where it is called (100). *)
Theorem function_context_is_fixed :
  forall self,
    (forall v c,
        is_function v = true ->
        value_context v = Some c ->
        (forall c', set_context v c' = v)
        /\ (forall ops, value_context (fold_left restamp ops v) = Some c))
    /\ (forall t arg_name_tokens body auto ps pe defining w r w',
          dispatch self (FuncDefNode t arg_name_tokens body auto ps pe) defining w
          = Ret (r, w') ->
          exists name st,
            let arg_names := map token_name arg_name_tokens in
            let v := VFunction name body arg_names auto st in
            r = RTResult_success (Some v)
            /\ value_context v = Some defining
            /\ (forall t0, t = Some t0 ->
                           lookup w' defining (token_name t0) = Ret (Some v))
            /\ (forall ops args w0,
                  let f := fold_left restamp ops v in
                  let frame := execution_frame f name defining w0 in
                  let w1 := snd (alloc_table w0 (execution_scope defining)) in
                  generate_new_context f name w0 = Ret (frame, w1)
                  /\ tables w1 !! symbol_table frame = Some (execution_scope defining)
                  /\ (forall l, l <> symbol_table frame ->
                                tables w1 !! l = tables w0 !! l)
                  /\ (forall w2,
                        check_and_populate_params f arg_names args frame w1
                        = Ret (RTResult_success None, w2) ->
                        execute self f args w0
                        = (let* (r, w3) := self_visit self body frame w2 in
                           Ret (Function_finish auto (RTResult_success None) r, w3)))))
    /\ (forall t ps pe caller w name,
          lookup w caller (token_name t) = Ret (Some (builtin name)) ->
          exists v,
            dispatch self (VarAccessNode t ps pe) caller w
            = Ret (RTResult_success (Some v), w)
            /\ is_function v = true
            /\ value_context v = Some caller
            /\ (forall ops args w0,
                  let f := fold_left restamp ops v in
                  let frame := execution_frame f name caller w0 in
                  let w1 := snd (alloc_table w0 (execution_scope caller)) in
                  generate_new_context f name w0 = Ret (frame, w1)
                  /\ tables w1 !! symbol_table frame = Some (execution_scope caller)
                  /\ (forall arg_names w2,
                        builtin_arg_names name = Ret arg_names ->
                        check_and_populate_params f arg_names args frame w1
                        = Ret (RTResult_success None, w2) ->
                        execute self f args w0
                        = (let* (r, w3) := builtin_body self f name frame w2 in
                           if should_return r
                           then Ret (mkRTResult None (rt_error r) (func_return_value r)
                                       (loop_should_continue r) (loop_should_break r),
                                     w3)
                           else Ret (RTResult_success (rt_value r), w3)))))
    /\ run_summary 80 [] closure_program
       = Ret (Some (PlainList [PlainFun "mk"; PlainFun "inner"; PlainFun "caller";
                               PlainNum (PInt 7)]), None).
Proof.
  intros self. split; [|split; [|split]].
  - intros v c Hf Hc. split.
    + intros c'. apply set_context_fixed with c; assumption.
    + intros ops. apply restamps_keep_context; assumption.
  - intros t arg_name_tokens body auto ps pe defining w r w' H.
    cbn [dispatch] in H. unfold visit_FuncDefNode in H. cbv zeta in H.
    set (func_name := match t with Some t0 => token_name t0 | None => "" end) in H.
    set (name := if String.eqb func_name "" then "<anonymous>" else func_name) in H.
    exists name, (mkStamp (Some ps) (Some pe) (Some defining)).
    cbv zeta.
    set (v := VFunction name body (map token_name arg_name_tokens) auto
                (mkStamp (Some ps) (Some pe) (Some defining))).
    change (node_stamp (set_context (VFunction name body (map token_name arg_name_tokens)
                                       auto no_stamp) (Some defining))
              (FuncDefNode t arg_name_tokens body auto ps pe)) with v in H.
    inv_bind H. injection H as <- <-.
    split; [reflexivity|]. split; [reflexivity|]. split.
    + intros t0 ->. subst func_name.
      eapply lookup_after_set; [reflexivity|exact Hm].
    + intros ops args w0.
      destruct (restamps_keep_context ops v defining eq_refl eq_refl) as [_ Hc].
      pose proof (restamps_are_with_stamp ops v) as Hshape.
      set (f := fold_left restamp ops v) in *.
      pose proof (generate_new_context_frame f name defining w0 Hc) as Hg.
      split; [exact Hg|]. split; [cbn; apply lookup_insert_eq|]. split.
      * intros l Hl. cbn. apply lookup_insert_ne. cbn in Hl. congruence.
      * intros w2 Hp. rewrite Hshape in *. cbn [with_stamp v] in *.
        cbn [execute]. unfold Function_execute. rewrite Hg.
        cbn [host_bind]. rewrite Hp. reflexivity.
  - intros t ps pe caller w name Hlook.
    exists (VBuiltInFunction name (mkStamp (Some ps) (Some pe) (Some caller))).
    set (v := VBuiltInFunction name (mkStamp (Some ps) (Some pe) (Some caller))).
    split; [|split; [reflexivity|split; [reflexivity|]]].
    + cbn [dispatch]. unfold visit_VarAccessNode. cbv zeta. rewrite Hlook.
      reflexivity.
    + intros ops args w0.
      destruct (restamps_keep_context ops v caller eq_refl eq_refl) as [_ Hc].
      pose proof (restamps_are_with_stamp ops v) as Hshape.
      set (f := fold_left restamp ops v) in *.
      pose proof (generate_new_context_frame f name caller w0 Hc) as Hg.
      split; [exact Hg|]. split; [cbn; apply lookup_insert_eq|].
      intros arg_names w2 Hn Hp. rewrite Hshape in *. cbn [with_stamp v] in *.
      cbn [execute]. unfold BuiltInFunction_execute. rewrite Hg.
      cbn [host_bind]. rewrite Hn. cbn [host_bind]. rewrite Hp.
      cbn [host_bind RTResult_register RTResult_new RTResult_success should_return
             rt_value rt_error func_return_value loop_should_continue
             loop_should_break orb].
      destruct (builtin_body self _ name _ w2) as [[r w3]| | |]; reflexivity.
  - vm_compute. reflexivity.
Qed.

(** The value of a definition [FUN f() -> 1] made in a program frame and
    stamped again in a caller's frame; and the built-in [LEN] looked up in
    that caller's frame. *)
Lemma function_context_is_fixed_witness :
  let c := program_context None None in
  let w := snd (alloc_table (initial_world [] ∅) (execution_scope c)) in
  let caller := mkContext "caller" (Some c) None 1%nat in
  let v := VFunction "f" (number_node 1) [] true (mkStamp None None (Some c)) in
  (set_context v (Some caller) = v
   /\ value_context
        (fold_left restamp [DoCopy; DoSetPos None None; DoSetContext (Some caller)] v)
      = Some c)
  /\ exists b,
       dispatch (interpreter 1) (VarAccessNode (name_token "LEN") origin origin) caller w
       = Ret (RTResult_success (Some b), w)
       /\ value_context b = Some caller
       /\ generate_new_context b "len" w
          = Ret (execution_frame b "len" caller w,
                 snd (alloc_table w (execution_scope caller))).
Proof.
  intros c w caller v.
  destruct (function_context_is_fixed (interpreter 1)) as (H1 & _ & H3 & _).
  split.
  - destruct (H1 v c eq_refl eq_refl) as [Ha Hb]. split; [apply Ha|apply Hb].
  - assert (Hl : lookup w caller (token_name (name_token "LEN"))
                 = Ret (Some (builtin "len"))) by (vm_compute; reflexivity).
    destruct (H3 (name_token "LEN") origin origin caller w "len" Hl)
      as (b & E & _ & Hc & Hcall).
    exists b. split; [exact E|]. split; [exact Hc|].
    exact (proj1 (Hcall [] [] w)).
Defined.

(** ** C7: the symbol table of a program frame *)

(** [run] evaluates the root of the parsed program in [program_context]. *)
Lemma run_body_evaluates_in_program_context
    self fname txt context entry_pos return_result w toks p ast p' root :
  make_tokens (Lexer_new fname txt) = Ret (toks, None) ->
  Parser_new toks = Some p ->
  parse (fuel_left self) p = Ret (ast, p') ->
  pr_error ast = None ->
  pr_node ast = PNode root ->
  run_body self fname txt context entry_pos return_result w
  = (let* (result, w') := self_visit self root (program_context context entry_pos) w in
     if return_result then Ret (Some (FullResult result), None, w')
     else Ret (Some (PlainValue (rt_value result)), rt_error result, w')).
Proof.
  intros Hlex Hp Hparse He Hn. unfold run_body.
  rewrite Hlex. simpl. rewrite Hp. simpl. rewrite Hparse. simpl.
  rewrite He, Hn. reflexivity.
Qed.

(** C7 (confirmed): the frame that [run] builds has, under a parent, the
    parent's own symbol table (the same location of the store, no child
    table is allocated) and, without a parent, the global table; [run]
    evaluates the program in that frame; an IMPORT whose file exists runs
    [run] on the file's text with the importing frame as parent and the full
    result asked for; so a variable that the imported code sets through its
    frame is found through the importer's frame.  With the file [lib] holding
    [VAR x = 5; VAR y = 1], the program [VAR y = 0; IMPORT "lib"; x; y] ends
    with [x] = 5 and [y] = 1. *)
Theorem import_shares_the_symbol_table :
  (forall c e,
      symbol_table (program_context (Some c) e) = symbol_table c
      /\ parent (program_context (Some c) e) = Some c)
  /\ (forall e, symbol_table (program_context None e) = global_symbol_table)
  /\ (forall self fname txt context e rr w toks p ast p' root,
        make_tokens (Lexer_new fname txt) = Ret (toks, None) ->
        Parser_new toks = Some p ->
        parse (fuel_left self) p = Ret (ast, p') ->
        pr_error ast = None ->
        pr_node ast = PNode root ->
        run_body self fname txt context e rr w
        = (let* (result, w') := self_visit self root (program_context context e) w in
           if rr then Ret (Some (FullResult result), None, w')
           else Ret (Some (PlainValue (rt_value result)), rt_error result, w')))
  /\ (forall self string_node ps pe context w path st w1 code,
        self_visit self string_node context w
        = Ret (RTResult_success (Some (VString path st)), w1) ->
        files w1 !! path = Some code ->
        dispatch self (ImportNode string_node ps pe) context w
        = (let* out := run_body self (last_component path "") code (Some context)
                         (Some (Position_copy ps)) true w1 in
           import_finish string_node context (last_component path "")
             (RTResult_success None) out))
  /\ (forall c e w name v w',
        SymbolTable_set w (symbol_table (program_context (Some c) e)) name v = Ret w' ->
        lookup w' c name = Ret (Some v))
  /\ run_summary 80 [("lib", "VAR x = 5; VAR y = 1")]
        ("VAR y = 0; IMPORT " ++ quoted "lib" ++ "; x; y")
      = Ret (Some (PlainList [PlainNum (PInt 0); PlainNum (PInt 0);
                              PlainNum (PInt 5); PlainNum (PInt 1)]), None).
Proof.
  split; [intros; split; reflexivity|].
  split; [reflexivity|].
  split; [intros; eapply run_body_evaluates_in_program_context; eassumption|].
  split.
  { intros self string_node ps pe context w path st w1 code Hv Hf.
    simpl. unfold visit_ImportNode. rewrite Hv. simpl. rewrite Hf.
    reflexivity. }
  split.
  { intros c e w name v w' H. eapply lookup_after_set; [|exact H]. reflexivity. }
  vm_compute. reflexivity.
Qed.

(** ** C1: a failed attempt at a further statement *)

Lemma skip_newlines_keeps fuel : forall result p n k r' p',
  skip_newlines fuel result p n = Ret (k, r', p') ->
  pr_error r' = pr_error result
  /\ to_reverse_count r' = to_reverse_count result
  /\ pr_node r' = pr_node result
  /\ current_is p' TOKEN_TYPE_NEWLINE = false.
Proof.
  induction fuel as [|fuel IH]; intros result p n k r' p' H; simpl in H.
  - discriminate.
  - destruct (current_is p TOKEN_TYPE_NEWLINE) eqn:Hc.
    + apply IH in H. simpl in H. exact H.
    + injection H as <- <- <-. auto.
Qed.




(** ** C10: the value of a program *)

Lemma statements_yield_a_list fuel in_a_function in_a_loop p r p' :
  statements fuel in_a_function in_a_loop p = Ret (r, p') ->
  pr_error r = None ->
  exists stmts ps pe, pr_node r = PNode (ListNode stmts ps pe).
Proof.
  destruct fuel as [|fuel]; [discriminate|].
  unfold statements. cbn [parser_self self_statements].
  unfold statements_body. intros H He.
  inv_bind H. destruct a as [[k result] q].
  inv_bind H. destruct a as [res q'].
  destruct (ParseResult_register result res) as [result' st] eqn:Hreg.
  destruct (has_error result') eqn:Herr.
  - injection H as <- <-. unfold has_error in Herr. rewrite He in Herr. discriminate.
  - inv_bind H. inv_bind H. destruct a0 as [[stmts result''] q''].
    injection H as <- <-. simpl. eauto.
Qed.

Lemma parse_yields_a_list fuel p r p' :
  parse fuel p = Ret (r, p') ->
  pr_error r = None ->
  exists stmts ps pe, pr_node r = PNode (ListNode stmts ps pe).
Proof.
  unfold parse. intros H He. inv_bind H. destruct a as [result q].
  destruct (negb (has_error result) && negb (current_is q TOKEN_TYPE_EOF)) eqn:Hc.
  - injection H as <- <-. unfold fail_here, ParseResult_failure in He.
    destruct (pr_error result) eqn:E.
    + apply andb_prop in Hc. destruct Hc as [Hc _].
      unfold has_error in Hc. rewrite E in Hc. discriminate.
    + discriminate.
  - injection H as <- <-. eapply statements_yield_a_list; eassumption.
Qed.

Lemma visit_each_spec self context nodes : forall result values w result' values' w',
  visit_each self nodes context result values w = Ret (result', values', w') ->
  rt_value result' = rt_value result
  /\ (nodes <> [] \/ should_return result = false ->
      should_return result' = false ->
      exists more, values' = (values ++ more)%list
                   /\ evaluated_in_order self context w nodes more w').
Proof.
  induction nodes as [|n nodes IH]; intros result values w result' values' w' H;
    cbn [visit_each] in H.
  - injection H as <- <- <-. split; [reflexivity|]. intros _ _.
    exists []. rewrite app_nil_r. split; [reflexivity|constructor].
  - inv_bind H. destruct a as [r w1]. unfold RTResult_register in H.
    set (result1 := mkRTResult (rt_value result) (rt_error r) (func_return_value r)
                      (loop_should_continue r) (loop_should_break r)) in *.
    assert (Hv3 : should_return result1 = should_return r) by reflexivity.
    destruct (should_return result1) eqn:Hs.
    + injection H as <- <- <-. split; [reflexivity|]. intros _ Hn. congruence.
    + inv_bind H. destruct (rt_value r) as [v|] eqn:Hrv; [|discriminate].
      injection Hm0 as <-.
      apply IH in H. destruct H as [H1 H2]. split; [exact H1|].
      intros _ Hn. destruct H2 as (more & -> & Hev); [right; exact Hs|exact Hn|].
      exists (v :: more). unfold append. rewrite <- app_assoc. split; [reflexivity|].
      econstructor; eauto.
Qed.




(** ** C9: the FOR loop *)

(** A carrier without signal leaves the registering carrier as it was. *)
Lemma register_no_signal result r :
  should_return r = false ->
  RTResult_register result r
  = (mkRTResult (rt_value result) None None false false, rt_value r).
Proof.
  unfold should_return, RTResult_register. intros H.
  destruct (rt_error r); [discriminate|].
  destruct (func_return_value r); [discriminate|].
  destruct (loop_should_continue r); [discriminate|].
  destruct (loop_should_break r); [discriminate|]. reflexivity.
Qed.

Lemma for_condition_numbers i e st s st' :
  for_condition (HNum i) (VNumber e st) (VNumber s st')
  = Ret (if num_ge s (PInt 0) then num_lt i e else num_gt i e).
Proof. unfold for_condition. simpl. destruct (num_ge s (PInt 0)); reflexivity. Qed.

(** C9 (confirmed): the FOR loop.  (1) The start, end and step expressions
    are evaluated once, in that order, before the loop, which runs on their
    values; without a STEP the step is the Number 1.  (2) For numbers the
    loop goes on while the counter is below the end value when the step is
    at least 0, and while it is above the end value otherwise.  (3) When the
    condition fails the loop ends with the values collected so far.  (4) When
    it holds, the variable is bound to the counter in the table of the
    current frame, the body is evaluated in the store so changed, and, the
    body giving a value without signal, the loop goes on from the counter
    plus the step with that value appended.  (5) [FOR i = 0 TO 3 THEN i]
    evaluates to the list [0, 1, 2] (the one statement of its program); a
    negative step counts down; the end expression is not evaluated again
    when the body changes its variable; the body's own assignment to the
    loop variable does not move the counter. *)
Theorem for_loop_semantics :
  (forall self var start_node end_node step_node body srn ps pe ctx w
          r1 w1 r2 w2 a sa e se step w3,
      self_visit self start_node ctx w = Ret (r1, w1) ->
      should_return r1 = false -> rt_value r1 = Some (VNumber a sa) ->
      self_visit self end_node ctx w1 = Ret (r2, w2) ->
      should_return r2 = false -> rt_value r2 = Some (VNumber e se) ->
      (step_node = None /\ step = VNumber (PInt 1) no_stamp /\ w3 = w2
       \/ exists n r3, step_node = Some n
                       /\ self_visit self n ctx w2 = Ret (r3, w3)
                       /\ should_return r3 = false /\ rt_value r3 = Some step) ->
      dispatch self (ForNode var start_node end_node step_node body srn ps pe) ctx w
      = (let* (result, elements, w') :=
           for_loop (fuel_left self) self (token_name var) body ctx
             (VNumber e se) step (HNum a) RTResult_new [] w3 in
         match elements with
         | None => Ret (result, w')
         | Some elements =>
             Ret (loop_value (ForNode var start_node end_node step_node body srn ps pe)
                    srn elements ctx w')
         end))
  /\ (forall i e st s st',
        for_condition (HNum i) (VNumber e st) (VNumber s st')
        = Ret (if num_ge s (PInt 0) then num_lt i e else num_gt i e))
  /\ (forall fuel self name body ctx e s i result elements w,
        for_condition i e s = Ret false ->
        for_loop (S fuel) self name body ctx e s i result elements w
        = Ret (result, Some elements, w))
  /\ (forall fuel self name body ctx e s st n next result elements w w1 r w2 v,
        for_condition (HNum n) e (VNumber s st) = Ret true ->
        SymbolTable_set w (symbol_table ctx) name (VNumber n no_stamp) = Ret w1 ->
        num_add n s = Ret next ->
        self_visit self body ctx w1 = Ret (r, w2) ->
        should_return r = false ->
        rt_value r = Some v ->
        lookup w1 ctx name = Ret (Some (VNumber n no_stamp))
        /\ for_loop (S fuel) self name body ctx e (VNumber s st) (HNum n)
             result elements w
           = for_loop fuel self name body ctx e (VNumber s st) (HNum next)
               (mkRTResult (rt_value result) None None false false)
               (elements ++ [v])%list w2)
  /\ run_summary 80 [] "FOR i = 0 TO 3 THEN i"
     = Ret (Some (PlainList [PlainList [PlainNum (PInt 0); PlainNum (PInt 1);
                                        PlainNum (PInt 2)]]), None)
  /\ run_summary 80 [] "FOR i = 3 TO 0 STEP -1 THEN i"
     = Ret (Some (PlainList [PlainList [PlainNum (PInt 3); PlainNum (PInt 2);
                                        PlainNum (PInt 1)]]), None)
  /\ run_summary 80 [] "VAR n = 3; FOR i = 0 TO n THEN VAR n = n + 1"
     = Ret (Some (PlainList [PlainNum (PInt 3);
                             PlainList [PlainNum (PInt 4); PlainNum (PInt 5);
                                        PlainNum (PInt 6)]]), None)
  /\ run_summary 80 [] "FOR i = 0 TO 3 THEN VAR i = i + 10; i"
     = Ret (Some (PlainList [PlainList [PlainNum (PInt 10); PlainNum (PInt 11);
                                        PlainNum (PInt 12)];
                             PlainNum (PInt 12)]), None).
Proof.
  split.
  { intros self var start_node end_node step_node body srn ps pe ctx w
           r1 w1 r2 w2 a sa e se step w3 H1 S1 V1 H2 S2 V2 H3.
    cbn [dispatch]. unfold visit_ForNode.
    rewrite H1. cbn [host_bind]. rewrite (register_no_signal _ _ S1).
    cbn [should_return rt_error func_return_value loop_should_continue
         loop_should_break orb].
    rewrite H2. cbn [host_bind]. rewrite (register_no_signal _ _ S2).
    cbn [should_return rt_error func_return_value loop_should_continue
         loop_should_break orb rt_value RTResult_new].
    destruct H3 as [(-> & -> & ->)|(n & r3 & -> & H3 & S3 & V3)].
    - cbn [host_bind should_return rt_error func_return_value
           loop_should_continue loop_should_break orb].
      rewrite V1, V2. reflexivity.
    - rewrite H3. cbn [host_bind]. rewrite (register_no_signal _ _ S3).
      cbn [host_bind should_return rt_error func_return_value
           loop_should_continue loop_should_break orb rt_value].
      rewrite V1, V2, V3. reflexivity. }
  split; [exact for_condition_numbers|].
  split.
  { intros fuel self name body ctx e s i result elements w H.
    cbn [for_loop]. rewrite H. reflexivity. }
  split.
  { intros fuel self name body ctx e s st n next result elements w w1 r w2 v
           Hc Hset Hadd Hb Hs Hv.
    split; [eapply lookup_after_set; [reflexivity|exact Hset]|].
    cbn [for_loop]. rewrite Hc. cbn [host_bind negb]. rewrite Hset. cbn [host_bind].
    rewrite Hadd. cbn [host_bind]. rewrite Hb. cbn [host_bind].
    rewrite (register_no_signal _ _ Hs).
    cbn [should_return rt_error func_return_value loop_should_continue
         loop_should_break orb andb].
    rewrite Hv. reflexivity. }
  repeat split; vm_compute; reflexivity.
Qed.

(** ** C5: signals *)

Lemma should_return_carrier v r :
  should_return (mkRTResult v (rt_error r) (func_return_value r)
                   (loop_should_continue r) (loop_should_break r))
  = should_return r.
Proof. reflexivity. Qed.

(** A child's result has been obtained: register it. *)
Ltac observe H :=
  rewrite H; cbn [host_bind]; unfold RTResult_register; cbv beta iota.
(** The registered result holds a signal, or none. *)
Ltac decide_by Hs := rewrite should_return_carrier, Hs; cbv beta iota.
Ltac handed_on := eexists; split; reflexivity.

Section Forwarding.
Variable self : InterpreterSelf.
Variable ctx : Context.

Lemma visit_each_forwards pre : forall n post result acc w values w0 r w1,
  evaluated_in_order self ctx w pre values w0 ->
  self_visit self n ctx w0 = Ret (r, w1) ->
  should_return r = true ->
  exists r', visit_each self (pre ++ n :: post) ctx result acc w
             = Ret (r', (acc ++ values)%list, w1)
             /\ signal r' = signal r.
Proof.
  induction pre as [|m pre IH]; intros n post result acc w values w0 r w1 Hev Hn Hs.
  - inversion Hev; subst. cbn [app visit_each]. observe Hn. decide_by Hs.
    rewrite app_nil_r. handed_on.
  - inversion Hev as [|? ? r0 v ? ? values' ? Hm Hs0 Hv Hrest]; subst.
    cbn [app visit_each]. observe Hm. decide_by Hs0. rewrite Hv. cbn [need host_bind].
    destruct (IH n post
                (mkRTResult (rt_value result) (rt_error r0) (func_return_value r0)
                   (loop_should_continue r0) (loop_should_break r0))
                (append acc v) _ _ _ _ _ Hrest Hn Hs) as (r' & E & Hsig).
    exists r'. rewrite E. unfold append. rewrite <- app_assoc. split; [reflexivity|exact Hsig].
Qed.

Lemma ListNode_forwards pre n post ps pe w values w0 r w1 :
  evaluated_in_order self ctx w pre values w0 ->
  self_visit self n ctx w0 = Ret (r, w1) ->
  should_return r = true ->
  forwards (dispatch self (ListNode (pre ++ n :: post) ps pe) ctx w) r w1.
Proof.
  intros Hev Hn Hs. cbn [dispatch]. unfold visit_ListNode.
  destruct (visit_each_forwards pre n post RTResult_new [] _ _ _ _ _ Hev Hn Hs)
    as (r' & E & Hsig).
  rewrite E. cbn [host_bind].
  assert (Hr : should_return r' = true).
  { unfold signal in Hsig. injection Hsig as E1 E2 E3 E4.
    unfold should_return in *. rewrite E1, E2, E3, E4. exact Hs. }
  rewrite Hr. exists r'. split; [reflexivity|exact Hsig].
Qed.

Lemma VarAssignNode_forwards t n ps pe w r w1 :
  self_visit self n ctx w = Ret (r, w1) ->
  should_return r = true ->
  forwards (dispatch self (VarAssignNode t n ps pe) ctx w) r w1.
Proof.
  intros Hn Hs. cbn [dispatch]. unfold visit_VarAssignNode.
  observe Hn. decide_by Hs. handed_on.
Qed.

Lemma BinOpNode_forwards_left l op r_node ps pe w r w1 :
  self_visit self l ctx w = Ret (r, w1) ->
  should_return r = true ->
  forwards (dispatch self (BinOpNode l op r_node ps pe) ctx w) r w1.
Proof.
  intros Hn Hs. cbn [dispatch]. unfold visit_BinOpNode.
  observe Hn. decide_by Hs. handed_on.
Qed.

Lemma BinOpNode_forwards_right l op r_node ps pe w r0 w0 r w1 :
  self_visit self l ctx w = Ret (r0, w0) ->
  should_return r0 = false ->
  self_visit self r_node ctx w0 = Ret (r, w1) ->
  should_return r = true ->
  forwards (dispatch self (BinOpNode l op r_node ps pe) ctx w) r w1.
Proof.
  intros Hl Hs0 Hn Hs. cbn [dispatch]. unfold visit_BinOpNode.
  observe Hl. decide_by Hs0. observe Hn. decide_by Hs. handed_on.
Qed.

Lemma UnaryOpNode_forwards op n ps pe w r w1 :
  self_visit self n ctx w = Ret (r, w1) ->
  should_return r = true ->
  forwards (dispatch self (UnaryOpNode op n ps pe) ctx w) r w1.
Proof.
  intros Hn Hs. cbn [dispatch]. unfold visit_UnaryOpNode.
  observe Hn. decide_by Hs. handed_on.
Qed.

Lemma ReturnNode_forwards n ps pe w r w1 :
  self_visit self n ctx w = Ret (r, w1) ->
  should_return r = true ->
  forwards (dispatch self (ReturnNode (Some n) ps pe) ctx w) r w1.
Proof.
  intros Hn Hs. cbn [dispatch]. unfold visit_ReturnNode.
  observe Hn. decide_by Hs. handed_on.
Qed.

Lemma should_return_signal r r' :
  signal r' = signal r -> should_return r' = should_return r.
Proof.
  unfold signal. intros H. injection H as E1 E2 E3 E4.
  unfold should_return. rewrite E1, E2, E3, E4. reflexivity.
Qed.

(** A node that evaluates to a value: register the result and go on. *)
Ltac pass H :=
  let r := fresh "r" in
  let E := fresh "E" in
  let Hs := fresh "Hs" in
  let Hv := fresh "Hv" in
  destruct H as (r & E & Hs & Hv);
  observe E; decide_by Hs; try (rewrite Hv; cbn [need host_bind]).

Lemma visit_cases_skipped pre : forall post else_case result w w0,
  cases_skipped self ctx w pre w0 ->
  exists result',
    visit_cases self result (pre ++ post) else_case ctx w
    = visit_cases self result' post else_case ctx w0.
Proof.
  induction pre as [|[[c e] b] pre IH]; intros post else_case result w w0 H.
  - inversion H; subst. exists result. reflexivity.
  - inversion H as [|? ? ? ? v w1 ? ? Hc Hf Hrest]; subst.
    cbn [app visit_cases]. pass Hc. rewrite Hf. cbv beta iota.
    apply IH. exact Hrest.
Qed.

Lemma IfNode_forwards_condition pre c e b post else_case ps pe w w0 r w1 :
  cases_skipped self ctx w pre w0 ->
  self_visit self c ctx w0 = Ret (r, w1) ->
  should_return r = true ->
  forwards (dispatch self (IfNode (pre ++ (c, e, b) :: post) else_case ps pe) ctx w)
    r w1.
Proof.
  intros Hpre Hc Hs. cbn [dispatch]. unfold visit_IfNode.
  destruct (visit_cases_skipped pre ((c, e, b) :: post) else_case RTResult_new
              _ _ Hpre) as (result' & ->).
  cbn [visit_cases]. observe Hc. decide_by Hs. handed_on.
Qed.

Lemma IfNode_forwards_branch pre c e b post else_case ps pe w w0 v w1 r w2 :
  cases_skipped self ctx w pre w0 ->
  evaluates self ctx c w0 v w1 ->
  is_true v = true ->
  self_visit self e ctx w1 = Ret (r, w2) ->
  should_return r = true ->
  forwards (dispatch self (IfNode (pre ++ (c, e, b) :: post) else_case ps pe) ctx w)
    r w2.
Proof.
  intros Hpre Hc Ht He Hs. cbn [dispatch]. unfold visit_IfNode.
  destruct (visit_cases_skipped pre ((c, e, b) :: post) else_case RTResult_new
              _ _ Hpre) as (result' & ->).
  cbn [visit_cases]. pass Hc. rewrite Ht. cbv beta iota.
  unfold visit_branch. observe He. decide_by Hs. handed_on.
Qed.

Lemma IfNode_forwards_else cases e b ps pe w w0 r w1 :
  cases_skipped self ctx w cases w0 ->
  self_visit self e ctx w0 = Ret (r, w1) ->
  should_return r = true ->
  forwards (dispatch self (IfNode cases (Some (e, b)) ps pe) ctx w) r w1.
Proof.
  intros Hpre He Hs. cbn [dispatch]. unfold visit_IfNode.
  destruct (visit_cases_skipped cases [] (Some (e, b)) RTResult_new _ _ Hpre)
    as (result' & E).
  rewrite app_nil_r in E. rewrite E.
  cbn [visit_cases]. unfold visit_branch. observe He. decide_by Hs. handed_on.
Qed.

(** *** FOR *)

Lemma ForNode_forwards_start var a b s body none ps pe w r w1 :
  self_visit self a ctx w = Ret (r, w1) ->
  should_return r = true ->
  forwards (dispatch self (ForNode var a b s body none ps pe) ctx w) r w1.
Proof.
  intros Ha Hs. cbn [dispatch]. unfold visit_ForNode.
  observe Ha. decide_by Hs. handed_on.
Qed.

Lemma ForNode_forwards_end var a b s body none ps pe w v w0 r w1 :
  evaluates self ctx a w v w0 ->
  self_visit self b ctx w0 = Ret (r, w1) ->
  should_return r = true ->
  forwards (dispatch self (ForNode var a b s body none ps pe) ctx w) r w1.
Proof.
  intros Ha Hb Hs. cbn [dispatch]. unfold visit_ForNode.
  destruct Ha as (ra & Ea & Hsa & _). observe Ea. decide_by Hsa.
  observe Hb. decide_by Hs. handed_on.
Qed.

Lemma ForNode_forwards_step var a b s body none ps pe w v w0 v' w0' r w1 :
  evaluates self ctx a w v w0 ->
  evaluates self ctx b w0 v' w0' ->
  self_visit self s ctx w0' = Ret (r, w1) ->
  should_return r = true ->
  forwards (dispatch self (ForNode var a b (Some s) body none ps pe) ctx w) r w1.
Proof.
  intros Ha Hb Hc Hs. cbn [dispatch]. unfold visit_ForNode.
  destruct Ha as (ra & Ea & Hsa & _). observe Ea. decide_by Hsa.
  destruct Hb as (rb & Eb & Hsb & _). observe Eb. decide_by Hsb.
  observe Hc. cbn [host_bind]. decide_by Hs. handed_on.
Qed.

(** The node runs its loop on the values of its header. *)
Lemma ForNode_runs_loop var a b step body none ps pe w i e s ss w0 :
  for_header self ctx a b step w i e s ss w0 ->
  dispatch self (ForNode var a b step body none ps pe) ctx w
  = (let* (result, elements, w') :=
       for_loop (fuel_left self) self (token_name var) body ctx e (VNumber s ss)
         (HNum i) RTResult_new [] w0 in
     match elements with
     | None => Ret (result, w')
     | Some elements =>
         Ret (loop_value (ForNode var a b step body none ps pe) none elements ctx w')
     end).
Proof.
  intros (sa & w1 & w2 & Ha & Hb & Hc). cbn [dispatch]. unfold visit_ForNode.
  destruct Ha as (ra & Ea & Hsa & Hva). rewrite Ea. cbn [host_bind].
  rewrite (register_no_signal _ _ Hsa).
  cbn [should_return rt_error func_return_value loop_should_continue
       loop_should_break orb].
  destruct Hb as (rb & Eb & Hsb & Hvb). rewrite Eb. cbn [host_bind].
  rewrite (register_no_signal _ _ Hsb).
  cbn [should_return rt_error func_return_value loop_should_continue
       loop_should_break orb rt_value RTResult_new].
  destruct step as [n|].
  - destruct Hc as (rc & Ec & Hsc & Hvc). rewrite Ec. cbn [host_bind].
    rewrite (register_no_signal _ _ Hsc).
    cbn [host_bind should_return rt_error func_return_value
         loop_should_continue loop_should_break orb rt_value].
    rewrite Hva, Hvb, Hvc. reflexivity.
  - destruct Hc as (Hc & ->). rewrite Hc.
    cbn [host_bind should_return rt_error func_return_value
         loop_should_continue loop_should_break orb].
    rewrite Hva, Hvb. reflexivity.
Qed.

Lemma for_loop_iterates name body e s ss k n result els w n' result' els' w' :
  for_iterates self name body ctx e s ss k n result els w n' result' els' w' ->
  forall fuel,
    for_loop (k + fuel) self name body ctx e (VNumber s ss) (HNum n) result els w
    = for_loop fuel self name body ctx e (VNumber s ss) (HNum n') result' els' w'.
Proof.
  induction 1 as [|k n result els w w1 next r w2 v n' result' els' w'
                     Hc Hset Hadd Hb Hs Hv _ IH
                  |k n result els w w1 next r w2 n' result' els' w'
                     Hc Hset Hadd Hb Hcont _ IH]; intros fuel.
  - reflexivity.
  - cbn [Nat.add for_loop]. rewrite Hc. cbn [host_bind negb].
    rewrite Hset. cbn [host_bind]. rewrite Hadd. cbn [host_bind].
    rewrite Hb. cbn [host_bind]. rewrite (register_no_signal _ _ Hs).
    cbn [should_return rt_error func_return_value loop_should_continue
         loop_should_break orb andb].
    rewrite Hv. cbn [need host_bind].
    rewrite <- (IH fuel). rewrite (register_no_signal _ _ Hs). reflexivity.
  - cbn [Nat.add for_loop]. rewrite Hc. cbn [host_bind negb].
    rewrite Hset. cbn [host_bind]. rewrite Hadd. cbn [host_bind].
    observe Hb. cbn [loop_should_continue]. rewrite Hcont.
    rewrite andb_false_r. cbn [andb]. cbv beta iota.
    rewrite <- (IH fuel). unfold RTResult_register. cbn [fst].
    rewrite Hcont. reflexivity.
Qed.

(** One iteration whose body hands back an error or a return. *)
Lemma for_loop_forwards fuel name body e s ss n result els w w1 next r w2 :
  for_condition (HNum n) e (VNumber s ss) = Ret true ->
  SymbolTable_set w (symbol_table ctx) name (VNumber n no_stamp) = Ret w1 ->
  num_add n s = Ret next ->
  self_visit self body ctx w1 = Ret (r, w2) ->
  should_return r = true ->
  loop_should_continue r = false ->
  loop_should_break r = false ->
  loop_forwards
    (for_loop (S fuel) self name body ctx e (VNumber s ss) (HNum n) result els w)
    r w2.
Proof.
  intros Hc Hset Hadd Hb Hs Hcont Hbrk.
  cbn [for_loop]. rewrite Hc. cbn [host_bind negb].
  rewrite Hset. cbn [host_bind]. rewrite Hadd. cbn [host_bind].
  destruct r as [v e0 f c b]. cbn in Hcont, Hbrk. subst c b.
  observe Hb. decide_by Hs. handed_on.
Qed.

(** One iteration whose body asks to break: the loop ends. *)
Lemma for_loop_break fuel name body e s ss n result els w w1 next r w2 :
  for_condition (HNum n) e (VNumber s ss) = Ret true ->
  SymbolTable_set w (symbol_table ctx) name (VNumber n no_stamp) = Ret w1 ->
  num_add n s = Ret next ->
  self_visit self body ctx w1 = Ret (r, w2) ->
  loop_should_continue r = false ->
  loop_should_break r = true ->
  for_loop (S fuel) self name body ctx e (VNumber s ss) (HNum n) result els w
  = Ret (fst (RTResult_register result r), Some els, w2).
Proof.
  intros Hc Hset Hadd Hb Hcont Hbrk.
  cbn [for_loop]. rewrite Hc. cbn [host_bind negb].
  rewrite Hset. cbn [host_bind]. rewrite Hadd. cbn [host_bind].
  destruct r as [v e0 f c b]. cbn in Hcont, Hbrk. subst c b.
  observe Hb. cbn [loop_should_continue loop_should_break negb].
  rewrite andb_false_r. reflexivity.
Qed.

Lemma split_fuel k fuel : (k < fuel)%nat -> exists m, fuel = (k + S m)%nat.
Proof. intros H. exists (fuel - S k)%nat. lia. Qed.

Lemma ForNode_forwards_body var a b step body none ps pe w i e s ss w0
    k n result els w1 w2 next r w3 :
  for_header self ctx a b step w i e s ss w0 ->
  for_iterates self (token_name var) body ctx e s ss
    k i RTResult_new [] w0 n result els w1 ->
  (k < fuel_left self)%nat ->
  for_condition (HNum n) e (VNumber s ss) = Ret true ->
  SymbolTable_set w1 (symbol_table ctx) (token_name var) (VNumber n no_stamp)
  = Ret w2 ->
  num_add n s = Ret next ->
  self_visit self body ctx w2 = Ret (r, w3) ->
  should_return r = true ->
  loop_should_continue r = false ->
  loop_should_break r = false ->
  forwards (dispatch self (ForNode var a b step body none ps pe) ctx w) r w3.
Proof.
  intros Hh Hit Hk Hc Hset Hadd Hb Hs Hcont Hbrk.
  rewrite (ForNode_runs_loop _ _ _ _ _ _ _ _ _ _ _ _ _ _ Hh).
  destruct (split_fuel _ _ Hk) as (m & ->).
  rewrite (for_loop_iterates _ _ _ _ _ _ _ _ _ _ _ _ _ _ Hit).
  destruct (for_loop_forwards m _ _ _ _ _ _ result els _ _ _ _ _
              Hc Hset Hadd Hb Hs Hcont Hbrk) as (r' & E & Hsig).
  rewrite E. cbn [host_bind]. exists r'. split; [reflexivity|exact Hsig].
Qed.

(** The loop consumes the break of its body: the node ends without
    signal, with the values collected before. *)
Lemma ForNode_consumes_break var a b step body none ps pe w i e s ss w0
    k n result els w1 w2 next r w3 :
  for_header self ctx a b step w i e s ss w0 ->
  for_iterates self (token_name var) body ctx e s ss
    k i RTResult_new [] w0 n result els w1 ->
  (k < fuel_left self)%nat ->
  for_condition (HNum n) e (VNumber s ss) = Ret true ->
  SymbolTable_set w1 (symbol_table ctx) (token_name var) (VNumber n no_stamp)
  = Ret w2 ->
  num_add n s = Ret next ->
  self_visit self body ctx w2 = Ret (r, w3) ->
  loop_should_continue r = false ->
  loop_should_break r = true ->
  dispatch self (ForNode var a b step body none ps pe) ctx w
  = Ret (loop_value (ForNode var a b step body none ps pe) none els ctx w3).
Proof.
  intros Hh Hit Hk Hc Hset Hadd Hb Hcont Hbrk.
  rewrite (ForNode_runs_loop _ _ _ _ _ _ _ _ _ _ _ _ _ _ Hh).
  destruct (split_fuel _ _ Hk) as (m & ->).
  rewrite (for_loop_iterates _ _ _ _ _ _ _ _ _ _ _ _ _ _ Hit).
  rewrite (for_loop_break m _ _ _ _ _ _ result els _ _ _ _ _
             Hc Hset Hadd Hb Hcont Hbrk).
  reflexivity.
Qed.

(** *** WHILE *)

Lemma while_loop_iterates c body k result els w result' els' w' :
  while_iterates self c body ctx k result els w result' els' w' ->
  forall fuel,
    while_loop (k + fuel) self c body ctx result els w
    = while_loop fuel self c body ctx result' els' w'.
Proof.
  induction 1 as [|k result els w rc cv w1 r w2 v result' els' w'
                     Hc Hsc Hvc Ht Hb Hs Hv _ IH
                  |k result els w rc cv w1 r w2 result' els' w'
                     Hc Hsc Hvc Ht Hb Hcont _ IH]; intros fuel.
  - reflexivity.
  - cbn [Nat.add while_loop]. observe Hc. decide_by Hsc.
    rewrite Hvc. cbn [need host_bind]. rewrite Ht. cbn [negb].
    rewrite <- (IH fuel). unfold RTResult_register. cbn [fst].
    destruct r as [v0 [e0|] [f|] [|] [|]]; try discriminate Hs.
    cbn in Hv. subst v0. observe Hb. reflexivity.
  - cbn [Nat.add while_loop]. observe Hc. decide_by Hsc.
    rewrite Hvc. cbn [need host_bind]. rewrite Ht. cbn [negb].
    rewrite <- (IH fuel). unfold RTResult_register. cbn [fst].
    destruct r as [v e0 f c0 b]. cbn in Hcont. subst c0.
    observe Hb. cbn [loop_should_continue negb]. rewrite andb_false_r.
    reflexivity.
Qed.

Lemma WhileNode_forwards_condition c body none ps pe w k result els w0 r w1 :
  while_iterates self c body ctx k RTResult_new [] w result els w0 ->
  (k < fuel_left self)%nat ->
  self_visit self c ctx w0 = Ret (r, w1) ->
  should_return r = true ->
  forwards (dispatch self (WhileNode c body none ps pe) ctx w) r w1.
Proof.
  intros Hit Hk Hc Hs. cbn [dispatch]. unfold visit_WhileNode.
  destruct (split_fuel _ _ Hk) as (m & ->).
  rewrite (while_loop_iterates _ _ _ _ _ _ _ _ _ Hit).
  cbn [while_loop]. observe Hc. decide_by Hs. cbn [host_bind]. handed_on.
Qed.

Lemma WhileNode_forwards_body c body none ps pe w k result els w0 v w1 r w2 :
  while_iterates self c body ctx k RTResult_new [] w result els w0 ->
  (k < fuel_left self)%nat ->
  evaluates self ctx c w0 v w1 ->
  is_true v = true ->
  self_visit self body ctx w1 = Ret (r, w2) ->
  should_return r = true ->
  loop_should_continue r = false ->
  loop_should_break r = false ->
  forwards (dispatch self (WhileNode c body none ps pe) ctx w) r w2.
Proof.
  intros Hit Hk Hc Ht Hb Hs Hcont Hbrk. cbn [dispatch]. unfold visit_WhileNode.
  destruct (split_fuel _ _ Hk) as (m & ->).
  rewrite (while_loop_iterates _ _ _ _ _ _ _ _ _ Hit).
  cbn [while_loop]. pass Hc. rewrite Ht. cbn [negb].
  destruct r as [v0 e0 f c0 b]. cbn in Hcont, Hbrk. subst c0 b.
  observe Hb. decide_by Hs. cbn [host_bind]. handed_on.
Qed.

Lemma WhileNode_consumes_break c body none ps pe w k result els w0 v w1 r w2 :
  while_iterates self c body ctx k RTResult_new [] w result els w0 ->
  (k < fuel_left self)%nat ->
  evaluates self ctx c w0 v w1 ->
  is_true v = true ->
  self_visit self body ctx w1 = Ret (r, w2) ->
  loop_should_continue r = false ->
  loop_should_break r = true ->
  dispatch self (WhileNode c body none ps pe) ctx w
  = Ret (loop_value (WhileNode c body none ps pe) none els ctx w2).
Proof.
  intros Hit Hk Hc Ht Hb Hcont Hbrk. cbn [dispatch]. unfold visit_WhileNode.
  destruct (split_fuel _ _ Hk) as (m & ->).
  rewrite (while_loop_iterates _ _ _ _ _ _ _ _ _ Hit).
  cbn [while_loop]. pass Hc. rewrite Ht. cbn [negb].
  destruct r as [v0 e0 f c0 b]. cbn in Hcont, Hbrk. subst c0 b.
  observe Hb. cbn [loop_should_continue loop_should_break negb].
  rewrite andb_false_r. reflexivity.
Qed.

(** *** Calls *)

Lemma visit_each_evaluated nodes : forall result acc w values w1,
  evaluated_in_order self ctx w nodes values w1 ->
  visit_each self nodes ctx result acc w
  = Ret (mkRTResult (rt_value result)
           (match nodes with [] => rt_error result | _ => None end)
           (match nodes with [] => func_return_value result | _ => None end)
           (match nodes with [] => loop_should_continue result | _ => false end)
           (match nodes with [] => loop_should_break result | _ => false end),
         (acc ++ values)%list, w1).
Proof.
  induction nodes as [|n nodes IH]; intros result acc w values w1 H.
  - inversion H; subst. cbn [visit_each]. rewrite app_nil_r.
    destruct result; reflexivity.
  - inversion H as [|? ? r v w0 ? values' ? Hn Hs Hv Hrest]; subst.
    cbn [visit_each]. rewrite Hn. cbn [host_bind].
    rewrite (register_no_signal _ _ Hs).
    cbn [should_return rt_error func_return_value loop_should_continue
         loop_should_break orb].
    rewrite Hv. cbn [need host_bind].
    rewrite (IH _ _ _ _ _ Hrest). unfold append. rewrite <- app_assoc.
    destruct nodes; reflexivity.
Qed.

Lemma CallNode_forwards_callee f args ps pe w r w1 :
  self_visit self f ctx w = Ret (r, w1) ->
  should_return r = true ->
  forwards (dispatch self (CallNode f args ps pe) ctx w) r w1.
Proof.
  intros Hf Hs. cbn [dispatch]. unfold visit_CallNode.
  observe Hf. decide_by Hs. handed_on.
Qed.

Lemma CallNode_forwards_argument f pre n post ps pe w v w0 values w1 r w2 :
  evaluates self ctx f w v w0 ->
  evaluated_in_order self ctx w0 pre values w1 ->
  self_visit self n ctx w1 = Ret (r, w2) ->
  should_return r = true ->
  forwards (dispatch self (CallNode f (pre ++ n :: post) ps pe) ctx w) r w2.
Proof.
  intros Hf Hpre Hn Hs. cbn [dispatch]. unfold visit_CallNode.
  pass Hf.
  match goal with
  | |- context [visit_each self _ ctx ?res [] w0] =>
      destruct (visit_each_forwards pre n post res [] _ _ _ _ _
                  Hpre Hn Hs) as (r' & E' & Hsig)
  end.
  rewrite E'. cbn [host_bind].
  rewrite (should_return_signal _ _ Hsig), Hs.
  exists r'. split; [reflexivity|exact Hsig].
Qed.

Lemma CallNode_forwards_call f args ps pe w v w0 values w1 r w2 :
  evaluates self ctx f w v w0 ->
  evaluated_in_order self ctx w0 args values w1 ->
  execute self (node_stamp (copy v) (CallNode f args ps pe)) values w1
  = Ret (r, w2) ->
  should_return r = true ->
  forwards (dispatch self (CallNode f args ps pe) ctx w) r w2.
Proof.
  intros Hf Hargs Hx Hs. cbn [dispatch]. unfold visit_CallNode.
  pass Hf. rewrite (visit_each_evaluated _ _ _ _ _ _ Hargs). cbn [host_bind app].
  destruct args as [|a args];
    cbn [rt_value rt_error func_return_value loop_should_continue
         loop_should_break].
  - decide_by Hs0. observe Hx. decide_by Hs. handed_on.
  - cbn [should_return rt_error func_return_value loop_should_continue
         loop_should_break orb].
    observe Hx. decide_by Hs. handed_on.
Qed.

(** *** The function that a call executes *)

Lemma Function_finish_forwards auto result r :
  should_return r = true ->
  func_return_value r = None ->
  Function_finish auto result r = fst (RTResult_register result r).
Proof.
  intros Hs Hf. unfold Function_finish, RTResult_register. cbv beta iota.
  rewrite should_return_carrier, Hs. cbn [func_return_value]. rewrite Hf.
  reflexivity.
Qed.

Lemma Function_finish_returns auto result r v :
  func_return_value r = Some v ->
  rt_value r = None ->
  Function_finish auto result r = RTResult_success (Some v).
Proof.
  intros Hf Hv. unfold Function_finish, RTResult_register. cbv beta iota.
  cbn [func_return_value]. rewrite Hf, Hv. rewrite andb_false_r.
  destruct auto; reflexivity.
Qed.

Lemma Function_execute_body name body arg_names auto st args w ectx w1 r0 w2 r w3 :
  generate_new_context (VFunction name body arg_names auto st) name w
  = Ret (ectx, w1) ->
  check_and_populate_params (VFunction name body arg_names auto st) arg_names
    args ectx w1 = Ret (r0, w2) ->
  should_return r0 = false ->
  self_visit self body ectx w2 = Ret (r, w3) ->
  execute self (VFunction name body arg_names auto st) args w
  = Ret (Function_finish auto RTResult_new r, w3).
Proof.
  intros Hg Hc Hs0 Hb. cbn [execute]. unfold Function_execute.
  rewrite Hg. cbn [host_bind]. rewrite Hc. cbn [host_bind].
  rewrite (register_no_signal _ _ Hs0).
  cbn [should_return rt_error func_return_value loop_should_continue
       loop_should_break orb].
  rewrite Hb. reflexivity.
Qed.

(** *** IMPORT *)

Lemma ImportNode_runs n ps pe w r0 path st w0 code r w1 :
  self_visit self n ctx w = Ret (r0, w0) ->
  rt_value r0 = Some (VString path st) ->
  files w0 !! path = Some code ->
  run_body self (last_component path "") code (Some ctx)
    (Some (Position_copy ps)) true w0
  = Ret (Some (FullResult r), None, w1) ->
  dispatch self (ImportNode n ps pe) ctx w
  = match rt_error r with
    | Some _ => Ret (fst (RTResult_register RTResult_new r), w1)
    | None => Ret (RTResult_success (Some Number_none), w1)
    end.
Proof.
  intros Hn Hv Hf Hrun. cbn [dispatch]. unfold visit_ImportNode.
  observe Hn. rewrite Hv, Hf. cbn [node_pos_start]. rewrite Hrun.
  cbn [host_bind import_finish]. unfold RTResult_register. cbv beta iota.
  destruct r as [v [e|] f c b]; reflexivity.
Qed.

End Forwarding.

Lemma loop_value_no_signal node none els ctx w :
  should_return (fst (loop_value node none els ctx w)) = false.
Proof. unfold loop_value. destruct none; reflexivity. Qed.

(** Every node hands on the signal that it observes, the break and continue
    of a loop body and the signals other than an error of an imported
    program apart. *)
Lemma observed_signal_is_forwarded self ctx node w site r w1 :
  observes self ctx node w site r w1 ->
  should_return r = true ->
  (site = LoopBody -> loop_should_continue r = false /\ loop_should_break r = false) ->
  (site = Program -> rt_error r <> None) ->
  forwards (dispatch self node ctx w) r w1.
Proof.
  intros H Hs Hloop Hprog. destruct H.
  - eapply ListNode_forwards; eassumption.
  - eapply VarAssignNode_forwards; eassumption.
  - eapply BinOpNode_forwards_left; eassumption.
  - destruct H as (r0 & E & Hs0 & _). eapply BinOpNode_forwards_right; eassumption.
  - eapply UnaryOpNode_forwards; eassumption.
  - eapply IfNode_forwards_condition; eassumption.
  - eapply IfNode_forwards_branch; eassumption.
  - eapply IfNode_forwards_else; eassumption.
  - eapply ForNode_forwards_start; eassumption.
  - eapply ForNode_forwards_end; eassumption.
  - eapply ForNode_forwards_step; eassumption.
  - destruct (Hloop eq_refl). eapply ForNode_forwards_body; eassumption.
  - eapply WhileNode_forwards_condition; eassumption.
  - destruct (Hloop eq_refl). eapply WhileNode_forwards_body; eassumption.
  - eapply CallNode_forwards_callee; eassumption.
  - eapply CallNode_forwards_argument; eassumption.
  - eapply CallNode_forwards_call; eassumption.
  - eapply ReturnNode_forwards; eassumption.
  - rewrite (ImportNode_runs _ _ _ _ _ _ _ _ _ _ _ _ _ H H0 H1 H2).
    destruct (rt_error r) eqn:E; [|exfalso; apply (Hprog eq_refl); reflexivity].
    eexists. split; [reflexivity|]. unfold signal. cbn. rewrite E. reflexivity.
Qed.

Lemma loop_consumes_break self ctx node w r w1 :
  observes self ctx node w LoopBody r w1 ->
  loop_should_continue r = false ->
  loop_should_break r = true ->
  exists r' w', dispatch self node ctx w = Ret (r', w') /\ should_return r' = false.
Proof.
  intros H Hc Hb. inversion H; subst.
  - erewrite ForNode_consumes_break by eassumption.
    match goal with
    | |- context [loop_value ?n ?f ?e ?c ?w] =>
        exists (fst (loop_value n f e c w)), (snd (loop_value n f e c w))
    end.
    split; [rewrite <- surjective_pairing; reflexivity|apply loop_value_no_signal].
  - erewrite WhileNode_consumes_break by eassumption.
    match goal with
    | |- context [loop_value ?n ?f ?e ?c ?w] =>
        exists (fst (loop_value n f e c w)), (snd (loop_value n f e c w))
    end.
    split; [rewrite <- surjective_pairing; reflexivity|apply loop_value_no_signal].
Qed.

Lemma import_drops_other_signals self ctx node w r w1 :
  observes self ctx node w Program r w1 ->
  rt_error r = None ->
  dispatch self node ctx w = Ret (RTResult_success (Some Number_none), w1).
Proof.
  intros H He. inversion H; subst.
  erewrite ImportNode_runs by eassumption. rewrite He. reflexivity.
Qed.

(** *** Carriers hold one signal at most *)

Lemma one_signal_carrier v r :
  one_signal (mkRTResult v (rt_error r) (func_return_value r)
                (loop_should_continue r) (loop_should_break r))
  = one_signal r.
Proof. reflexivity. Qed.

Lemma one_signal_return v : one_signal (RTResult_success_return v) = true.
Proof. destruct v; reflexivity. Qed.

(** Take apart an equation [m = Ret x] along the binds and the tests of [m]. *)
Ltac crunch :=
  repeat match goal with
  | H : Ret _ = Ret _ |- _ => injection H; clear H; intros; subst
  | H : Raise _ = Ret _ |- _ => discriminate H
  | H : OutOfFuel = Ret _ |- _ => discriminate H
  | H : HostLib _ = Ret _ |- _ => discriminate H
  | H : host_bind ?m ?k = Ret _ |- _ =>
      let a := fresh "a" in
      let Hm := fresh "Hm" in
      apply bind_Ret_inv in H; destruct H as (a & Hm & H); cbv beta iota in H
  | x : (_ * _)%type |- _ => destruct x
  | H : (_, _) = (_, _) |- _ => injection H; clear H; intros; subst
  | H : (if ?c then _ else _) = (_, _) |- _ => destruct c eqn:?
  | H : (if ?c then _ else _) = Ret _ |- _ => destruct c eqn:?
  | H : match ?x with _ => _ end = Ret _ |- _ => destruct x eqn:?
  end.

Section OneSignal.
Variable self : InterpreterSelf.
Hypothesis Hself : forall n c w r w',
  self_visit self n c w = Ret (r, w') -> one_signal r = true.

Lemma visit_each_one_signal nodes : forall ctx result acc w result' acc' w',
  one_signal result = true ->
  visit_each self nodes ctx result acc w = Ret (result', acc', w') ->
  one_signal result' = true.
Proof.
  induction nodes as [|n nodes IH]; intros ctx result acc w result' acc' w' H0 H;
    cbn [visit_each] in H.
  - crunch. exact H0.
  - inv_bind H. destruct a as [r w1]. unfold RTResult_register in H.
    cbv beta iota in H. apply Hself in Hm.
    match type of H with
    | (if should_return ?x then _ else _) = _ => destruct (should_return x)
    end.
    + crunch. rewrite one_signal_carrier. exact Hm.
    + inv_bind H. eapply IH; [|exact H]. rewrite one_signal_carrier. exact Hm.
Qed.

Ltac open_up H := unfold RTResult_register in H; cbv beta iota in H.
Ltac settle :=
  crunch;
  repeat match goal with
  | H : self_visit self _ _ _ = Ret _ |- _ => apply Hself in H
  end;
  try reflexivity;
  try apply one_signal_return;
  try (rewrite one_signal_carrier; assumption);
  try assumption.

Lemma visit_cases_one_signal cases : forall else_case ctx result w r w',
  visit_cases self result cases else_case ctx w = Ret (r, w') ->
  one_signal r = true.
Proof.
  induction cases as [|[[c e] b] cases IH]; intros else_case ctx result w r w' H;
    cbn [visit_cases] in H; unfold visit_branch in H; open_up H.
  - settle.
  - inv_bind H. destruct a as [rc w1].
    destruct (should_return _) in H; [settle|].
    inv_bind H. destruct (is_true a); [settle|].
    eapply IH. exact H.
Qed.

Lemma for_loop_one_signal fuel : forall name body ctx e s i result els w r out w',
  for_loop fuel self name body ctx e s i result els w = Ret (r, out, w') ->
  out = None -> one_signal r = true.
Proof.
  induction fuel as [|fuel IH]; intros name body ctx e s i result els w r out w' H Ho;
    cbn [for_loop] in H; [discriminate|]. open_up H.
  inv_bind H. destruct (negb a); [crunch; discriminate|].
  destruct i as [n|]; [|discriminate]. destruct s; try discriminate.
  inv_bind H. inv_bind H. inv_bind H. destruct a2 as [r0 w2].
  apply Hself in Hm2.
  destruct (_ && _) in H; [settle|].
  destruct (loop_should_continue _) in H; [eapply IH; eassumption|].
  destruct (loop_should_break _) in H; [crunch; discriminate|].
  inv_bind H. eapply IH; eassumption.
Qed.

Lemma while_loop_one_signal fuel : forall c body ctx result els w r out w',
  while_loop fuel self c body ctx result els w = Ret (r, out, w') ->
  out = None -> one_signal r = true.
Proof.
  induction fuel as [|fuel IH]; intros c body ctx result els w r out w' H Ho;
    cbn [while_loop] in H; [discriminate|]. open_up H.
  inv_bind H. destruct a as [rc w1]. apply Hself in Hm.
  destruct (should_return _) in H; [settle|].
  inv_bind H. destruct (negb _) in H; [crunch; discriminate|].
  inv_bind H. destruct a0 as [r0 w2]. apply Hself in Hm1.
  destruct (_ && _) in H; [settle|].
  destruct (loop_should_continue _) in H; [eapply IH; eassumption|].
  destruct (loop_should_break _) in H; [crunch; discriminate|].
  inv_bind H. eapply IH; eassumption.
Qed.

Lemma execute_input_int_one_signal fuel : forall w r w',
  execute_input_int fuel w = Ret (r, w') -> one_signal r = true.
Proof.
  induction fuel as [|fuel IH]; intros w r w' H; cbn [execute_input_int] in H;
    [discriminate|].
  destruct (stdin w); [discriminate|]. inv_bind H.
  destruct a; [settle|]. eapply IH. exact H.
Qed.

Lemma check_and_populate_params_one_signal f names args ectx w r w' :
  check_and_populate_params f names args ectx w = Ret (r, w') ->
  one_signal r = true.
Proof.
  unfold check_and_populate_params, check_params. intros H. open_up H.
  repeat match type of H with
         | context [if ?c then _ else _] => destruct c
         end; settle.
Qed.

Lemma builtin_body_one_signal f name ectx w r w' :
  builtin_body self f name ectx w = Ret (r, w') -> one_signal r = true.
Proof.
  unfold builtin_body, truth, builtin_error. intros H.
  repeat match type of H with
         | (if String.eqb name ?s then _ else _) = _ => destruct (String.eqb name s)
         end;
    try (eapply execute_input_int_one_signal; exact H); settle.
Qed.

Lemma execute_one_signal f args w r w' :
  execute self f args w = Ret (r, w') -> one_signal r = true.
Proof.
  destruct f; cbn [execute]; intros H; try solve [settle].
  - unfold Function_execute, Function_finish in H. open_up H.
    inv_bind H. destruct a as [ectx w1]. inv_bind H. destruct a as [r0 w2].
    apply check_and_populate_params_one_signal in Hm0.
    destruct (should_return _) in H; [settle|].
    inv_bind H. destruct a as [rb w3]. apply Hself in Hm1.
    destruct (_ && _) in H; settle.
  - unfold BuiltInFunction_execute in H. open_up H.
    inv_bind H. destruct a as [ectx w1]. inv_bind H. inv_bind H.
    destruct a0 as [r0 w2].
    apply check_and_populate_params_one_signal in Hm1.
    destruct (should_return _) in H; [settle|].
    inv_bind H. destruct a0 as [rb w3]. apply builtin_body_one_signal in Hm2.
    destruct (should_return _) in H; settle.
Qed.

Lemma run_body_one_signal fname txt c e w r err w' :
  run_body self fname txt c e true w = Ret (Some (FullResult r), err, w') ->
  one_signal r = true.
Proof.
  unfold run_body. intros H.
  inv_bind H. destruct a as [toks [e0|]]; [discriminate|].
  inv_bind H. inv_bind H. destruct a0 as [ast p].
  destruct (pr_error ast); [discriminate|].
  inv_bind H. inv_bind H. destruct a1 as [res w1]. cbv beta iota in H.
  injection H as <- _ _. eapply Hself. eassumption.
Qed.

Lemma dispatch_one_signal n ctx w r w' :
  dispatch self n ctx w = Ret (r, w') -> one_signal r = true.
Proof.
  destruct n; cbn [dispatch]; intros H.
  - unfold visit_NumberNode in H. settle.
  - unfold visit_StringNode in H. settle.
  - unfold visit_ListNode in H. inv_bind H. destruct a as [[res vs] w1].
    apply visit_each_one_signal in Hm; [|reflexivity]. settle.
  - unfold visit_VarAccessNode in H. settle.
  - unfold visit_VarAssignNode in H. open_up H. settle.
  - unfold visit_BinOpNode in H. open_up H. settle.
  - unfold visit_UnaryOpNode in H. open_up H. settle.
  - unfold visit_IfNode in H. eapply visit_cases_one_signal. exact H.
  - unfold visit_ForNode, loop_value in H. open_up H.
    inv_bind H. destruct a as [r1 w1]. apply Hself in Hm.
    destruct (should_return _) in H; [settle|].
    inv_bind H. destruct a as [r2 w2]. apply Hself in Hm0.
    destruct (should_return _) in H; [settle|].
    inv_bind H. destruct a as [[r3 v3] w3].
    assert (H3 : one_signal r3 = true).
    { destruct step_value_node; settle. }
    destruct (should_return r3); [settle|].
    crunch; try reflexivity;
      (eapply for_loop_one_signal; [eassumption|reflexivity]).
  - unfold visit_WhileNode, loop_value in H.
    crunch; try reflexivity;
      (eapply while_loop_one_signal; [eassumption|reflexivity]).
  - unfold visit_FuncDefNode in H. settle.
  - unfold visit_CallNode in H. open_up H.
    inv_bind H. destruct a as [r1 w1]. apply Hself in Hm.
    destruct (should_return _) in H; [settle|].
    inv_bind H. inv_bind H. destruct a0 as [[res vs] w2].
    apply visit_each_one_signal in Hm1; [|rewrite one_signal_carrier; exact Hm].
    destruct (should_return res); [settle|].
    inv_bind H. destruct a0 as [rx w3]. apply execute_one_signal in Hm2.
    destruct (should_return _) in H; settle.
  - unfold visit_ReturnNode in H. open_up H. settle.
  - unfold visit_ContinueNode in H. settle.
  - unfold visit_BreakNode in H. settle.
  - unfold visit_ImportNode, import_finish in H. open_up H.
    inv_bind H. destruct a as [r1 w1].
    destruct (rt_value r1) as [[| | | |]|]; try discriminate.
    + destruct n0; discriminate.
    + destruct (files w1 !! s); [|settle].
      inv_bind H. destruct a as [[rv err] w2].
      destruct err; [settle|].
      destruct rv as [[rr|]|]; try discriminate.
      apply run_body_one_signal in Hm0.
      destruct rr as [v [e|] f c b]; cbn [rt_error] in H; crunch;
        [exact Hm0|reflexivity].
Qed.

End OneSignal.

Lemma interpreter_one_signal fuel : forall n ctx w r w',
  self_visit (interpreter fuel) n ctx w = Ret (r, w') -> one_signal r = true.
Proof.
  induction fuel as [|fuel IH]; intros n ctx w r w' H; cbn in H; [discriminate|].
  eapply dispatch_one_signal; [exact IH|exact H].
Qed.

Lemma observed_error_is_forwarded fuel ctx node w site r w1 e :
  observes (interpreter fuel) ctx node w site r w1 ->
  rt_error r = Some e ->
  exists r', dispatch (interpreter fuel) node ctx w = Ret (r', w1)
             /\ rt_error r' = Some e.
Proof.
  intros H He.
  assert (Hs : should_return r = true) by (unfold should_return; rewrite He; reflexivity).
  destruct (observed_signal_is_forwarded _ _ _ _ _ _ _ H Hs) as (r' & E & Hsig).
  - intros ->.
    assert (Hone : one_signal r = true).
    { inversion H; subst; eapply interpreter_one_signal; eassumption. }
    unfold one_signal in Hone. rewrite He in Hone.
    destruct (func_return_value r), (loop_should_continue r), (loop_should_break r);
      try discriminate Hone; split; reflexivity.
  - intros _. rewrite He. discriminate.
  - exists r'. split; [exact E|].
    unfold signal in Hsig. injection Hsig as E1 _ _ _. rewrite E1. exact He.
Qed.

Lemma for_loop_continue self ctx fuel name body e s ss n result els w w1 next r w2 :
  for_condition (HNum n) e (VNumber s ss) = Ret true ->
  SymbolTable_set w (symbol_table ctx) name (VNumber n no_stamp) = Ret w1 ->
  num_add n s = Ret next ->
  self_visit self body ctx w1 = Ret (r, w2) ->
  loop_should_continue r = true ->
  for_loop (S fuel) self name body ctx e (VNumber s ss) (HNum n) result els w
  = for_loop fuel self name body ctx e (VNumber s ss) (HNum next)
      (fst (RTResult_register result r)) els w2.
Proof.
  intros Hc Hset Hadd Hb Hcont.
  apply (for_loop_iterates self ctx name body e s ss 1 n result els w next
           (fst (RTResult_register result r)) els w2).
  eapply for_iterates_continue; try eassumption. constructor.
Qed.

Lemma while_loop_continue self ctx fuel c body result els w rc v w1 r w2 :
  self_visit self c ctx w = Ret (rc, w1) ->
  should_return rc = false ->
  rt_value rc = Some v ->
  is_true v = true ->
  self_visit self body ctx w1 = Ret (r, w2) ->
  loop_should_continue r = true ->
  while_loop (S fuel) self c body ctx result els w
  = while_loop fuel self c body ctx
      (fst (RTResult_register (fst (RTResult_register result rc)) r)) els w2.
Proof.
  intros Hc Hsc Hvc Ht Hb Hcont.
  apply (while_loop_iterates self ctx c body 1 result els w
           (fst (RTResult_register (fst (RTResult_register result rc)) r)) els w2).
  eapply while_iterates_continue; try eassumption. constructor.
Qed.


Lemma function_body_error_is_forwarded fuel name body arg_names auto st args
    w ectx w1 r0 w2 r w3 e :
  generate_new_context (VFunction name body arg_names auto st) name w
  = Ret (ectx, w1) ->
  check_and_populate_params (VFunction name body arg_names auto st) arg_names
    args ectx w1 = Ret (r0, w2) ->
  should_return r0 = false ->
  self_visit (interpreter fuel) body ectx w2 = Ret (r, w3) ->
  rt_error r = Some e ->
  exists r', execute (interpreter fuel) (VFunction name body arg_names auto st) args w
             = Ret (r', w3)
             /\ rt_error r' = Some e.
Proof.
  intros Hg Hc Hs0 Hb He.
  rewrite (Function_execute_body _ _ _ _ _ _ _ _ _ _ _ _ _ _ Hg Hc Hs0 Hb).
  pose proof (interpreter_one_signal _ _ _ _ _ _ Hb) as Hone.
  unfold one_signal in Hone. rewrite He in Hone.
  destruct (func_return_value r) eqn:Hf.
  { destruct (loop_should_continue r), (loop_should_break r); discriminate Hone. }
  rewrite Function_finish_forwards;
    [|unfold should_return; rewrite He; reflexivity|exact Hf].
  eexists. split; [reflexivity|exact He].
Qed.


(* ================================================================== *)
(** * Further properties of the values *)

Lemma float_binop_not_zero_division op a b :
  float_binop op a b <> Raise ZeroDivisionError.
Proof.
  unfold float_binop, to_float, float_of_int.
  destruct a as [x|x], b as [y|y]; cbn;
    repeat match goal with
           | |- context [if ?c then _ else _] => destruct c; cbn
           end; discriminate.
Qed.

(** X1: a Number divided by, or taken modulo, a Number equal to zero (the
    integer 0 or a float zero) is the runtime error of the division, or of
    the modulus, by zero: it is placed at the divisor, in the context of the
    dividend, and the store is untouched.  Whatever the two Numbers, the
    operators never end with the host's [ZeroDivisionError]. *)
Theorem zero_divisor_is_reported :
  forall a st b st' w,
    divided_by (VNumber a st) (VNumber b st') w <> Raise ZeroDivisionError
    /\ modulused_by (VNumber a st) (VNumber b st') w <> Raise ZeroDivisionError
    /\ (num_eq b (PInt 0) = true ->
        divided_by (VNumber a st) (VNumber b st') w
        = Ret (inr (RTError (st_pos_start st') (st_pos_end st')
                      (ERRORS "division_by_zero") (st_context st)), w)
        /\ modulused_by (VNumber a st) (VNumber b st') w
           = Ret (inr (RTError (st_pos_start st') (st_pos_end st')
                         (ERRORS "modulus_by_zero") (st_context st)), w)).
Proof.
  intros a st b st' w.
  unfold divided_by, modulused_by, number_only, Number_divided_by,
    Number_modulused_by, num_truediv, num_mod.
  destruct (num_eq b (PInt 0)) eqn:Hz; cbn.
  - split; [discriminate|]. split; [discriminate|]. intros _. split; reflexivity.
  - split; [|split; [|discriminate]].
    + destruct a as [x|x], b as [y|y];
        try (pose proof (float_binop_not_zero_division (SFdiv prec emax)) as H;
             match goal with
             | |- context [float_binop ?o ?p ?q] =>
                 specialize (H p q); destruct (float_binop o p q); cbn;
                 congruence
             end).
      destruct (float_isinf (int_truediv x y)); cbn; discriminate.
    + destruct a as [x|x], b as [y|y]; cbn; discriminate.
Qed.

(** X2: the operators of the classes.  A Number refuses every binary
    operator whose right operand is not a Number; a Function or a built-in
    refuses every operator; a String refuses every operator but [+], and [+]
    with anything that is not a String; a List refuses every operator but
    [+ - * /].  The refusal is the runtime error [Illegal operation] from the
    start of the left operand to the end of the right one, and the store is
    untouched. *)
Theorem operators_refuse_other_classes :
  forall op m self other w,
    binary_method op = Some m ->
    let refused := m self other w
                   = Ret (inr (illegal_operation self (Some other)), w) in
    match self, other with
    | VNumber _ _, VNumber _ _ => True
    | VNumber _ _, _ => refused
    | VFunction _ _ _ _ _, _ | VBuiltInFunction _ _, _ => refused
    | VString _ _, VString _ _ => type op <> TOKEN_TYPE_PLUS -> refused
    | VString _ _, _ => refused
    | VList _ _, _ =>
        type op <> TOKEN_TYPE_PLUS -> type op <> TOKEN_TYPE_MINUS ->
        type op <> TOKEN_TYPE_MULTIPLY -> type op <> TOKEN_TYPE_DIVIDE -> refused
    end.
Proof.
  intros op m self other w Hm refused. subst refused.
  unfold binary_method in Hm.
  destruct (type op) eqn:Ht;
    try (destruct (matches op TOKEN_TYPE_KEYWORD "AND");
         [|destruct (matches op TOKEN_TYPE_KEYWORD "OR")]);
    try discriminate Hm; injection Hm as <-;
    destruct self, other; try exact I; intros; try congruence; reflexivity.
Qed.

(** The sum of the Number 1 and the String a. *)
Lemma operators_refuse_other_classes_witness :
  added_to (VNumber (PInt 1) no_stamp) (VString "a" no_stamp) (initial_world [] ∅)
  = Ret (inr (illegal_operation (VNumber (PInt 1) no_stamp)
                (Some (VString "a" no_stamp))), initial_world [] ∅).
Proof.
  exact (operators_refuse_other_classes
           (Token_new TOKEN_TYPE_PLUS NoValue (mkPosition 0 0 0 "" "") None)
           added_to (VNumber (PInt 1) no_stamp) (VString "a" no_stamp)
           (initial_world [] ∅) eq_refl).
Defined.

Lemma py_index_in_range len i :
  - len <= i < len ->
  py_index len i = Some (Z.to_nat (i mod len)) /\ (Z.to_nat (i mod len) < Z.to_nat len)%nat.
Proof.
  intros H. unfold py_index.
  assert (Hlen : 0 < len) by lia.
  destruct (Z.leb_spec 0 i).
  - assert (Hlt : (i <? len) = true) by (apply Z.ltb_lt; lia).
    rewrite Hlt. cbn. rewrite Z.mod_small by lia. split; [reflexivity|lia].
  - cbn.
    assert (H1 : (- len <=? i) = true) by (apply Z.leb_le; lia).
    assert (H2 : (i <? 0) = true) by (apply Z.ltb_lt; lia).
    rewrite H1, H2. cbn.
    assert (Hm : i mod len = i + len).
    { symmetry. apply Z.mod_unique with (-1); lia. }
    rewrite Hm. split; [reflexivity|lia].
Qed.

Lemma py_index_out_of_range len i :
  0 <= len -> i < - len \/ len <= i -> py_index len i = None.
Proof.
  intros Hlen H. unfold py_index.
  destruct (Z.leb_spec 0 i), (Z.ltb_spec i len), (Z.leb_spec (- len) i),
    (Z.ltb_spec i 0); cbn; try reflexivity; lia.
Qed.

(** X3: indexing a List with [/].  With [n] elements, an integer index [i]
    with [-n <= i < n] fetches the element at position [i mod n] (negative
    indices count from the end); any other integer index is the runtime
    error of the index, placed at the index in the context of the List; a
    right operand that is not a Number is an illegal operation.  The store is
    never changed. *)
Theorem list_index_fetches_or_reports :
  forall l st i st' w,
    let xs := get_list w l in
    let n := Z.of_nat (length xs) in
    (- n <= i < n ->
     exists x, xs !! Z.to_nat (i mod n) = Some x
               /\ divided_by (VList l st) (VNumber (PInt i) st') w = Ret (inl x, w))
    /\ (i < - n \/ n <= i ->
        divided_by (VList l st) (VNumber (PInt i) st') w
        = Ret (inr (RTError (st_pos_start st') (st_pos_end st')
                      (ERRORS "fetch_index_error") (st_context st)), w))
    /\ (forall other, (forall a s, other <> VNumber a s) ->
        divided_by (VList l st) other w
        = Ret (inr (illegal_operation (VList l st) (Some other)), w)).
Proof.
  intros l st i st' w xs n. unfold divided_by, List_divided_by. cbn [int_index host_bind].
  fold xs. fold n. split; [|split].
  - intros H. destruct (py_index_in_range n i H) as [E Hk]. rewrite E.
    assert (Hk' : (Z.to_nat (i mod n) < length xs)%nat).
    { replace (length xs) with (Z.to_nat n) by apply Nat2Z.id. exact Hk. }
    destruct (lookup_lt_is_Some_2 xs _ Hk') as [x Hx].
    exists x. split; [exact Hx|]. rewrite Hx. reflexivity.
  - intros H. rewrite (py_index_out_of_range n i) by (unfold n; lia). reflexivity.
  - intros other H. destruct other; try reflexivity. exfalso. eapply H. reflexivity.
Qed.

(** X4: [a * b] on two Lists appends the elements of [b] to the sequence of
    [a] itself, and returns a wrapper over that sequence: every value that
    holds the sequence of [a] sees the longer list, [a * a] doubles it, no
    other sequence changes, and the sequence of [b] is read, not shared. *)
Theorem list_times_list_extends_in_place :
  forall l st l2 st2 w,
    let w' := set_list w l (get_list w l ++ get_list w l2)%list in
    multiplied_by (VList l st) (VList l2 st2) w = Ret (inl (VList l st), w')
    /\ get_list w' l = (get_list w l ++ get_list w l2)%list
    /\ (forall l', l' <> l -> get_list w' l' = get_list w l')
    /\ (l2 = l -> get_list w' l = (get_list w l ++ get_list w l)%list)
    /\ tables w' = tables w /\ next_loc w' = next_loc w.
Proof.
  intros l st l2 st2 w w'. subst w'.
  split; [|split; [|split; [|split]]].
  - unfold multiplied_by, List_multiplied_by. rewrite copy_list. reflexivity.
  - apply get_list_set_list.
  - intros l' H. apply get_list_set_list_ne. exact H.
  - intros ->. apply get_list_set_list.
  - split; reflexivity.
Qed.

(** X5: [AND] and [OR] on integers give back one of their operands, not a
    truth value: [a AND b] is [b] when [a] is not zero and [0] otherwise;
    [a OR b] is [a] when [a] is not zero and [b] otherwise ([5 AND 7] is 7).
    [NOT a] is 1 for zero and 0 otherwise, so [NOT] of a [NOT] is the truth
    value. *)
Theorem and_or_give_an_operand :
  forall a b st st' w,
    anded_by (VNumber (PInt a) st) (VNumber (PInt b) st') w
    = Ret (inl (VNumber (PInt (if a =? 0 then 0 else b))
                  (mkStamp None None (st_context st))), w)
    /\ ored_by (VNumber (PInt a) st) (VNumber (PInt b) st') w
       = Ret (inl (VNumber (PInt (if a =? 0 then b else a))
                     (mkStamp None None (st_context st))), w)
    /\ notted (VNumber (PInt a) st)
       = inl (VNumber (PInt (if a =? 0 then 1 else 0))
                (mkStamp None None (st_context st)))
    /\ (forall v, notted (VNumber (PInt a) st) = inl v ->
        notted v = inl (VNumber (PInt (if a =? 0 then 0 else 1))
                          (mkStamp None None (st_context st)))).
Proof.
  intros a b st st' w.
  assert (Hz : num_eq (PInt a) (PInt 0) = (a =? 0)).
  { unfold num_eq, num_compare. destruct (Z.eqb_spec a 0) as [->|H]; [reflexivity|].
    destruct (Z.compare_spec a 0); try reflexivity; contradiction. }
  unfold anded_by, ored_by, number_only, Number_anded_by, Number_ored_by,
    Number_arith, num_and, num_or, num_truthy, num_ne, notted, Number_notted.
  rewrite Hz. cbn.
  destruct (Z.eqb_spec a 0) as [->|Ha]; cbn.
  - repeat split; try reflexivity. intros v H. injection H as <-. reflexivity.
  - repeat split; try reflexivity. intros v H. injection H as <-. reflexivity.
Qed.

(** ** Symbol tables *)

Lemma SymbolTable_get_other_name fuel : forall w t name v w' t' name',
  SymbolTable_set w t name v = Ret w' ->
  name' <> name ->
  SymbolTable_get fuel w' t' name' = SymbolTable_get fuel w t' name'.
Proof.
  induction fuel as [|fuel IH]; intros w t name v w' t' name' Hset Hne; [reflexivity|].
  pose proof Hset as Hset0. unfold SymbolTable_set in Hset.
  destruct (tables w !! t) as [tbl|] eqn:Ht; [|discriminate]. injection Hset as <-.
  cbn [SymbolTable_get tables].
  destruct (decide (t' = t)) as [->|Hd].
  - rewrite lookup_insert_eq, Ht. cbn [symbols table_parent].
    rewrite lookup_insert_ne by congruence.
    destruct (symbols tbl !! name'); [reflexivity|].
    destruct (table_parent tbl); [|reflexivity].
    apply (IH w t name v _ _ _ Hset0 Hne).
  - rewrite lookup_insert_ne by congruence.
    destruct (tables w !! t') as [tbl'|]; [|reflexivity].
    destruct (symbols tbl' !! name'); [reflexivity|].
    destruct (table_parent tbl'); [|reflexivity].
    apply (IH w t name v _ _ _ Hset0 Hne).
Qed.

Lemma set_name_is_read_back_frame w t name v w' :
  SymbolTable_set w t name v = Ret w' ->
  (forall t', t' <> t -> tables w' !! t' = tables w !! t')
  /\ lists w' = lists w
  /\ next_loc w' = next_loc w.
Proof.
  intros Hset. unfold SymbolTable_set in Hset.
  destruct (tables w !! t) as [tbl|]; [|discriminate]. injection Hset as <-.
  split; [|split; reflexivity].
  intros t' Hne. cbn. apply lookup_insert_ne. congruence.
Qed.

(** X6: [SymbolTable.set] then [get].  After a name is set in a table, that
    table answers the new value for it, whatever its parents hold (a local
    binding shadows the enclosing ones); the lookup of every other name, in
    every table of the store, is what it was; no other table and no list
    changes. *)
Theorem set_name_is_read_back :
  forall w t name v w',
    SymbolTable_set w t name v = Ret w' ->
    (forall fuel, SymbolTable_get (S fuel) w' t name = Ret (Some v))
    /\ (forall fuel t' name',
          name' <> name ->
          SymbolTable_get fuel w' t' name' = SymbolTable_get fuel w t' name')
    /\ (forall t', t' <> t -> tables w' !! t' = tables w !! t')
    /\ lists w' = lists w
    /\ next_loc w' = next_loc w.
Proof.
  intros w t name v w' Hset. split; [|split; [|split]].
  - intros fuel. unfold SymbolTable_set in Hset.
    destruct (tables w !! t) as [tbl|]; [|discriminate]. injection Hset as <-.
    cbn. rewrite lookup_insert_eq. cbn. rewrite lookup_insert_eq. reflexivity.
  - intros fuel t' name' Hne. eapply SymbolTable_get_other_name; eassumption.
  - intros t' Hne. unfold SymbolTable_set in Hset.
    destruct (tables w !! t) as [tbl|]; [|discriminate]. injection Hset as <-.
    cbn. apply lookup_insert_ne. congruence.
  - unfold SymbolTable_set in Hset.
    destruct (tables w !! t) as [tbl|]; [|discriminate]. injection Hset as <-.
    split; reflexivity.
Qed.

(** The name [x] set to 5 in the global table of the initial store: [x] is
    read back and the built-in [LEN] is still found. *)
Lemma set_name_is_read_back_witness :
  let w := initial_world [] ∅ in
  let w' := match SymbolTable_set w global_symbol_table "x"
                    (VNumber (PInt 5) no_stamp) with
            | Ret w' => w'
            | _ => w
            end in
  SymbolTable_get 1 w' global_symbol_table "x" = Ret (Some (VNumber (PInt 5) no_stamp))
  /\ SymbolTable_get 1 w' global_symbol_table "LEN"
     = SymbolTable_get 1 w global_symbol_table "LEN".
Proof.
  intros w w'.
  assert (H : SymbolTable_set w global_symbol_table "x" (VNumber (PInt 5) no_stamp)
              = Ret w') by reflexivity.
  destruct (set_name_is_read_back w global_symbol_table "x" _ w' H)
    as (H1 & H2 & _).
  split; [apply H1|apply H2; discriminate].
Defined.

(** X7: [SymbolTable.remove].  Removing a name that the table itself does
    not hold ends with the host's [KeyError], also when a parent holds the
    name; removing a name that was set on a table which did not hold it
    gives back the store as it was before the set. *)
Theorem remove_undoes_set :
  forall w t tbl name,
    tables w !! t = Some tbl ->
    symbols tbl !! name = None ->
    SymbolTable_remove w t name = Raise KeyError
    /\ (forall v w', SymbolTable_set w t name v = Ret w' ->
                     SymbolTable_remove w' t name = Ret w).
Proof.
  intros w t tbl name Ht Hn. split.
  - unfold SymbolTable_remove. rewrite Ht, Hn. reflexivity.
  - intros v w' Hset. unfold SymbolTable_set in Hset. rewrite Ht in Hset.
    injection Hset as <-. unfold SymbolTable_remove. cbn.
    rewrite lookup_insert_eq. cbn. rewrite lookup_insert_eq.
    rewrite delete_insert_eq, insert_insert_eq.
    rewrite (delete_id _ _ Hn).
    destruct w as [ls ts nl so si fs]. destruct tbl as [sy pa]. cbn in *.
    rewrite (insert_id ts t _ Ht). reflexivity.
Qed.

(** In the initial store the global table does not hold [x]. *)
Lemma remove_undoes_set_witness :
  SymbolTable_remove (initial_world [] ∅) global_symbol_table "x" = Raise KeyError.
Proof.
  refine (proj1 (remove_undoes_set (initial_world [] ∅) global_symbol_table
                   (mkSymbolTable global_symbols None) "x" _ _)).
  - reflexivity.
  - vm_compute. reflexivity.
Defined.

(** ** Variables *)

Lemma resolves_get w name : forall fuel t r,
  store_ok w ->
  resolves w name t r ->
  (t < fuel)%nat ->
  SymbolTable_get fuel w t name = Ret r.
Proof.
  induction fuel as [|fuel IH]; intros t r Hok Hr Hf; [lia|].
  cbn [SymbolTable_get].
  inversion Hr as [? tbl v Ht Hs|? tbl Ht Hs Hp|? tbl up ? Ht Hs Hp Hup]; subst;
    rewrite Ht, Hs; try reflexivity.
  - rewrite Hp. reflexivity.
  - rewrite Hp. apply IH; [exact Hok|exact Hup|].
    destruct (Hok _ _ Ht) as [_ H]. specialize (H _ Hp). lia.
Qed.

Lemma store_ok_set w t name v w' :
  store_ok w -> SymbolTable_set w t name v = Ret w' -> store_ok w'.
Proof.
  intros Hok Hset. unfold SymbolTable_set in Hset.
  destruct (tables w !! t) as [tbl|] eqn:Ht; [|discriminate]. injection Hset as <-.
  intros t' tbl'. cbn.
  destruct (decide (t' = t)) as [->|Hd].
  - rewrite lookup_insert_eq. intros H. injection H as <-. cbn.
    exact (Hok _ _ Ht).
  - rewrite lookup_insert_ne by congruence. apply Hok.
Qed.

(** X8: a name that is neither in the table of the frame nor in any table
    above it is reported as not defined, and a name bound along that chain is
    read as a copy of its nearest binding, stamped with the place and the
    frame of the access; in a store whose tables were built one under the
    other the lookup always ends.  Such stores are the initial one and those
    that [SymbolTable.set] and the frame of a call make from them. *)
Theorem variable_access_finds_the_nearest_binding :
  forall self t ps pe ctx w r,
    store_ok w ->
    resolves w (token_name t) (symbol_table ctx) r ->
    dispatch self (VarAccessNode t ps pe) ctx w
    = Ret (match r with
           | None =>
               RTResult_failure
                 (RTError (Some ps) (Some pe)
                    ("'" ++ token_name t ++ "' is not defined") (Some ctx))
           | Some v =>
               RTResult_success
                 (Some (set_context (node_stamp (copy v) (VarAccessNode t ps pe))
                          (Some ctx)))
           end, w)
    /\ store_ok (initial_world (stdin w) (files w))
    /\ (forall t' name v w', SymbolTable_set w t' name v = Ret w' -> store_ok w')
    /\ (forall f d name c w',
          value_context f = Some d ->
          is_Some (tables w !! symbol_table d) ->
          generate_new_context f name w = Ret (c, w') ->
          store_ok w').
Proof.
  intros self t ps pe ctx w r Hok Hr. split; [|split; [|split]].
  - cbn [dispatch]. unfold visit_VarAccessNode, lookup.
    assert (Hlt : (symbol_table ctx < S (next_loc w))%nat).
    { inversion Hr; subst;
        match goal with H : tables w !! _ = Some _ |- _ =>
          destruct (Hok _ _ H) as [Hlt _]; lia end. }
    rewrite (resolves_get w _ _ _ _ Hok Hr Hlt). cbn [host_bind].
    destruct r; reflexivity.
  - intros t' tbl H. unfold initial_world in H. cbn in H.
    destruct t' as [|t'].
    + rewrite lookup_insert_eq in H. injection H as <-. cbn.
      split; [lia|discriminate].
    + rewrite lookup_insert_ne in H by discriminate.
      rewrite lookup_empty in H. discriminate.
  - intros t' name v w' H. eapply store_ok_set; eassumption.
  - intros f d name c w' Hctx [tbl0 Hup] H. unfold generate_new_context in H.
    rewrite Hctx in H. cbn in H. injection H as <- <-.
    intros t' tbl'. cbn.
    destruct (decide (t' = next_loc w)) as [->|Hd].
    + rewrite lookup_insert_eq. intros H. injection H as <-. cbn.
      split; [lia|]. intros up E. injection E as <-.
      apply (Hok _ _ Hup).
    + rewrite lookup_insert_ne by congruence. intros H.
      destruct (Hok _ _ H) as [H1 H2]. split; [lia|exact H2].
Qed.

(** In the initial store the name [x] is bound nowhere, and the access to it
    is the error of the undefined name. *)
Lemma variable_access_finds_the_nearest_binding_witness :
  let p := mkPosition 0 0 0 source_name "x" in
  let q := mkPosition 1 0 1 source_name "x" in
  let t := Token_new TOKEN_TYPE_IDENTIFIER (StrValue "x") p (Some q) in
  dispatch (interpreter 1) (VarAccessNode t p q) (program_context None None)
    (initial_world [] ∅)
  = Ret (RTResult_failure
           (RTError (Some p) (Some q) "'x' is not defined"
              (Some (program_context None None))), initial_world [] ∅).
Proof.
  intros p q t.
  assert (Hok : store_ok (initial_world [] ∅)).
  { intros t' tbl H. unfold initial_world in H. cbn in H.
    destruct t' as [|t'].
    - rewrite lookup_insert_eq in H. injection H as <-. cbn. split; [lia|discriminate].
    - rewrite lookup_insert_ne in H by discriminate.
      rewrite lookup_empty in H. discriminate. }
  assert (Hr : resolves (initial_world [] ∅) (token_name t)
                 (symbol_table (program_context None None)) None).
  { eapply resolves_nowhere; [reflexivity| |reflexivity]. vm_compute. reflexivity. }
  exact (proj1 (variable_access_finds_the_nearest_binding (interpreter 1) t p q
                  (program_context None None) (initial_world [] ∅) None Hok Hr)).
Defined.

(** X9: [VAR name = expr].  When the expression has a value, the assignment
    has that value, binds the name in the table of the current frame and in
    no other table, and leaves the lists alone; an access to the name in the
    same frame then reads a copy of the value, stamped with the place and the
    frame of the access. *)
Theorem assignment_binds_in_the_frame :
  forall self t n ps pe ctx w r w1 v tbl,
    self_visit self n ctx w = Ret (r, w1) ->
    should_return r = false ->
    rt_value r = Some v ->
    tables w1 !! symbol_table ctx = Some tbl ->
    exists w2,
      dispatch self (VarAssignNode t n ps pe) ctx w = Ret (RTResult_success (Some v), w2)
      /\ (forall t' ps' pe',
            token_name t' = token_name t ->
            dispatch self (VarAccessNode t' ps' pe') ctx w2
            = Ret (RTResult_success
                     (Some (set_context
                              (node_stamp (copy v) (VarAccessNode t' ps' pe'))
                              (Some ctx))), w2))
      /\ (forall l, l <> symbol_table ctx -> tables w2 !! l = tables w1 !! l)
      /\ lists w2 = lists w1.
Proof.
  intros self t n ps pe ctx w r w1 v tbl Hn Hs Hv Ht.
  destruct (SymbolTable_set w1 (symbol_table ctx) (token_name t) v) as [w2| | |] eqn:Hset;
    try (unfold SymbolTable_set in Hset; rewrite Ht in Hset; discriminate).
  exists w2. split; [|split; [|split]].
  - cbn [dispatch]. unfold visit_VarAssignNode. rewrite Hn. cbn [host_bind].
    rewrite (register_no_signal _ _ Hs).
    cbn [should_return rt_error func_return_value loop_should_continue
         loop_should_break orb].
    rewrite Hv. cbn [need host_bind]. rewrite Hset. reflexivity.
  - intros t' ps' pe' Hname. cbn [dispatch]. unfold visit_VarAccessNode.
    rewrite Hname. rewrite (lookup_after_set _ _ _ _ _ ctx eq_refl Hset).
    reflexivity.
  - intros l Hl. unfold SymbolTable_set in Hset. rewrite Ht in Hset.
    injection Hset as <-. cbn. apply lookup_insert_ne. congruence.
  - unfold SymbolTable_set in Hset. rewrite Ht in Hset. injection Hset as <-.
    reflexivity.
Qed.

(** The statement [VAR x = 5] of a program, from the initial store. *)
Lemma assignment_binds_in_the_frame_witness :
  let txt := "VAR x = 5" in
  let p0 := mkPosition 0 0 0 source_name txt in
  let p4 := mkPosition 4 0 4 source_name txt in
  let p5 := mkPosition 5 0 5 source_name txt in
  let p8 := mkPosition 8 0 8 source_name txt in
  let p9 := mkPosition 9 0 9 source_name txt in
  let x := Token_new TOKEN_TYPE_IDENTIFIER (StrValue "x") p4 (Some p5) in
  let five := NumberNode (Token_new TOKEN_TYPE_INT (NumValue (PInt 5)) p8 (Some p9)) p8 p9 in
  let ctx := program_context None None in
  let v := VNumber (PInt 5) (mkStamp (Some p8) (Some p9) (Some ctx)) in
  exists w2,
    dispatch (interpreter 2) (VarAssignNode x five p0 p9) ctx (initial_world [] ∅)
    = Ret (RTResult_success (Some v), w2)
    /\ dispatch (interpreter 2) (VarAccessNode x p4 p5) ctx w2
       = Ret (RTResult_success
                (Some (VNumber (PInt 5) (mkStamp (Some p4) (Some p5) (Some ctx)))), w2).
Proof.
  intros txt p0 p4 p5 p8 p9 x five ctx v.
  destruct (assignment_binds_in_the_frame (interpreter 2) x five p0 p9 ctx
              (initial_world [] ∅) (RTResult_success (Some v)) (initial_world [] ∅) v
              (mkSymbolTable global_symbols None)
              eq_refl eq_refl eq_refl eq_refl) as (w2 & H1 & H2 & _).
  exists w2. split; [exact H1|]. exact (H2 x p4 p5 eq_refl).
Defined.

(** ** Conditionals and loops *)


Lemma number_node_evaluates fuel z ctx w :
  evaluates (interpreter (S (S fuel))) ctx (number_node z) w (number_value z ctx) w.
Proof. eexists. split; [reflexivity|split; reflexivity]. Qed.




(** ** Calls *)

(** X12: a Function called with a number of arguments that is not the number
    of its parameters is not run: the call is the runtime error that counts
    the arguments too many or too few, placed at the function value in its
    own context, and the store only gains the empty table of the frame that
    was prepared. *)
Theorem call_with_wrong_arity_is_refused :
  forall self name body arg_names auto st args w d,
    st_context st = Some d ->
    length args <> length arg_names ->
    let n := length args in
    let m := length arg_names in
    execute self (VFunction name body arg_names auto st) args w
    = Ret (RTResult_failure
             (RTError (st_pos_start st) (st_pos_end st)
                (if (m <? n)%nat
                 then count_text (n - m) ++ " too many args passed into "
                      ++ "<function " ++ name ++ ">"
                 else count_text (m - n) ++ " too few args passed into "
                      ++ "<function " ++ name ++ ">")
                (Some d)),
           snd (alloc_table w (mkSymbolTable ∅ (Some (symbol_table d))))).
Proof.
  intros self name body arg_names auto st args w d Hd Hlen n m.
  cbn [execute]. unfold Function_execute, generate_new_context.
  unfold value_context. cbn [stamp]. rewrite Hd. cbn [need host_bind].
  unfold alloc_table. cbn [host_bind snd].
  unfold check_and_populate_params, check_params. fold n. fold m.
  destruct (m <? n)%nat eqn:E1.
  - cbn. unfold value_context. cbn. rewrite Hd.
    reflexivity.
  - destruct (n <? m)%nat eqn:E2.
    + cbn. unfold value_context. cbn. rewrite Hd.
      reflexivity.
    + apply Nat.ltb_ge in E1, E2. subst n m. lia.
Qed.

(** [f] of one parameter called with two arguments. *)
Lemma call_with_wrong_arity_is_refused_witness :
  let d := program_context None None in
  let st := mkStamp (Some origin) (Some origin) (Some d) in
  let w := initial_world [] ∅ in
  execute (interpreter 1) (VFunction "f" (number_node 0) ["a"] true st)
    [number_value 1 d; number_value 2 d] w
  = Ret (RTResult_failure
           (RTError (Some origin) (Some origin)
              "1 too many args passed into <function f>" (Some d)),
         snd (alloc_table w (mkSymbolTable ∅ (Some global_symbol_table)))).
Proof.
  intros d st w.
  exact (call_with_wrong_arity_is_refused (interpreter 1) "f" (number_node 0) ["a"]
           true st [number_value 1 d; number_value 2 d] w d eq_refl
           (fun H : 2%nat = 1%nat => Nat.neq_succ_diag_l 1 H)).
Defined.

Lemma populate_params_keeps names : forall args ectx w w',
  populate_params names args ectx w = Ret w' ->
  (forall fuel t name,
      name ∉ names -> SymbolTable_get fuel w' t name = SymbolTable_get fuel w t name)
  /\ (forall t, t <> symbol_table ectx -> tables w' !! t = tables w !! t)
  /\ lists w' = lists w
  /\ next_loc w' = next_loc w.
Proof.
  induction names as [|n names IH]; intros args ectx w w' H.
  - destruct args; [|discriminate]. injection H as <-. auto.
  - destruct args as [|a args]; [injection H as <-; auto|].
    cbn [populate_params] in H. inv_bind H.
    destruct (IH _ _ _ _ H) as (H1 & H2 & H3 & H4).
    destruct (set_name_is_read_back_frame _ _ _ _ _ Hm) as (G2 & G3 & G4).
    split; [|split; [|split]].
    + intros fuel t name Hn. apply not_elem_of_cons in Hn. destruct Hn as [Hn1 Hn2].
      rewrite H1 by exact Hn2.
      eapply SymbolTable_get_other_name; [exact Hm|exact Hn1].
    + intros t Ht. rewrite H2 by exact Ht. apply G2. exact Ht.
    + congruence.
    + congruence.
Qed.

Lemma populate_params_binds :
  forall names args ectx w tbl,
    length args = length names ->
    NoDup names ->
    tables w !! symbol_table ectx = Some tbl ->
    exists w',
      populate_params names args ectx w = Ret w'
      /\ (forall i name a,
            names !! i = Some name -> args !! i = Some a ->
            lookup w' ectx name = Ret (Some (set_context a (Some ectx))))
      /\ (forall t, t <> symbol_table ectx -> tables w' !! t = tables w !! t)
      /\ lists w' = lists w.
Proof.
  induction names as [|n names IH]; intros args ectx w tbl Hlen Hnd Ht.
  - destruct args; [|discriminate]. exists w. split; [reflexivity|].
    split; [intros i name a H; rewrite lookup_nil in H; discriminate|auto].
  - destruct args as [|a args]; [discriminate|].
    apply NoDup_cons in Hnd. destruct Hnd as [Hn Hnd].
    destruct (SymbolTable_set w (symbol_table ectx) n (set_context a (Some ectx)))
      as [w1| | |] eqn:Hset;
      try (unfold SymbolTable_set in Hset; rewrite Ht in Hset; discriminate).
    assert (Ht1 : is_Some (tables w1 !! symbol_table ectx)).
    { unfold SymbolTable_set in Hset. rewrite Ht in Hset. injection Hset as <-.
      cbn. rewrite lookup_insert_eq. eauto. }
    destruct Ht1 as [tbl1 Ht1].
    destruct (IH args ectx w1 tbl1) as (w' & E & Hb & Hf & Hl);
      [cbn in Hlen; lia|exact Hnd|exact Ht1|].
    destruct (populate_params_keeps _ _ _ _ _ E) as (K1 & _ & _ & K4).
    destruct (set_name_is_read_back_frame _ _ _ _ _ Hset) as (G2 & G3 & G4).
    exists w'. split; [cbn [populate_params]; rewrite Hset; exact E|].
    split; [|split].
    + intros i name b Hi Ha. destruct i as [|i]; cbn in Hi, Ha.
      * injection Hi as <-. injection Ha as <-. unfold lookup.
        rewrite K1 by exact Hn. rewrite K4.
        unfold SymbolTable_set in Hset. rewrite Ht in Hset. injection Hset as <-.
        cbn. rewrite lookup_insert_eq. cbn. rewrite lookup_insert_eq. reflexivity.
      * eapply Hb; eassumption.
    + intros t Hne. rewrite Hf by exact Hne. apply G2. exact Hne.
    + congruence.
Qed.

Lemma held_in_list_same w w' l : lists w' = lists w -> held_in_list w' l = held_in_list w l.
Proof. intros H. unfold held_in_list, get_list. rewrite H. reflexivity. Qed.

Lemma held_in_table_same w w' t :
  tables w' !! t = tables w !! t -> held_in_table w' t = held_in_table w t.
Proof. intros H. unfold held_in_table. rewrite H. reflexivity. Qed.

(** X13: the parameters of a call.  With as many arguments as parameter
    names, no name twice, and the table of the execution frame in the store,
    [populate_params] binds every name, in that table, to its argument, whose
    context becomes the execution frame (a Function argument keeps its own);
    afterwards each parameter is read from the frame as that value.  Every
    other table and every list holds what it held, up to the contexts of
    the values: an argument that is held there too has the new context
    there. *)
Theorem parameters_are_bound_in_the_frame :
  forall names args ectx w tbl,
    length args = length names ->
    NoDup names ->
    tables w !! symbol_table ectx = Some tbl ->
    exists w',
      populate_params names args ectx w = Ret w'
      /\ (forall i name a,
            names !! i = Some name -> args !! i = Some a ->
            lookup w' ectx name = Ret (Some (set_context a (Some ectx))))
      /\ (forall t, t <> symbol_table ectx -> held_in_table w' t = held_in_table w t)
      /\ (forall l, held_in_list w' l = held_in_list w l).
Proof.
  intros names args ectx w tbl Hlen Hnd Ht.
  destruct (populate_params_binds names args ectx w tbl Hlen Hnd Ht)
    as (w' & E & Hb & Hf & Hl).
  exists w'. split; [exact E|]. split; [exact Hb|]. split.
  - intros t Hne. apply held_in_table_same, Hf, Hne.
  - intros l. apply held_in_list_same, Hl.
Qed.

(** The parameters [a] and [b] bound to 1 and 2 in a new frame. *)
Lemma parameters_are_bound_in_the_frame_witness :
  let d := program_context None None in
  let w := snd (alloc_table (initial_world [] ∅)
                  (mkSymbolTable ∅ (Some global_symbol_table))) in
  let ectx := mkContext "f" (Some d) None 1%nat in
  exists w',
    populate_params ["a"; "b"] [number_value 1 d; number_value 2 d] ectx w = Ret w'
    /\ lookup w' ectx "b" = Ret (Some (number_value 2 ectx)).
Proof.
  intros d w ectx.
  assert (Hnd : NoDup ["a"; "b"]).
  { apply NoDup_cons. split.
    - intros H. apply list_elem_of_singleton in H. discriminate H.
    - apply NoDup_singleton. }
  destruct (parameters_are_bound_in_the_frame ["a"; "b"]
              [number_value 1 d; number_value 2 d] ectx w
              (mkSymbolTable ∅ (Some global_symbol_table)) eq_refl Hnd eq_refl)
    as (w' & E & Hb & _).
  exists w'. split; [exact E|]. exact (Hb 1%nat "b" _ eq_refl eq_refl).
Defined.

(** ** Built-in functions on lists *)

(** The frame of a call of a built-in: a new table under the table of the
    built-in's context, holding the arguments under the names of the
    parameters. *)
Lemma builtin_frame self name st d names args w :
  st_context st = Some d ->
  builtin_arg_names name = Ret names ->
  length args = length names ->
  NoDup names ->
  let f := VBuiltInFunction name st in
  let ectx := mkContext name (Some d) (st_pos_start st) (next_loc w) in
  exists w2,
    execute self f args w
    = (let* (r, w3) := builtin_body self f name ectx w2 in
       if should_return r
       then Ret (mkRTResult None (rt_error r) (func_return_value r)
                   (loop_should_continue r) (loop_should_break r), w3)
       else Ret (RTResult_success (rt_value r), w3))
    /\ (forall i n a, names !! i = Some n -> args !! i = Some a ->
        lookup w2 ectx n = Ret (Some (set_context a (Some ectx))))
    /\ lists w2 = lists w
    /\ (forall t, t <> next_loc w -> tables w2 !! t = tables w !! t).
Proof.
  intros Hd Hn Hlen Hnd f ectx.
  pose (w1 := snd (alloc_table w (mkSymbolTable ∅ (Some (symbol_table d))))).
  destruct (populate_params_binds names args ectx w1
              (mkSymbolTable ∅ (Some (symbol_table d))) Hlen Hnd)
    as (w2 & E & Hb & Hf & Hl).
  { cbn. apply lookup_insert_eq. }
  exists w2. split; [|split; [exact Hb|split]].
  - subst f ectx. cbn [execute]. unfold BuiltInFunction_execute, generate_new_context.
    unfold value_context. cbn [stamp]. rewrite Hd. cbn [need host_bind].
    unfold alloc_table. cbn [host_bind]. rewrite Hn. cbn [host_bind].
    unfold check_and_populate_params, check_params.
    rewrite Hlen, Nat.ltb_irrefl. cbn.
    unfold w1, alloc_table in E. cbn in E.
    unfold value_pos_start. cbn [stamp].
    rewrite E. cbn [host_bind should_return RTResult_success rt_error
                    func_return_value loop_should_continue loop_should_break orb].
    destruct (builtin_body self _ name _ w2) as [[r w3]| | |]; try reflexivity.
  - rewrite Hl. reflexivity.
  - intros t Ht. rewrite Hf by (cbn; exact Ht). cbn.
    apply lookup_insert_ne. congruence.
Qed.

Lemma NoDup_pair (a b : string) : a <> b -> NoDup [a; b].
Proof.
  intros H. apply NoDup_cons. split; [|apply NoDup_singleton].
  intros E. apply list_elem_of_singleton in E. contradiction.
Qed.

Lemma forget_set_context v c : forget_context (set_context v c) = forget_context v.
Proof.
  unfold set_context, BaseFunction_set_context, forget_context, Value_set_context,
    value_pos_start, value_pos_end.
  destruct (is_function v); [destruct (value_context v)|];
    rewrite ?stamp_with_stamp, ?with_stamp_twice; reflexivity.
Qed.



(** X15: the built-in [POP(list, index)].  With [n] elements and an integer
    index [i], [-n <= i < n], the call has as value the element at position
    [i mod n] and takes it out of the very sequence of the List, which is one
    shorter for every value that holds it; any other integer index that fits
    the host's [ssize_t] is the runtime error of the index, and no sequence
    gains or loses an element; an index that does not fit ends with the
    host's [OverflowError].  The element and what the sequences hold are
    given up to the contexts of the values, since the arguments get the
    frame of the call as context wherever they are held. *)
Theorem pop_builtin_removes_in_place :
  forall self st d l s i si w,
    st_context st = Some d ->
    let f := VBuiltInFunction "pop" st in
    let ectx := mkContext "pop" (Some d) (st_pos_start st) (next_loc w) in
    let xs := get_list w l in
    let n := Z.of_nat (length xs) in
    let call := execute self f [VList l s; VNumber (PInt i) si] w in
    (fits_ssize_t i = true ->
     - n <= i < n ->
     exists x x' w',
       xs !! Z.to_nat (i mod n) = Some x
       /\ call = Ret (RTResult_success (Some x'), w')
       /\ forget_context x' = forget_context x
       /\ held_in_list w' l
          = map forget_context
              (take (Z.to_nat (i mod n)) xs ++ drop (S (Z.to_nat (i mod n))) xs)%list
       /\ S (length (get_list w' l)) = length xs
       /\ (forall l', l' <> l -> held_in_list w' l' = held_in_list w l'))
    /\ (fits_ssize_t i = true ->
        i < - n \/ n <= i ->
        exists w',
          call = Ret (RTResult_failure
                        (RTError (st_pos_start st) (st_pos_end st)
                           (ERRORS "list_index_error") (Some ectx)), w')
          /\ (forall l', held_in_list w' l' = held_in_list w l'))
    /\ (fits_ssize_t i = false -> call = Raise OverflowError).
Proof.
  intros self st d l s i si w Hd f ectx xs n call.
  assert (Hnd : NoDup ["list"; "index"]) by (apply NoDup_pair; discriminate).
  destruct (builtin_frame self "pop" st d ["list"; "index"]
              [VList l s; VNumber (PInt i) si] w Hd eq_refl eq_refl Hnd)
    as (w2 & E & Hb & Hl & Ht).
  fold f ectx in E, Hb. fold call in E.
  pose proof (Hb 0%nat "list" _ eq_refl eq_refl) as H0.
  pose proof (Hb 1%nat "index" _ eq_refl eq_refl) as H1.
  assert (Hxs : get_list w2 l = xs) by (unfold xs, get_list; rewrite Hl; reflexivity).
  assert (Ebody : call
                  = if fits_ssize_t i then
                      match py_index n i with
                      | Some k =>
                          Ret (RTResult_success (xs !! k),
                               set_list w2 l (take k xs ++ drop (S k) xs)%list)
                      | None =>
                          Ret (RTResult_failure
                                 (RTError (st_pos_start st) (st_pos_end st)
                                    (ERRORS "list_index_error") (Some ectx)), w2)
                      end
                    else Raise OverflowError).
  { rewrite E. unfold builtin_body. cbn [String.eqb Ascii.eqb Bool.eqb].
    rewrite H0, H1. unfold pop_index.
    cbn [host_bind set_context is_function Value_set_context with_stamp int_index].
    destruct (fits_ssize_t i); [|reflexivity]. cbn [host_bind].
    rewrite Hxs. fold n. destruct (py_index n i); reflexivity. }
  split; [|split].
  - intros Hfit Hi. rewrite Hfit in Ebody.
    destruct (py_index_in_range n i Hi) as [Ek Hk].
    assert (Hk' : (Z.to_nat (i mod n) < length xs)%nat).
    { replace (length xs) with (Z.to_nat n) by apply Nat2Z.id. exact Hk. }
    destruct (lookup_lt_is_Some_2 xs _ Hk') as [x Hx].
    exists x, x, (set_list w2 l (take (Z.to_nat (i mod n)) xs
                                 ++ drop (S (Z.to_nat (i mod n))) xs)%list).
    split; [exact Hx|]. split; [rewrite Ebody, Ek, Hx; reflexivity|].
    split; [reflexivity|].
    split; [unfold held_in_list; rewrite get_list_set_list; reflexivity|]. split.
    + rewrite get_list_set_list, length_app, length_take, length_drop.
      generalize dependent (Z.to_nat (i mod n)). intros k _ _ Hk' _.
      clear - Hk'. rewrite Nat.min_l by lia. lia.
    + intros l' Hne. unfold held_in_list.
      rewrite get_list_set_list_ne by exact Hne.
      unfold get_list. rewrite Hl. reflexivity.
  - intros Hfit Hi. rewrite Hfit in Ebody. exists w2.
    split; [|intros k; apply held_in_list_same, Hl].
    rewrite Ebody, (py_index_out_of_range n i) by (unfold n; lia). reflexivity.
  - intros Hfit. rewrite Hfit in Ebody. exact Ebody.
Qed.

(** The last element popped with the index -1. *)
Lemma pop_builtin_removes_in_place_witness :
  let d := program_context None None in
  let st := mkStamp (Some origin) (Some origin) (Some d) in
  let w := snd (alloc_list (initial_world [] ∅) [number_value 1 d; number_value 2 d]) in
  exists x' w',
    execute (interpreter 1) (VBuiltInFunction "pop" st)
      [VList 1%nat no_stamp; VNumber (PInt (-1)) no_stamp] w
    = Ret (RTResult_success (Some x'), w')
    /\ forget_context x' = forget_context (number_value 2 d)
    /\ held_in_list w' 1%nat = [forget_context (number_value 1 d)].
Proof.
  intros d st w.
  destruct (proj1 (pop_builtin_removes_in_place (interpreter 1) st d 1%nat no_stamp
                     (-1) no_stamp w eq_refl))
    as (x & x' & w' & Hx & E & Hsame & Hl & _).
  { reflexivity. }
  { vm_compute. split; [discriminate|reflexivity]. }
  exists x', w'. vm_compute in Hx. injection Hx as <-.
  split; [exact E|]. split; [exact Hsame|]. rewrite Hl. vm_compute. reflexivity.
Defined.



(** ** The cursor of the parser *)

Lemma Parser_advances p k :
  tokens (Nat.iter k Parser_advance p) = tokens p
  /\ token_index (Nat.iter k Parser_advance p) = token_index p + Z.of_nat k
  /\ (0 <= token_index p ->
      (token_index p + Z.of_nat k < Z.of_nat (length (tokens p)) ->
       k <> 0%nat ->
       tokens p !! Z.to_nat (token_index p + Z.of_nat k)
       = Some (current_token (Nat.iter k Parser_advance p)))
      /\ (tokens p !! Z.to_nat (token_index p) = Some (current_token p) ->
          Z.of_nat (length (tokens p)) <= token_index p + Z.of_nat k ->
          last (tokens p) = Some (current_token (Nat.iter k Parser_advance p)))).
Proof.
  induction k as [|k IH].
  - change (Nat.iter 0 Parser_advance p) with p.
    split; [reflexivity|]. split; [lia|]. intros Hi. split; [congruence|].
    intros Hc Hlen. exfalso.
    apply lookup_lt_Some in Hc. lia.
  - change (Nat.iter (S k) Parser_advance p)
      with (Parser_advance (Nat.iter k Parser_advance p)).
    destruct IH as (IH1 & IH2 & IH3).
    set (p' := Nat.iter k Parser_advance p) in *.
    unfold Parser_advance. cbn [tokens token_index current_token].
    split; [exact IH1|]. split; [lia|]. intros Hi.
    destruct (IH3 Hi) as [IHa IHb].
    unfold Parser_update_current_tok. rewrite IH1, IH2.
    destruct (Z.leb_spec 0 (token_index p + Z.of_nat k + 1)); [|lia].
    destruct (Z.ltb_spec (token_index p + Z.of_nat k + 1) (Z.of_nat (length (tokens p))))
      as [Hin|Hout]; cbn [andb].
    + split; [|intros; lia]. intros _ _.
      replace (token_index p + Z.of_nat (S k)) with (token_index p + Z.of_nat k + 1) by lia.
      assert (Hlt : (Z.to_nat (token_index p + Z.of_nat k + 1) < length (tokens p))%nat)
        by lia.
      destruct (lookup_lt_is_Some_2 _ _ Hlt) as [x Hx].
      rewrite Hx. f_equal. symmetry.
      apply nth_lookup_Some with (d := current_token p') in Hx. exact Hx.
    + split; [intros; lia|]. intros Hc _.
      destruct (Z.le_gt_cases (Z.of_nat (length (tokens p))) (token_index p + Z.of_nat k))
        as [Hge|Hlt].
      * apply IHb; assumption.
      * assert (Hk : token_index p + Z.of_nat k = Z.of_nat (length (tokens p)) - 1) by lia.
        destruct k as [|k'].
        -- cbn in p'. subst p'. rewrite last_lookup. rewrite <- Hc. f_equal. lia.
        -- rewrite last_lookup. rewrite <- IHa by lia. f_equal. lia.
Qed.

(** X17: the cursor of the parser.  From a cursor that stands on a token of
    the list, [reverse(k)] after [k] calls of [advance] gives back the very
    same parser state, also when the advances ran past the end of the list;
    the index counts every advance, and once it is past the end the current
    token stays the last token of the list (the EOF token of a lexed text). *)
Theorem reverse_undoes_advances :
  forall p k,
    0 <= token_index p ->
    tokens p !! Z.to_nat (token_index p) = Some (current_token p) ->
    Parser_reverse (Nat.iter k Parser_advance p) (Z.of_nat k) = p
    /\ token_index (Nat.iter k Parser_advance p) = token_index p + Z.of_nat k
    /\ (Z.of_nat (length (tokens p)) <= token_index p + Z.of_nat k ->
        last (tokens p) = Some (current_token (Nat.iter k Parser_advance p))).
Proof.
  intros p k Hi Hc.
  destruct (Parser_advances p k) as (H1 & H2 & H3).
  destruct (H3 Hi) as [_ Hb].
  split; [|split; [exact H2|intros H; apply Hb; assumption]].
  unfold Parser_reverse. rewrite H1, H2.
  replace (token_index p + Z.of_nat k - Z.of_nat k) with (token_index p) by lia.
  unfold Parser_update_current_tok.
  pose proof (lookup_lt_Some _ _ _ Hc) as Hlt.
  destruct (Z.leb_spec 0 (token_index p)); [|lia].
  destruct (Z.ltb_spec (token_index p) (Z.of_nat (length (tokens p)))); [|lia].
  cbn [andb]. rewrite (nth_lookup_Some _ _ _ _ Hc).
  destruct p; reflexivity.
Qed.

(** On the tokens of [1 + 2], five advances (two of them past the EOF) and a
    reverse of five. *)
Lemma reverse_undoes_advances_witness :
  Parser_reverse (Nat.iter 5 Parser_advance (parser_of "1 + 2")) (Z.of_nat 5)
  = parser_of "1 + 2"
  /\ last (tokens (parser_of "1 + 2"))
     = Some (current_token (Nat.iter 5 Parser_advance (parser_of "1 + 2"))).
Proof.
  assert (H0 : 0 <= token_index (parser_of "1 + 2")) by (vm_compute; discriminate).
  assert (Hc : tokens (parser_of "1 + 2") !! Z.to_nat (token_index (parser_of "1 + 2"))
               = Some (current_token (parser_of "1 + 2"))) by (vm_compute; reflexivity).
  assert (Hlen : Z.of_nat (length (tokens (parser_of "1 + 2")))
                 <= token_index (parser_of "1 + 2") + Z.of_nat 5)
    by (vm_compute; discriminate).
  destruct (reverse_undoes_advances (parser_of "1 + 2") 5 H0 Hc) as (H1 & _ & H3).
  split; [exact H1|exact (H3 Hlen)].
Defined.

(** ** The lexer *)

Lemma get_beyond s : forall n, (String.length s <= n)%nat -> String.get n s = None.
Proof.
  induction s as [|c s IH]; intros n H; [reflexivity|].
  destruct n as [|n]; cbn in H; [lia|]. cbn. apply IH. lia.
Qed.

Lemma substring_snoc s : forall j c,
  String.get j s = Some c ->
  substring 0 (S j) s = substring 0 j s ++ String c "".
Proof.
  induction s as [|x s IH]; intros j c H; [discriminate|].
  destruct j as [|j]; cbn in H.
  - injection H as <-. destruct s; reflexivity.
  - cbn [substring]. rewrite (IH _ _ H). reflexivity.
Qed.

Lemma line_and_column_snoc s : forall c line col,
  line_and_column (s ++ String c "") line col
  = (if Ascii.eqb c newline_char
     then (fst (line_and_column s line col) + 1, 0)
     else (fst (line_and_column s line col), snd (line_and_column s line col) + 1)).
Proof.
  induction s as [|x s IH]; intros c line col;
    [change ("" +:+ String c "") with (String c "")
    |change (String x s +:+ String c "") with (String x (s +:+ String c ""))];
    cbn [line_and_column fst snd].
  - destruct (Ascii.eqb c newline_char); reflexivity.
  - destruct (Ascii.eqb x newline_char); apply IH.
Qed.

(** The lexer after [j] characters of its text. *)
Lemma Lexer_after fname txt : forall j,
  (j <= String.length txt)%nat ->
  Nat.iter j Lexer_advance (Lexer_new fname txt)
  = mkLexer fname txt
      (mkPosition (Z.of_nat j)
         (fst (line_and_column (substring 0 j txt) 0 0))
         (snd (line_and_column (substring 0 j txt) 0 0)) fname txt)
      (String.get j txt).
Proof.
  induction j as [|j IH]; intros Hj.
  - change (Nat.iter 0 Lexer_advance (Lexer_new fname txt)) with (Lexer_new fname txt).
    unfold Lexer_new, Lexer_advance, Position_advance. cbn.
    destruct txt as [|c r]; cbn; [reflexivity|].
    rewrite (proj2 (Z.ltb_lt 0 _)) by lia. reflexivity.
  - change (Nat.iter (S j) Lexer_advance (Lexer_new fname txt))
      with (Lexer_advance (Nat.iter j Lexer_advance (Lexer_new fname txt))).
    rewrite IH by lia. unfold Lexer_advance, Position_advance.
    cbn [pos current_char text lexer_filename theindex linenum column filename filetext].
    assert (Hget : exists c, String.get j txt = Some c).
    { destruct (String.get j txt) eqn:E; [eauto|].
      exfalso. clear IH. revert j Hj E. induction txt as [|x r IHt]; intros j Hj E.
      - cbn in Hj. lia.
      - destruct j as [|j]; [discriminate|]. cbn in Hj, E. apply (IHt j); [lia|exact E]. }
    destruct Hget as [c Hc]. rewrite Hc. cbn [opt_ascii_eqb].
    rewrite (substring_snoc _ _ _ Hc), line_and_column_snoc.
    replace (Z.of_nat j + 1) with (Z.of_nat (S j)) by lia.
    assert (Hcur : (if Z.of_nat (S j) <? Z.of_nat (String.length txt)
                    then String.get (Z.to_nat (Z.of_nat (S j))) txt else None)
                   = String.get (S j) txt).
    { rewrite Nat2Z.id. destruct (Z.ltb_spec (Z.of_nat (S j)) (Z.of_nat (String.length txt)));
        [reflexivity|]. symmetry. apply get_beyond. lia. }
    destruct (Ascii.eqb c newline_char); cbn [theindex fst snd]; rewrite Hcur; reflexivity.
Qed.

(** X18: the position of the lexer.  After [j] characters of the text the
    position holds the index [j], the number of newlines among those
    characters as its line, and as its column the number of characters since
    the last of them (the index itself on the first line); the current
    character is the character of the text at that index, and none at the
    end of the text. *)
Theorem lexer_position_counts_lines_and_columns :
  forall fname txt j,
    (j <= String.length txt)%nat ->
    let l := Nat.iter j Lexer_advance (Lexer_new fname txt) in
    theindex (pos l) = Z.of_nat j
    /\ (linenum (pos l), column (pos l)) = line_and_column (substring 0 j txt) 0 0
    /\ current_char l = String.get j txt
    /\ (j = String.length txt -> current_char l = None)
    /\ text l = txt.
Proof.
  intros fname txt j Hj l. subst l. rewrite (Lexer_after fname txt j Hj).
  cbn [pos current_char text theindex linenum column].
  split; [reflexivity|]. split; [symmetry; apply surjective_pairing|].
  split; [reflexivity|]. split; [|reflexivity].
  intros ->. apply get_beyond. lia.
Qed.

(** After the four characters of [a], newline, [bc]: line 1, column 2. *)
Lemma lexer_position_counts_lines_and_columns_witness :
  let txt := "a" ++ nl ++ "bc" in
  let l := Nat.iter 4 Lexer_advance (Lexer_new source_name txt) in
  (linenum (pos l), column (pos l)) = (1, 2) /\ current_char l = None.
Proof.
  intros txt l.
  destruct (lexer_position_counts_lines_and_columns source_name txt 4
              (Nat.le_refl 4)) as (_ & H2 & _ & H4 & _).
  split; [exact H2|exact (H4 eq_refl)].
Defined.

Lemma try_number_token {A B} (body : host (A + B)) (a b : B) (t : A) :
  try_number body (inr a) (inr b) = Ret (inl t) -> body = Ret (inl t).
Proof.
  unfold try_number. destruct body as [x|e| |]; try discriminate.
  - intros H. exact H.
  - destruct e; discriminate.
Qed.

Lemma number_convert_token num_str dots ps pe t :
  number_convert num_str dots ps pe = Ret (inl t) -> not_eof t.
Proof.
  unfold number_convert. intros H. apply try_number_token in H.
  inv_bind H. unfold number_checked in H. inv_bind H.
  destruct a0; [discriminate|].
  destruct (dots =? 0); injection H as <-; discriminate.
Qed.

Lemma make_exponent_number_token fuel l num_str ps t l' :
  make_exponent_number fuel l num_str ps = Ret (inl t, l') -> not_eof t.
Proof.
  unfold make_exponent_number. intros H.
  destruct (match current_char l with
            | Some c => if Ascii.eqb c "+" || Ascii.eqb c "-"
                        then (str_of_char c, Lexer_advance l) else ("", l)
            | None => ("", l)
            end) as [sign l1].
  inv_bind H. destruct a as [ex l2]. inv_bind H. injection H as -> <-.
  apply try_number_token in Hm0. inv_bind Hm0.
  repeat match type of Hm0 with
         | (if ?c then _ else _) = _ => destruct c; try discriminate
         | host_bind _ _ = _ => inv_bind Hm0
         end.
  injection Hm0 as <-. discriminate.
Qed.

Lemma make_number_loop_token fuel : forall l num_str dots ps t l',
  make_number_loop fuel l num_str dots ps = Ret (inl t, l') -> not_eof t.
Proof.
  induction fuel as [|fuel IH]; intros l num_str dots ps t l' H; [discriminate|].
  cbn [make_number_loop] in H. unfold number_finish in H.
  destruct (current_char l) as [c|];
    repeat match type of H with
           | (if ?c then _ else _) = _ => destruct c
           end;
    try (eapply IH; eassumption);
    try (eapply make_exponent_number_token; eassumption);
    inv_bind H; injection H as -> <-; eapply number_convert_token; eassumption.
Qed.

Lemma make_string_loop_token fuel : forall l str flag ps t l',
  make_string_loop fuel l str flag ps = Ret (inl t, l') -> not_eof t.
Proof.
  induction fuel as [|fuel IH]; intros l str flag ps t l' H; [discriminate|].
  cbn [make_string_loop] in H.
  destruct (current_char l) as [c|]; [|discriminate].
  repeat match type of H with
         | (if ?c then _ else _) = _ => destruct c
         end;
    try (eapply IH; eassumption).
  - injection H as <- <-. discriminate.
  - destruct (handle_hex_value (Lexer_advance l) ps) as [[r|e] l1]; [|discriminate].
    eapply IH; eassumption.
Qed.

Lemma make_identifier_token fuel l t l' :
  make_identifier fuel l = Ret (t, l') -> not_eof t.
Proof.
  unfold make_identifier. intros H. inv_bind H. destruct a as [s l1].
  injection H as <- <-. unfold not_eof, Token_new. cbn [type].
  match goal with |- context [if ?c then _ else _] => destruct c end; discriminate.
Qed.

Lemma make_tokens_loop_ends fuel : forall l toks out err,
  Forall not_eof toks ->
  make_tokens_loop fuel l toks = Ret (out, err) ->
  match err with
  | Some _ => out = []
  | None =>
      exists pre p,
        out = (pre ++ [Token_new TOKEN_TYPE_EOF NoValue p None])%list
        /\ Forall not_eof pre
  end.
Proof.
  induction fuel as [|fuel IH]; intros l toks out err Hall H; [discriminate|].
  cbn [make_tokens_loop] in H. cbv beta zeta in H.
  assert (Hsnoc : forall t, not_eof t -> Forall not_eof (append toks t)).
  { intros t Ht. unfold append. apply Forall_app. split; [exact Hall|].
    apply Forall_cons. split; [exact Ht|apply Forall_nil; exact I]. }
  destruct (current_char l) as [c|].
  - unfold single, make_minus_or_arrow, make_equals, make_less_than,
      make_greater_than, make_two_char, make_not_equals,
      make_number, make_string in H.
    repeat match type of H with
           | (if ?c then _ else _) = _ => destruct c
           end;
      crunch;
      try reflexivity;
      try (eapply IH; [|eassumption]; try exact Hall; apply Hsnoc;
           first [ discriminate
                 | eapply make_identifier_token; eassumption
                 | eapply make_number_loop_token; eassumption
                 | eapply make_string_loop_token; eassumption ]).
  - injection H as <- <-. unfold append. eauto.
Qed.

(** X19: the output of the lexer.  When [make_tokens] reports no error its
    token list ends with the EOF token, which is its only EOF token, so the
    list is never empty and a parser can always be built on it; when it
    reports an error the token list is empty. *)
Theorem tokens_end_with_eof :
  forall fname txt toks err,
    make_tokens (Lexer_new fname txt) = Ret (toks, err) ->
    match err with
    | Some _ => toks = []
    | None =>
        (exists pre p,
            toks = (pre ++ [Token_new TOKEN_TYPE_EOF NoValue p None])%list
            /\ Forall (fun t => type t <> TOKEN_TYPE_EOF) pre)
        /\ exists parser, Parser_new toks = Some parser
    end.
Proof.
  intros fname txt toks err H. unfold make_tokens in H.
  apply make_tokens_loop_ends in H; [|apply Forall_nil; exact I].
  destruct err; [exact H|].
  destruct H as (pre & p & -> & Hpre). split; [eauto|].
  destruct pre; cbn; eauto.
Qed.

(** The tokens of [1 + 2]. *)
Lemma tokens_end_with_eof_witness :
  exists pre p,
    tokens_of "1 + 2" = (pre ++ [Token_new TOKEN_TYPE_EOF NoValue p None])%list
    /\ Forall (fun t => type t <> TOKEN_TYPE_EOF) pre.
Proof.
  assert (H : make_tokens (Lexer_new source_name "1 + 2") = Ret (tokens_of "1 + 2", None))
    by (vm_compute; reflexivity).
  exact (proj1 (tokens_end_with_eof source_name "1 + 2" _ None H)).
Defined.

Lemma string_length_app s t :
  String.length (s +:+ t) = (String.length s + String.length t)%nat.
Proof.
  induction s as [|x s IH]; [reflexivity|].
  change (String x s +:+ t) with (String x (s +:+ t)). cbn [String.length].
  rewrite IH. reflexivity.
Qed.

Lemma string_app_snoc s : forall c t,
  (s +:+ String c "") +:+ t = s +:+ String c t.
Proof.
  induction s as [|x s IH]; intros c t; [reflexivity|].
  change (String x s +:+ String c "") with (String x (s +:+ String c "")).
  change (String x (s +:+ String c "") +:+ t)
    with (String x ((s +:+ String c "") +:+ t)).
  rewrite IH. reflexivity.
Qed.

Lemma plain_text_cons c r :
  plain_text (String c r) = true ->
  Ascii.eqb c quote_char = false /\ Ascii.eqb c backslash_char = false
  /\ plain_text r = true.
Proof.
  cbn [plain_text]. intros H.
  apply andb_true_iff in H as [H Hr]. apply andb_true_iff in H as [Hq Hb].
  apply negb_true_iff in Hq. apply negb_true_iff in Hb. auto.
Qed.

(** The loop of [make_string] takes the plain characters one by one. *)
Lemma make_string_loop_plain s : forall fuel l acc ps,
  plain_text s = true ->
  (forall j, (j < String.length s)%nat ->
             current_char (Nat.iter j Lexer_advance l) = String.get j s) ->
  make_string_loop (String.length s + fuel) l acc false ps
  = make_string_loop fuel (Nat.iter (String.length s) Lexer_advance l)
      (acc +:+ s) false ps.
Proof.
  induction s as [|c r IH]; intros fuel l acc ps Hplain Hcur.
  - change (Nat.iter (String.length "") Lexer_advance l) with l.
    replace (acc +:+ "") with acc; [reflexivity|].
    clear. induction acc as [|x a IHa]; [reflexivity|].
    change (String x a +:+ "") with (String x (a +:+ "")). rewrite <- IHa. reflexivity.
  - apply plain_text_cons in Hplain as (Hq & Hb & Hr).
    pose proof (Hcur 0%nat ltac:(cbn; lia)) as H0.
    change (Nat.iter 0 Lexer_advance l) with l in H0. cbn [String.get] in H0.
    cbn [String.length Nat.add make_string_loop]. rewrite H0, Hq, Hb.
    cbn [andb negb]. unfold str_of_char.
    rewrite (IH fuel (Lexer_advance l) _ ps Hr).
    + rewrite string_app_snoc, <- Nat.iter_succ_r. reflexivity.
    + intros j Hj. rewrite <- Nat.iter_succ_r.
      rewrite (Hcur (S j)) by (cbn; lia). reflexivity.
Qed.

Lemma make_tokens_loop_quote fuel l toks :
  current_char l = Some quote_char ->
  make_tokens_loop (S fuel) l toks
  = let* (r, l) := make_string fuel l in
    match r with
    | inr error => Ret ([], Some error)
    | inl result => make_tokens_loop fuel l (append toks result)
    end.
Proof. intros H. cbn [make_tokens_loop]. rewrite H. reflexivity. Qed.

Lemma Lexer_new_state fname txt :
  text (Lexer_new fname txt) = txt
  /\ current_char (Lexer_new fname txt) = String.get 0 txt.
Proof.
  pose proof (Lexer_after fname txt 0 (Nat.le_0_l _)) as H.
  change (Nat.iter 0 Lexer_advance (Lexer_new fname txt))
    with (Lexer_new fname txt) in H.
  rewrite H. split; reflexivity.
Qed.

(** The lexer inside a string literal: after the opening quote and [j]
    characters of [rest]. *)
Lemma Lexer_in_literal fname rest j :
  (j <= String.length rest)%nat ->
  current_char (Nat.iter j Lexer_advance
                  (Lexer_advance (Lexer_new fname (String quote_char rest))))
  = String.get j rest.
Proof.
  intros Hj. rewrite <- Nat.iter_succ_r.
  rewrite Lexer_after by (cbn; lia). reflexivity.
Qed.

(** X20: string literals.  A text without quote and backslash written
    between two quotes is lexed as one STRING token holding exactly that
    text, followed by EOF; without the closing quote the lexer reports an
    unterminated string and gives no token. *)
Theorem plain_string_literal_is_read_back :
  forall s,
    plain_text s = true ->
    lex_summary (String quote_char (s +:+ String quote_char ""))
    = Ret ([(TOKEN_TYPE_STRING, StrValue s); (TOKEN_TYPE_EOF, NoValue)], None)
    /\ lex_summary (String quote_char s)
       = Ret ([], Some (ERRORS "unterminated_string")).
Proof.
  intros s Hplain. unfold lex_summary, make_tokens, lexer_fuel. split.
  - set (rest := s +:+ String quote_char "").
    set (l0 := Lexer_new source_name (String quote_char rest)).
    assert (Htext : text l0 = String quote_char rest)
      by (apply Lexer_new_state).
    assert (Hlen : String.length rest = S (String.length s))
      by (unfold rest; rewrite string_length_app; cbn; lia).
    rewrite Htext. cbn [String.length]. rewrite Hlen.
    replace (S (S (String.length s)) + 2)%nat
      with (S (String.length s + 3))%nat by lia.
    rewrite make_tokens_loop_quote by (apply Lexer_new_state).
    unfold make_string.
    rewrite (make_string_loop_plain s 3 (Lexer_advance l0) "" _ Hplain).
    2:{ intros j Hj. unfold l0. rewrite Lexer_in_literal by lia.
        unfold rest. symmetry. apply append_correct1. exact Hj. }
    assert (Hq : current_char (Nat.iter (String.length s) Lexer_advance (Lexer_advance l0))
                 = Some quote_char).
    { unfold l0. rewrite Lexer_in_literal by lia. unfold rest.
      exact (eq_sym (append_correct2 s (String quote_char "") 0)). }
    assert (Hend : current_char (Lexer_advance (Nat.iter (String.length s) Lexer_advance
                                                  (Lexer_advance l0))) = None).
    { rewrite <- Nat.iter_succ. unfold l0. rewrite Lexer_in_literal by lia.
      apply get_beyond. lia. }
    cbn [make_string_loop]. rewrite Hq. cbn [andb negb].
    rewrite Ascii.eqb_refl. cbn [andb host_bind].
    replace (String.length s + 3)%nat with (S (String.length s + 2)) by lia.
    cbn [make_tokens_loop]. rewrite Hend. reflexivity.
  - set (l0 := Lexer_new source_name (String quote_char s)).
    assert (Htext : text l0 = String quote_char s)
      by (apply Lexer_new_state).
    rewrite Htext. cbn [String.length].
    replace (S (String.length s) + 2)%nat
      with (S (String.length s + 2))%nat by lia.
    rewrite make_tokens_loop_quote by (apply Lexer_new_state).
    unfold make_string.
    rewrite (make_string_loop_plain s 2 (Lexer_advance l0) "" _ Hplain).
    2:{ intros j Hj. unfold l0. rewrite Lexer_in_literal by lia. reflexivity. }
    assert (Hend : current_char (Nat.iter (String.length s) Lexer_advance (Lexer_advance l0))
                   = None).
    { unfold l0. rewrite Lexer_in_literal by lia. apply get_beyond. lia. }
    cbn [make_string_loop]. rewrite Hend. reflexivity.
Qed.

(** The literal of [hello world]. *)
Lemma plain_string_literal_is_read_back_witness :
  lex_summary (String quote_char ("hello world" +:+ String quote_char ""))
  = Ret ([(TOKEN_TYPE_STRING, StrValue "hello world"); (TOKEN_TYPE_EOF, NoValue)], None).
Proof.
  exact (proj1 (plain_string_literal_is_read_back "hello world" eq_refl)).
Defined.
